(** * GAMS external equation interface: control vector, message packer,
      string extractor and the example module's dispatcher

    Shallow embedding of [docs/_static/geheader.h] (GEwrite, GEstat, GElog,
    GEname) and of [tests/integration/external_module/mylib.cpp] (gefunc).

    Conventions of the embedding:
    - an [int] is a [Z]; every arithmetic operation of the source is followed
      by the conversion [wrap] to 32-bit two's complement, which is what the
      supported targets compute;
    - the control vector [icntr] is a [list Z] of such words; an access
      outside the list is the fault outcome [None];
    - characters are packed into words least significant byte first
      ([sizeof(int) = 4]);
    - a [char *] argument is a [string] read up to its first NUL character;
    - the process-wide [fpDebug] file and [stdout] are an explicit [sink]
      threaded through every call. *)

From Stdlib Require Import ZArith Lia String Ascii.
From stdpp Require Import base option list.

Local Open Scope Z_scope.

(** ** Machine integers *)

Definition int_min : Z := - 2 ^ 31.
Definition int_max : Z := 2 ^ 31 - 1.

Definition is_int (z : Z) : Prop := int_min <= z <= int_max.

#[global] Instance is_int_dec z : Decision (is_int z).
Proof. unfold is_int. apply _. Defined.

(** Conversion of a mathematical integer to [int]. *)
Definition wrap (z : Z) : Z := (z + 2 ^ 31) mod 2 ^ 32 - 2 ^ 31.

Definition iadd (a b : Z) : Z := wrap (a + b).
Definition isub (a b : Z) : Z := wrap (a - b).
Definition idiv (a b : Z) : Z := wrap (Z.quot a b).

Infix "+i" := iadd (at level 50, left associativity).
Infix "-i" := isub (at level 50, left associativity).
Infix "/i" := idiv (at level 40, left associativity).

Definition sizeof_int : Z := 4.

(** [#define INTS(x) ((((x)-1) / (int)sizeof(int)) + 1)]; the division of C
    truncates towards zero. *)
Definition INTS (x : Z) : Z := (x -i 1) /i sizeof_int +i 1.

(** The spec's [ceil(n / wordSize)]. *)
Definition ceil_div (n k : Z) : Z := (n + k - 1) / k.

(** ** Protocol constants *)

Definition TOSTAT : Z := 1.
Definition TOLOG : Z := 2.

Definition DOINIT : Z := 1.
Definition DOTERM : Z := 2.
Definition DOEVAL : Z := 3.
Definition DOCONSTDERIV : Z := 4.
Definition DOHVPROD : Z := 5.

Definition I_Length : Z := 0.
Definition I_Neq : Z := 1.
Definition I_Nvar : Z := 2.
Definition I_Nz : Z := 3.
Definition I_Mode : Z := 4.
Definition I_Eqno : Z := 5.
Definition I_Dofunc : Z := 6.
Definition I_Dodrv : Z := 7.
Definition I_Newpt : Z := 8.
Definition I_Getfil : Z := 9.
Definition I_Smode : Z := 12.
Definition I_ConstDeriv : Z := 13.
Definition I_HVProd : Z := 14.
Definition I_BufStrt : Z := 25.
Definition I_BufLen : Z := 26.
Definition I_Debug : Z := 27.

(** ** Arrays with checked accesses *)

Definition load {A} (v : list A) (i : Z) : option A :=
  if 0 <=? i then v !! Z.to_nat i else None.

Definition store {A} (v : list A) (i : Z) (x : A) : option (list A) :=
  if (0 <=? i) && (i <? Z.of_nat (length v))
  then Some (<[Z.to_nat i := x]> v) else None.

(** ** Characters inside words *)

Definition byte_of (c : ascii) : Z := Z.of_N (N_of_ascii c).
Definition char_of (b : Z) : ascii := ascii_of_N (Z.to_N b).

Definition get_byte (w k : Z) : Z := Z.land (Z.shiftr w (8 * k)) 255.

Definition set_byte (w k b : Z) : Z :=
  wrap (Z.lor (Z.land w (Z.lnot (Z.shiftl 255 (8 * k)))) (Z.shiftl b (8 * k))).

(** [a] is a byte address relative to the start of the vector. *)
Definition load_char (v : list Z) (a : Z) : option ascii :=
  w ← load v (a / sizeof_int);
  Some (char_of (get_byte w (a mod sizeof_int))).

Definition store_char (v : list Z) (a : Z) (c : ascii) : option (list Z) :=
  w ← load v (a / sizeof_int);
  store v (a / sizeof_int) (set_byte w (a mod sizeof_int) (byte_of c)).

Fixpoint store_chars (v : list Z) (a : Z) (cs : list ascii) : option (list Z) :=
  match cs with
  | [] => Some v
  | c :: cs' => v' ← store_char v a c; store_chars v' (a + 1) cs'
  end.

Fixpoint load_chars (v : list Z) (a : Z) (n : nat) : option (list ascii) :=
  match n with
  | O => Some []
  | S n' => c ← load_char v a; cs ← load_chars v (a + 1) n'; Some (c :: cs)
  end.

(** ** C strings *)

Definition NUL : ascii := Ascii.zero.

(** The characters before the first NUL. *)
Fixpoint c_chars (s : string) : list ascii :=
  match s with
  | EmptyString => []
  | String c s' => if Ascii.eqb c NUL then [] else c :: c_chars s'
  end.

Definition strlen (s : string) : Z := Z.of_nat (length (c_chars s)).

(** [memcpy (char * )(icntr + start), line, n)]: a negative [n] converts to
    a [size_t] beyond every object, and [n] characters must be readable. *)
Definition memcpy (v : list Z) (start : Z) (line : string) (n : Z)
  : option (list Z) :=
  if (0 <=? n) && (n <=? strlen line)
  then store_chars v (start * sizeof_int) (take (Z.to_nat n) (c_chars line))
  else None.

(** ** Debug sink *)

(** [fpDebug] is [None] while the file is not open, otherwise the lines
    written so far (latest last); [can_create] says whether
    [fopen ("debugext.txt", "w")] succeeds. *)
Record sink : Type := Sink {
  fpDebug : option (list string);
  can_create : bool;
  stdout : list string
}.

Definition c_string (s : string) : string := string_of_list_ascii (c_chars s).

Definition debug_trace (w : sink) (line : string) (mode : Z) : sink :=
  let fp := match fpDebug w with
            | None => if can_create w then Some [] else None
            | Some f => Some f
            end in
  match fp with
  | None => Sink None (can_create w) (stdout w ++ ["Can't create debugext.txt"%string])
  | Some f =>
      let f := if mode =? TOSTAT then f ++ [("Stat: " ++ c_string line)%string] else f in
      let f := if mode =? TOLOG then f ++ [(" Log: " ++ c_string line)%string] else f in
      Sink (Some f) (can_create w) (stdout w)
  end.

(** The sink after the debug block of GEwrite. *)
Definition mirrored (w : sink) (dbg : Z) (line : string) (mode : Z) : sink :=
  if dbg =? 0 then w else debug_trace w line mode.

(** ** Message packer *)

Definition GEwrite (w : sink) (icntr : list Z) (line : string) (mode : Z)
  : option (sink * list Z) :=
  dbg ← load icntr I_Debug;
  let w := mirrored w dbg line mode in
  bufstrt ← load icntr I_BufStrt;
  buflen ← load icntr I_BufLen;
  let startMsg := bufstrt +i buflen +i 1 in
  len ← load icntr I_Length;
  let ints2write := len -i startMsg in
  if ints2write <=? 0 then Some (w, icntr) else
  let nBytes := wrap (strlen line) in
  let nBytes := if 256 <? nBytes then 256 else nBytes in
  let nBytes := if ints2write <? INTS nBytes
                then wrap (ints2write * sizeof_int) else nBytes in
  icntr ← memcpy icntr startMsg line nBytes;
  icntr ← store icntr (startMsg -i 2) nBytes;
  icntr ← store icntr (startMsg -i 1) mode;
  used ← load icntr I_BufLen;
  icntr ← store icntr I_BufLen (used +i (2 +i INTS nBytes));
  Some (w, icntr).

Definition GEstat (w : sink) (icntr : list Z) (line : string) :=
  GEwrite w icntr line TOSTAT.

Definition GElog (w : sink) (icntr : list Z) (line : string) :=
  GEwrite w icntr line TOLOG.

(** ** String extractor *)

Fixpoint fill_nul (buf : list ascii) (i : Z) (n : nat) : option (list ascii) :=
  match n with
  | O => Some buf
  | S n' => buf ← store buf i NUL; fill_nul buf (i + 1) n'
  end.

(** [strncpy (buf + i, from, n)] where [from] is the byte address [a] of the
    vector: characters are copied up to and including the first NUL, the
    rest of the [n] positions is filled with NUL. *)
Fixpoint strncpy_at (buf : list ascii) (i : Z) (v : list Z) (a : Z) (n : nat)
  : option (list ascii) :=
  match n with
  | O => Some buf
  | S n' =>
      c ← load_char v a;
      buf ← store buf i c;
      if Ascii.eqb c NUL then fill_nul buf (i + 1) n'
      else strncpy_at buf (i + 1) v (a + 1) n'
  end.

(** A negative count converts to a [size_t] beyond every object. *)
Definition strncpy (buf : list ascii) (v : list Z) (a : Z) (n : Z)
  : option (list ascii) :=
  if 0 <=? n then strncpy_at buf 0 v a (Z.to_nat n) else None.

Definition GEname (icntr : list Z) (buf : list ascii) (bufLen : Z)
  : option (Z * list ascii) :=
  nChars ← load icntr 11;
  if nChars <? 0 then Some (-1, buf) else
  let nChars := if bufLen <? nChars then bufLen else nChars in
  off ← load icntr 10;
  buf ← strncpy buf icntr ((off - 1) * sizeof_int) nChars;
  buf ← (if nChars <? bufLen then store buf nChars NUL else Some buf);
  Some (nChars, buf).

(** ** Records held by the buffer *)

(** The packing convention of the header comment: a record is the number of
    characters, the destination, and the characters packed [sizeof(int)] to
    a word.  [records_from] reads the records lying between the word
    positions [pos] and [stop]. *)
Fixpoint records_from (fuel : nat) (v : list Z) (pos stop : Z)
  : list (Z * string) :=
  match fuel with
  | O => []
  | S fuel' =>
      if stop <=? pos then [] else
      match load v pos, load v (pos + 1) with
      | Some n, Some dest =>
          if n <? 0 then [] else
          match load_chars v ((pos + 2) * sizeof_int) (Z.to_nat n) with
          | Some cs =>
              (dest, string_of_list_ascii cs)
                :: records_from fuel' v (pos + 2 + INTS n) stop
          | None => []
          end
      | _, _ => []
      end
  end.

Definition field (v : list Z) (i : Z) : Z := default 0 (load v i).

(** First free word of the buffer ([I_BufStrt] is 1-based). *)
Definition first_free (v : list Z) : Z :=
  field v I_BufStrt + field v I_BufLen - 1.

(** The records a call appended: those between the first free word before
    the call and the first free word after it. *)
Definition appended (before after : list Z) : list (Z * string) :=
  records_from (Z.to_nat (first_free after - first_free before))
    after (first_free before) (first_free after).

(** ** Well-formed control vectors *)

(** [icntr] has [L] words, all of type [int], [icntr[I_Length] = L], the
    fixed part is there, the buffer announced by [icntr[I_BufStrt] = s]
    lies behind it, and the [c = icntr[I_BufLen]] words in use lie inside
    the vector.  [L + 2] is representable, so that no position GEwrite
    computes overflows. *)
Record wf_icntr (v : list Z) (L s c : Z) : Prop := WfIcntr {
  wf_words : Forall is_int v;
  wf_actual : L = Z.of_nat (length v);
  wf_Length : load v I_Length = Some L;
  wf_BufStrt : load v I_BufStrt = Some s;
  wf_BufLen : load v I_BufLen = Some c;
  wf_fixed : I_Debug < L;
  wf_size : L + 2 <= int_max;
  wf_buffer : I_Debug + 1 < s;
  wf_used : 0 <= c;
  wf_inside : s + c <= L + 1
}.

(** The length GEwrite stores when [r] words remain behind the header. *)
Definition stored_length (line : string) (r : Z) : Z :=
  let m := Z.min (strlen line) 256 in
  if ceil_div m sizeof_int <=? r then m else r * sizeof_int.

(** The text of the record GEwrite stores for [line]. *)
Definition stored_text (line : string) (r : Z) : string :=
  string_of_list_ascii (take (Z.to_nat (stored_length line r)) (c_chars line)).

(** What one call of GEwrite appends when [r] words remain behind the
    header: nothing, or one record, cut to the room there is. *)
Definition written (line : string) (mode r : Z) : list (Z * string) :=
  if 0 <? r then [(mode, stored_text line r)] else [].

(** ** The example module *)

(** [double] with the operations the module uses: [std::sin], [std::cos],
    negation, subtraction and the constant [-1.0]. *)
Class Cmath (double : Type) : Type := {
  d_sin : double → double;
  d_cos : double → double;
  d_neg : double → double;
  d_sub : double → double → double;
  d_minus_one : double
}.

Section Dispatcher.

Context `{Cmath double}.

(** What a call can modify: the control vector, [*f], [d[]] and the
    debug sink. *)
Record memory : Type := Memory {
  m_sink : sink;
  m_icntr : list Z;
  m_f : double;
  m_d : list double
}.

Definition with_icntr (m : memory) (w : sink) (v : list Z) : memory :=
  Memory w v (m_f m) (m_d m).
Definition with_f (m : memory) (y : double) : memory :=
  Memory (m_sink m) (m_icntr m) y (m_d m).
Definition with_d (m : memory) (d : list double) : memory :=
  Memory (m_sink m) (m_icntr m) (m_f m) d.

Definition log (m : memory) (line : string) : option memory :=
  '(w, v) ← GElog (m_sink m) (m_icntr m) line; Some (with_icntr m w v).
Definition stat (m : memory) (line : string) : option memory :=
  '(w, v) ← GEstat (m_sink m) (m_icntr m) line; Some (with_icntr m w v).

Definition do_init (m : memory) : option (Z * memory) :=
  let neq := 2 in
  let nvar := 4 in
  let nz := 4 in
  hneq ← load (m_icntr m) I_Neq;
  if negb (neq =? hneq) then
    m ← log m "--- Number of equations do not match"; Some (2, m)
  else
    hnvar ← load (m_icntr m) I_Nvar;
    if negb (nvar =? hnvar) then
      m ← log m "--- Number of variables do not match"; Some (2, m)
    else
      hnz ← load (m_icntr m) I_Nz;
      if negb (nz =? hnz) then
        m ← log m "--- Number of differentibles do not match"; Some (2, m)
      else
        m ← log m "--- Model has the correct size.";
        v ← store (m_icntr m) I_ConstDeriv 1;
        Some (0, with_icntr m (m_sink m) v).

(** The value assigned to [*f] for equation [findex]. *)
Definition function_value (x : list double) (findex : Z) : option double :=
  if findex =? 1 then
    x0 ← load x 0; x2 ← load x 2; Some (d_sub (d_sin x0) x2)
  else
    x1 ← load x 1; x3 ← load x 3; Some (d_sub (d_cos x1) x3).

(** [d[]] after the two assignments made for equation [findex]. *)
Definition derivatives (d x : list double) (findex : Z)
  : option (list double) :=
  if findex =? 1 then
    x0 ← load x 0;
    d ← store d 0 (d_cos x0);
    store d 2 d_minus_one
  else
    x1 ← load x 1;
    d ← store d 1 (d_neg (d_sin x1));
    store d 3 d_minus_one.

Definition do_eval (m : memory) (x : list double) : option (Z * memory) :=
  m ← log m "--- Evaluation mode";
  findex ← load (m_icntr m) I_Eqno;
  dofnc ← load (m_icntr m) I_Dofunc;
  dodrv ← load (m_icntr m) I_Dodrv;
  if (1 <=? findex) && (findex <=? 2) then
    m ← (if dofnc =? 0 then Some m
         else y ← function_value x findex; Some (with_f m y));
    m ← (if dodrv =? 0 then Some m
         else d ← derivatives (m_d m) x findex; Some (with_d m d));
    Some (0, m)
  else
    m ← stat m " ** fIndex has unexpected value."; Some (2, m).

Definition do_constderiv (m : memory) : option (Z * memory) :=
  m ← log m "--- Constant derivative call";
  findex ← load (m_icntr m) I_Eqno;
  d ← store (m_d m) (findex +i 1) d_minus_one;
  Some (0, with_d m d).

Definition gefunc (m : memory) (x : list double) : option (Z * memory) :=
  mode ← load (m_icntr m) I_Mode;
  if mode =? DOINIT then do_init m
  else if mode =? DOTERM then
    m ← log m "--- Terminating"; Some (0, m)
  else if mode =? DOEVAL then do_eval m x
  else if mode =? DOCONSTDERIV then do_constderiv m
  else
    m ← log m " ** Mode not defined.";
    m ← stat m " ** Mode not defined.";
    Some (2, m).

(** What the host reads back: the status, [*f] and [d[]]. *)
Definition outputs (r : Z * memory) : Z * double * list double :=
  (r.1, m_f r.2, m_d r.2).

End Dispatcher.

Arguments memory : clear implicits.

(** A term model of [double], to run the module on concrete inputs. *)
Inductive term : Type :=
  | Lit (q : Z)
  | Sin (t : term)
  | Cos (t : term)
  | Neg (t : term)
  | Sub (t u : term).

#[global] Instance term_cmath : Cmath term := {|
  d_sin := Sin;
  d_cos := Cos;
  d_neg := Neg;
  d_sub := Sub;
  d_minus_one := Lit (-1)
|}.

(** ** Sample vectors *)

(** A vector of [n] words with the given start and consumption. *)
Definition sample_icntr (n : nat) (strt used : Z) : list Z :=
  <[Z.to_nat I_BufLen := used]>
    (<[Z.to_nat I_BufStrt := strt]>
       (<[Z.to_nat I_Length := Z.of_nat n]> (replicate n 0))).

Definition quiet : sink := Sink None true [].

Definition with_fields (fs : list (Z * Z)) (v : list Z) : list Z :=
  foldr (λ '(i, y) v, <[Z.to_nat i := y]> v) v fs.

(** A vector whose string slot announces the five characters [hello] at
    the 29th word. *)
Definition name_icntr : list Z :=
  default []
    (store_chars (with_fields [(10, 29); (11, 5)] (sample_icntr 40 30 0))
       (28 * sizeof_int) (list_ascii_of_string "hello")).

(** Memory of a call on the term model: closed sink, [*f = 0], four
    derivative entries [0]. *)
Definition fresh (v : list Z) : memory term :=
  Memory quiet v (Lit 0) (replicate 4 (Lit 0)).

Definition point : list term := [Lit 10; Lit 11; Lit 12; Lit 13].

Definition eval_icntr (eqno dofnc dodrv : Z) : list Z :=
  with_fields [(I_Mode, DOEVAL); (I_Eqno, eqno);
               (I_Dofunc, dofnc); (I_Dodrv, dodrv)] (sample_icntr 64 30 0).

(** The same request in another vector: 48 words, five buffer words in
    use, debugging on. *)
Definition busy_eval_icntr (eqno dofnc dodrv : Z) : list Z :=
  with_fields [(I_Mode, DOEVAL); (I_Eqno, eqno); (I_Dofunc, dofnc);
               (I_Dodrv, dodrv); (I_Debug, 1)] (sample_icntr 48 33 5).

(** A sink whose debug file is open after an earlier call. *)
Definition traced : sink := Sink (Some [" Log: --- Terminating"%string]) true [].

Definition init_icntr (n : nat) (strt neq nvar nz : Z) : list Z :=
  with_fields [(I_Mode, DOINIT); (I_Neq, neq); (I_Nvar, nvar); (I_Nz, nz)]
    (sample_icntr n strt 0).

Definition constderiv_icntr (eqno : Z) : list Z :=
  with_fields [(I_Mode, DOCONSTDERIV); (I_Eqno, eqno)] (sample_icntr 64 30 0).

(** A vector whose buffer already holds one record: the line [hello] for
    the status destination, four words in use. *)
Definition one_record_icntr : list Z :=
  default [] (snd <$> GEstat quiet (sample_icntr 64 30 0) "hello").

(** ** The buffer as the host drains it *)

(** All records of the buffer, from its first word to the first free one. *)
Definition records (v : list Z) : list (Z * string) :=
  records_from (Z.to_nat (field v I_BufLen)) v
    (field v I_BufStrt - 1) (first_free v).

(** The words from [pos] up to [stop] hold exactly the records [recs], one
    behind the other. *)
Inductive tiled (v : list Z) : Z → Z → list (Z * string) → Prop :=
  | tiled_nil pos : tiled v pos pos []
  | tiled_cons pos stop n dest cs recs :
      load v pos = Some n →
      load v (pos + 1) = Some dest →
      0 <= n →
      load_chars v ((pos + 2) * sizeof_int) (Z.to_nat n) = Some cs →
      tiled v (pos + 2 + INTS n) stop recs →
      tiled v pos stop ((dest, string_of_list_ascii cs) :: recs).

(** ** What strncpy leaves in the destination *)

(** The characters before the first NUL of a character array. *)
Fixpoint until_nul (cs : list ascii) : list ascii :=
  match cs with
  | [] => []
  | c :: cs' => if Ascii.eqb c NUL then [] else c :: until_nul cs'
  end.

(** The image of [length cs] source characters under [strncpy]: the
    characters before the first NUL, then NUL up to the count. *)
Definition strncpy_image (cs : list ascii) : list ascii :=
  until_nul cs ++ replicate (length cs - length (until_nul cs)) NUL.

(** The line a call of GEwrite adds to the debug file. *)
Definition debug_line (line : string) (mode : Z) : list string :=
  if mode =? TOSTAT then [("Stat: " ++ c_string line)%string]
  else if mode =? TOLOG then [(" Log: " ++ c_string line)%string]
  else [].

Arguments wrap : simpl never.
Arguments iadd : simpl never.
Arguments isub : simpl never.
Arguments idiv : simpl never.
Arguments INTS : simpl never.
Arguments stored_length : simpl never.
Arguments strlen : simpl never.

(** * Properties *)

(** ** Machine integers *)

Lemma wrap_id z : is_int z → wrap z = z.
Proof.
  unfold is_int, wrap, int_min, int_max. intros H.
  rewrite Z.mod_small by lia. lia.
Qed.

Lemma wrap_is_int z : is_int (wrap z).
Proof.
  unfold is_int, wrap, int_min, int_max.
  pose proof (Z.mod_pos_bound (z + 2 ^ 31) (2 ^ 32)). lia.
Qed.

Lemma wrap_mod z : wrap z mod 2 ^ 32 = z mod 2 ^ 32.
Proof.
  replace (wrap z) with (z + - ((z + 2 ^ 31) / 2 ^ 32) * 2 ^ 32).
  - apply Z_mod_plus_full.
  - unfold wrap. pose proof (Z.div_mod (z + 2 ^ 31) (2 ^ 32)). lia.
Qed.

Lemma wrap_testbit z j : 0 <= j < 32 → Z.testbit (wrap z) j = Z.testbit z j.
Proof.
  intros Hj.
  rewrite <- (Z.mod_pow2_bits_low (wrap z) 32 j) by lia.
  rewrite wrap_mod. apply Z.mod_pow2_bits_low. lia.
Qed.

Lemma INTS_pos n : 1 <= n <= int_max → INTS n = ceil_div n sizeof_int.
Proof.
  unfold INTS, ceil_div, iadd, isub, idiv, sizeof_int, int_max. intros Hn.
  assert (Hq : (n - 1) ÷ 4 = (n - 1) / 4) by (apply Z.quot_div_nonneg; lia).
  assert (Hc : (n + 4 - 1) / 4 = (n - 1) / 4 + 1).
  { replace (n + 4 - 1) with (n - 1 + 1 * 4) by lia. apply Z.div_add. lia. }
  assert (0 <= (n - 1) / 4 <= n - 1).
  { split; [apply Z.div_pos; lia|]. apply Z.div_le_upper_bound; lia. }
  rewrite (wrap_id (n - 1)) by (unfold is_int, int_min, int_max; lia).
  rewrite Hq, Hc.
  rewrite (wrap_id ((n - 1) / 4)) by (unfold is_int, int_min, int_max; lia).
  apply wrap_id. unfold is_int, int_min, int_max; lia.
Qed.

(** On the empty line the macro yields one word, not [ceil (0 / 4) = 0]. *)
Lemma INTS_0 : INTS 0 = 1.
Proof. reflexivity. Qed.

Lemma INTS_max n : 0 <= n <= int_max → INTS n = Z.max 1 (ceil_div n sizeof_int).
Proof.
  intros Hn. destruct (decide (n = 0)) as [->|].
  - reflexivity.
  - rewrite INTS_pos by lia. unfold ceil_div, sizeof_int.
    assert (1 <= (n + 4 - 1) / 4) by (apply Z.div_le_lower_bound; lia). lia.
Qed.

Lemma ceil_div_bounds n : 0 <= n →
  n <= ceil_div n sizeof_int * sizeof_int < n + sizeof_int.
Proof.
  unfold ceil_div, sizeof_int. intros Hn.
  pose proof (Z.div_mod (n + 4 - 1) 4). pose proof (Z.mod_pos_bound (n + 4 - 1) 4). lia.
Qed.

(** ** Checked accesses *)

Section Arrays.
Context {A : Type}.
Implicit Types (v : list A) (i j : Z) (x : A).

Lemma load_Some_lt v i x : load v i = Some x → 0 <= i < Z.of_nat (length v).
Proof.
  unfold load. destruct (Z.leb_spec 0 i); [|done].
  intros Hl%lookup_lt_Some. lia.
Qed.

Lemma load_is_Some v i : 0 <= i < Z.of_nat (length v) → is_Some (load v i).
Proof.
  intros Hi. unfold load. destruct (Z.leb_spec 0 i); [|lia].
  apply lookup_lt_is_Some. lia.
Qed.

Lemma store_Some v i x :
  0 <= i < Z.of_nat (length v) → store v i x = Some (<[Z.to_nat i := x]> v).
Proof.
  intros Hi. unfold store.
  destruct (Z.leb_spec 0 i); [|lia]. destruct (Z.ltb_spec i (Z.of_nat (length v))); [done|lia].
Qed.

Lemma store_is_Some v i x :
  is_Some (store v i x) ↔ 0 <= i < Z.of_nat (length v).
Proof.
  unfold store.
  destruct (Z.leb_spec 0 i), (Z.ltb_spec i (Z.of_nat (length v))); simpl;
    split; intros Hs; try lia; try (by eexists); by destruct Hs.
Qed.

Lemma load_insert_eq v i x :
  0 <= i < Z.of_nat (length v) → load (<[Z.to_nat i := x]> v) i = Some x.
Proof.
  intros Hi. unfold load. destruct (Z.leb_spec 0 i); [|lia].
  apply list_lookup_insert_eq. lia.
Qed.

Lemma load_insert_ne v i j x :
  0 <= i → i ≠ j → load (<[Z.to_nat i := x]> v) j = load v j.
Proof.
  intros Hi Hne. unfold load. destruct (Z.leb_spec 0 j); [|done].
  apply list_lookup_insert_ne. lia.
Qed.
End Arrays.

(** ** Characters inside words *)

Lemma testbit_255 i : Z.testbit 255 i = (0 <=? i) && (i <? 8).
Proof.
  destruct (Z.leb_spec 0 i); simpl.
  - change 255 with (Z.ones 8). apply Z.testbit_ones_nonneg; lia.
  - apply Z.testbit_neg_r. lia.
Qed.

Lemma testbit_byte_high b i : 0 <= b < 256 → 8 <= i → Z.testbit b i = false.
Proof.
  intros Hb Hi. destruct (decide (b = 0)) as [->|].
  - apply Z.bits_0.
  - apply Z.bits_above_log2; [lia|].
    apply Z.log2_lt_pow2; [lia|]. change (2 ^ 8) with 256.
    assert (2 ^ 8 <= 2 ^ i) by (apply Z.pow_le_mono_r; lia).
    change (2 ^ 8) with 256 in *. lia.
Qed.

Lemma get_byte_testbit w k i :
  0 <= k → 0 <= i →
  Z.testbit (get_byte w k) i = Z.testbit w (i + 8 * k) && (i <? 8).
Proof.
  intros Hk Hi. unfold get_byte.
  rewrite Z.land_spec, Z.shiftr_spec, testbit_255 by lia.
  destruct (Z.leb_spec 0 i); [done|lia].
Qed.

Lemma set_byte_testbit w k b j :
  0 <= k → 0 <= j < 32 →
  Z.testbit (set_byte w k b) j =
    Z.testbit w j && negb (Z.testbit 255 (j - 8 * k)) || Z.testbit b (j - 8 * k).
Proof.
  intros Hk Hj. unfold set_byte.
  rewrite wrap_testbit by done.
  rewrite Z.lor_spec, Z.land_spec, Z.lnot_spec, !Z.shiftl_spec by lia. done.
Qed.

Lemma get_set_byte_eq w k b :
  0 <= k < 4 → 0 <= b < 256 → get_byte (set_byte w k b) k = b.
Proof.
  intros Hk Hb. apply Z.bits_inj'. intros i Hi.
  rewrite get_byte_testbit by lia.
  destruct (Z.ltb_spec i 8).
  - rewrite set_byte_testbit by lia.
    replace (i + 8 * k - 8 * k) with i by lia.
    rewrite testbit_255.
    destruct (Z.leb_spec 0 i), (Z.ltb_spec i 8); try lia.
    simpl. by rewrite andb_false_r, andb_true_r.
  - rewrite andb_false_r. symmetry. by apply testbit_byte_high.
Qed.

Lemma get_set_byte_ne w k k' b :
  0 <= k < 4 → 0 <= k' < 4 → k ≠ k' → 0 <= b < 256 →
  get_byte (set_byte w k b) k' = get_byte w k'.
Proof.
  intros Hk Hk' Hne Hb. apply Z.bits_inj'. intros i Hi.
  rewrite !get_byte_testbit by lia.
  destruct (Z.ltb_spec i 8); [|by rewrite !andb_false_r].
  rewrite !andb_true_r, set_byte_testbit by lia.
  rewrite testbit_255.
  destruct (Z.leb_spec 0 (i + 8 * k' - 8 * k)).
  - rewrite (testbit_byte_high b) by lia.
    destruct (Z.ltb_spec (i + 8 * k' - 8 * k) 8); [lia|].
    simpl. by rewrite andb_true_r, orb_false_r.
  - rewrite (Z.testbit_neg_r b) by lia.
    simpl. by rewrite andb_true_r, orb_false_r.
Qed.

Lemma byte_of_range c : 0 <= byte_of c < 256.
Proof.
  unfold byte_of. pose proof (N_ascii_bounded c). lia.
Qed.

Lemma char_of_byte_of c : char_of (byte_of c) = c.
Proof.
  unfold char_of, byte_of. rewrite N2Z.id. apply ascii_N_embedding.
Qed.

Lemma set_byte_is_int w k b : is_int (set_byte w k b).
Proof. apply wrap_is_int. Qed.

Lemma div_mod_4 a :
  a = sizeof_int * (a / sizeof_int) + a mod sizeof_int ∧ 0 <= a mod sizeof_int < 4.
Proof.
  unfold sizeof_int. split; [apply Z.div_mod; lia | apply Z.mod_pos_bound; lia].
Qed.

Section StoreChar.
Variables (v : list Z) (a : Z) (c : ascii).
Hypothesis Ha : 0 <= a < sizeof_int * Z.of_nat (length v).

Lemma store_char_Some :
  ∃ w, load v (a / sizeof_int) = Some w ∧
       store_char v a c =
         Some (<[Z.to_nat (a / sizeof_int) :=
                   set_byte w (a mod sizeof_int) (byte_of c)]> v).
Proof.
  destruct (div_mod_4 a) as [Hd Hm]. unfold sizeof_int in *.
  destruct (load_is_Some v (a / 4)) as [w Hw]; [lia|].
  exists w. split; [done|]. unfold store_char, sizeof_int. rewrite Hw. simpl.
  apply store_Some. lia.
Qed.

Variable v' : list Z.
Hypothesis Hst : store_char v a c = Some v'.

Lemma store_char_shape :
  ∃ w, load v (a / sizeof_int) = Some w ∧
       v' = <[Z.to_nat (a / sizeof_int) :=
                set_byte w (a mod sizeof_int) (byte_of c)]> v.
Proof.
  destruct store_char_Some as (w & Hw & Heq). exists w.
  split; [done|]. congruence.
Qed.

Lemma store_char_length : length v' = length v.
Proof. destruct store_char_shape as (w & _ & ->). apply length_insert. Qed.

Lemma store_char_is_int : Forall is_int v → Forall is_int v'.
Proof.
  destruct store_char_shape as (w & _ & ->). intros Hv.
  apply Forall_insert; [done | apply set_byte_is_int].
Qed.

Lemma store_char_word i : i ≠ a / sizeof_int → load v' i = load v i.
Proof.
  destruct store_char_shape as (w & _ & ->). intros Hi.
  destruct (div_mod_4 a). unfold sizeof_int in *.
  apply load_insert_ne; [lia | done].
Qed.

Lemma store_char_same : load_char v' a = Some c.
Proof.
  destruct store_char_shape as (w & Hw & ->).
  destruct (div_mod_4 a) as [Hd Hm]. unfold sizeof_int in *.
  unfold load_char, sizeof_int. rewrite load_insert_eq by lia. simpl.
  rewrite get_set_byte_eq by (done || apply byte_of_range).
  by rewrite char_of_byte_of.
Qed.

Lemma store_char_other b : b ≠ a → load_char v' b = load_char v b.
Proof.
  destruct store_char_shape as (w & Hw & ->). intros Hb.
  destruct (div_mod_4 a) as [Hd Hm], (div_mod_4 b) as [Hd' Hm'].
  unfold sizeof_int in *. unfold load_char, sizeof_int.
  destruct (decide (b / 4 = a / 4)) as [Heq|Hne].
  - rewrite Heq, load_insert_eq, Hw by lia. simpl.
    rewrite get_set_byte_ne; [done | done | done | lia | apply byte_of_range].
  - rewrite load_insert_ne by lia. done.
Qed.
End StoreChar.

Lemma load_chars_ext v v' a n :
  (∀ b, a <= b < a + Z.of_nat n → load_char v' b = load_char v b) →
  load_chars v' a n = load_chars v a n.
Proof.
  revert a. induction n as [|n IH]; intros a Hb; [done|].
  cbn [load_chars]. rewrite Hb by lia. rewrite IH; [done|].
  intros b Hr. apply Hb. lia.
Qed.

Lemma store_chars_spec cs : ∀ v a,
  Forall is_int v → 0 <= a →
  a + Z.of_nat (length cs) <= sizeof_int * Z.of_nat (length v) →
  ∃ v', store_chars v a cs = Some v' ∧
        length v' = length v ∧
        Forall is_int v' ∧
        (∀ i, sizeof_int * i + sizeof_int <= a ∨
              a + Z.of_nat (length cs) <= sizeof_int * i →
              load v' i = load v i) ∧
        (∀ b, b < a ∨ a + Z.of_nat (length cs) <= b →
              load_char v' b = load_char v b) ∧
        load_chars v' a (length cs) = Some cs.
Proof.
  induction cs as [|c cs IH]; intros v a Hint Ha Hfit.
  - exists v. by repeat split.
  - cbn [length] in Hfit. rewrite Nat2Z.inj_succ in Hfit.
    assert (Hin : 0 <= a < sizeof_int * Z.of_nat (length v)) by lia.
    destruct (store_char_Some v a c Hin) as (w & Hw & Hst).
    set (v1 := <[_ := _]> v) in Hst.
    pose proof (store_char_length v a c Hin v1 Hst) as Hlen1.
    destruct (IH v1 (a + 1)) as (v' & Hv' & Hlen & Hint' & Hwords & Hchars & Hread).
    { by apply (store_char_is_int v a c Hin). }
    { lia. }
    { rewrite Hlen1. lia. }
    exists v'. cbn [store_chars length]. rewrite Hst. simpl.
    split; [done|]. split; [congruence|]. split; [done|].
    rewrite Nat2Z.inj_succ. repeat split.
    + intros i Hi. rewrite Hwords by lia.
      apply (store_char_word v a c Hin v1 Hst).
      destruct (div_mod_4 a). unfold sizeof_int in *. lia.
    + intros b Hb. rewrite Hchars by lia.
      apply (store_char_other v a c Hin v1 Hst). lia.
    + cbn [load_chars]. rewrite Hchars by lia.
      rewrite (store_char_same v a c Hin v1 Hst). simpl. by rewrite Hread.
Qed.

(** ** Message packer *)

Lemma load_char_insert_ne v j x b :
  0 <= j → b / sizeof_int ≠ j →
  load_char (<[Z.to_nat j := x]> v) b = load_char v b.
Proof.
  intros Hj Hb. unfold load_char. by rewrite load_insert_ne.
Qed.

Lemma stored_length_range line r :
  0 < r → 0 <= stored_length line r <= 256 ∧
          stored_length line r <= strlen line ∧
          stored_length line r <= r * sizeof_int.
Proof.
  intros Hr. unfold stored_length, strlen.
  set (k := Z.of_nat (length (c_chars line))).
  assert (0 <= k) by lia.
  assert (Hc := ceil_div_bounds (Z.min k 256) ltac:(lia)).
  destruct (Z.leb_spec (ceil_div (Z.min k 256) sizeof_int) r);
    unfold sizeof_int in *; [lia|].
  assert (ceil_div (Z.min k 256) 4 < 65).
  { unfold ceil_div. apply Z.div_lt_upper_bound; lia. }
  lia.
Qed.

Lemma INTS_stored_length line r :
  0 < r → INTS (stored_length line r) <= r.
Proof.
  intros Hr. pose proof (stored_length_range line r Hr) as (Hn & _ & _).
  rewrite INTS_max by (unfold int_max; lia).
  unfold stored_length in *.
  destruct (Z.leb_spec (ceil_div (Z.min (strlen line) 256) sizeof_int) r); [lia|].
  unfold ceil_div, sizeof_int.
  replace (r * 4 + 4 - 1) with (3 + r * 4) by lia.
  rewrite Z.div_add by lia. change (3 / 4) with 0. lia.
Qed.

(** The value of [nBytes] the source computes is [stored_length]. *)
Lemma nBytes_stored_length line r :
  0 < r → is_int r → strlen line <= int_max →
  (let nBytes := wrap (strlen line) in
   let nBytes := if 256 <? nBytes then 256 else nBytes in
   if r <? INTS nBytes then wrap (r * sizeof_int) else nBytes)
  = stored_length line r.
Proof.
  intros Hr Hir Hlen. cbv zeta.
  assert (0 <= strlen line) by (unfold strlen; lia).
  rewrite (wrap_id (strlen line)) by (unfold is_int, int_min, int_max in *; lia).
  assert (Hm : (if 256 <? strlen line then 256 else strlen line)
               = Z.min (strlen line) 256).
  { destruct (Z.ltb_spec 256 (strlen line)); lia. }
  rewrite Hm. unfold stored_length.
  rewrite INTS_max by (unfold int_max; lia).
  destruct (Z.leb_spec (ceil_div (Z.min (strlen line) 256) sizeof_int) r),
           (Z.ltb_spec r (Z.max 1 (ceil_div (Z.min (strlen line) 256) sizeof_int)));
    try lia.
  assert (ceil_div (Z.min (strlen line) 256) sizeof_int < 65).
  { unfold ceil_div, sizeof_int. apply Z.div_lt_upper_bound; lia. }
  apply wrap_id. unfold is_int, int_min, int_max, sizeof_int in *. lia.
Qed.

Lemma load_is_int v i x : Forall is_int v → load v i = Some x → is_int x.
Proof.
  unfold load. destruct (0 <=? i); [|done].
  intros Hv Hx. by eapply Forall_lookup_1.
Qed.

(** When the computed [ints2write] is not positive the call returns before
    any store. *)
Lemma GEwrite_returns_early w v L s c dbg line mode :
  load v I_Debug = Some dbg →
  load v I_BufStrt = Some s →
  load v I_BufLen = Some c →
  load v I_Length = Some L →
  is_int (s + c) → is_int (s + c + 1) → is_int (L - (s + c + 1)) →
  L - (s + c + 1) <= 0 →
  GEwrite w v line mode = Some (mirrored w dbg line mode, v).
Proof.
  intros Hdbg Hs Hc HL Hsum Hstart Hrem Hfull. unfold GEwrite.
  rewrite Hdbg; simpl. rewrite Hs; simpl. rewrite Hc; simpl. rewrite HL; simpl.
  unfold iadd, isub. rewrite (wrap_id (s + c)), (wrap_id (s + c + 1)) by done.
  rewrite wrap_id by done.
  destruct (Z.leb_spec (L - (s + c + 1)) 0); [done|lia].
Qed.

Section Packer.
Variables (v : list Z) (L s c : Z).
Hypothesis Hwf : wf_icntr v L s c.
Variables (w : sink) (line : string) (mode : Z).

Lemma wf_ranges : is_int L ∧ is_int s ∧ is_int c ∧ 0 <= L.
Proof.
  destruct Hwf. repeat split; try (eapply load_is_int; eassumption). lia.
Qed.

Lemma wf_Debug : ∃ dbg, load v I_Debug = Some dbg.
Proof.
  destruct Hwf. apply (load_is_Some v I_Debug). unfold I_Debug in *. lia.
Qed.

(** The two quantities GEwrite computes first. *)
Lemma startMsg_eq : s +i c +i 1 = s + c + 1.
Proof.
  destruct wf_ranges as (_ & Hs & Hc & _). destruct Hwf.
  unfold iadd, is_int, int_min, int_max, I_Debug in *.
  rewrite (wrap_id (s + c)) by (unfold is_int, int_min, int_max; lia).
  apply wrap_id. unfold is_int, int_min, int_max; lia.
Qed.

Lemma ints2write_eq : L -i (s + c + 1) = L - (s + c + 1).
Proof.
  destruct wf_ranges as (HL & Hs & Hc & HL0). destruct Hwf.
  unfold isub. apply wrap_id.
  unfold is_int, int_min, int_max, I_Debug in *. lia.
Qed.

(** Without room behind the header the call changes nothing in the
    vector. *)
Lemma GEwrite_no_room dbg :
  load v I_Debug = Some dbg →
  L - (s + c + 1) <= 0 →
  GEwrite w v line mode = Some (mirrored w dbg line mode, v).
Proof.
  intros Hdbg Hroom. destruct Hwf. unfold GEwrite.
  rewrite Hdbg; simpl. rewrite wf_BufStrt0; simpl. rewrite wf_BufLen0; simpl.
  rewrite wf_Length0; simpl.
  rewrite startMsg_eq, ints2write_eq.
  destruct (Z.leb_spec (L - (s + c + 1)) 0); [done|lia].
Qed.

(** With room behind the header one record is stored. *)
Lemma GEwrite_room dbg :
  load v I_Debug = Some dbg →
  strlen line <= int_max →
  0 < L - (s + c + 1) →
  let n := stored_length line (L - (s + c + 1)) in
  ∃ v', GEwrite w v line mode = Some (mirrored w dbg line mode, v') ∧
        length v' = length v ∧
        (is_int mode → Forall is_int v') ∧
        load v' (s + c - 1) = Some n ∧
        load v' (s + c) = Some mode ∧
        load v' I_BufLen = Some (c + 2 + INTS n) ∧
        (∀ i, i ≠ I_BufLen →
              i < s + c - 1 ∨ s + c + 1 + INTS n <= i →
              load v' i = load v i) ∧
        load_chars v' ((s + c + 1) * sizeof_int) (Z.to_nat n)
          = Some (take (Z.to_nat n) (c_chars line)).
Proof.
  intros Hdbg Hlen Hroom n.
  destruct wf_ranges as (HL & Hs & Hc & HL0).
  pose proof Hwf as [Hint Hact Hl0 Hl25 Hl26 Hfix Hsize Hbuf Hused Hins].
  pose proof (stored_length_range line _ Hroom) as (Hn & Hnl & Hnr).
  pose proof (INTS_stored_length line _ Hroom) as Hni.
  fold n in Hn, Hnl, Hnr, Hni.
  assert (Hni1 : 1 <= INTS n ∧ n <= INTS n * sizeof_int).
  { rewrite INTS_max by (unfold int_max; lia).
    pose proof (ceil_div_bounds n ltac:(lia)). unfold sizeof_int in *. lia. }
  unfold GEwrite.
  rewrite Hdbg; simpl. rewrite Hl25; simpl. rewrite Hl26; simpl.
  rewrite Hl0; simpl.
  rewrite startMsg_eq, ints2write_eq.
  unfold I_Debug, I_BufLen, I_BufStrt, I_Length in *.
  destruct (Z.leb_spec (L - (s + c + 1)) 0); [lia|].
  rewrite nBytes_stored_length; [|done| |done].
  2:{ unfold is_int, int_min, int_max in *. lia. }
  fold n. unfold memcpy.
  destruct (Z.leb_spec 0 n); [|lia]. destruct (Z.leb_spec n (strlen line)); [|lia].
  simpl.
  set (cs := take (Z.to_nat n) (c_chars line)).
  assert (Hcs : Z.of_nat (length cs) = n).
  { unfold cs. rewrite length_take. unfold strlen in *. lia. }
  unfold sizeof_int in *.
  destruct (store_chars_spec cs v ((s + c + 1) * sizeof_int))
    as (v1 & Hv1 & Hlen1 & Hint1 & Hwords & _ & Hread);
    [done | unfold sizeof_int; lia | unfold sizeof_int; lia |].
  rewrite Hcs in Hwords. unfold sizeof_int in Hwords, Hread, Hv1.
  unfold sizeof_int. rewrite Hv1; simpl.
  assert (Hm2 : s + c + 1 -i 2 = s + c - 1).
  { unfold isub. replace (s + c + 1 - 2) with (s + c - 1) by lia.
    apply wrap_id. unfold is_int, int_min, int_max in *. lia. }
  assert (Hm1 : s + c + 1 -i 1 = s + c).
  { unfold isub. replace (s + c + 1 - 1) with (s + c) by lia.
    apply wrap_id. unfold is_int, int_min, int_max in *. lia. }
  rewrite Hm2, Hm1.
  rewrite store_Some by lia; simpl.
  rewrite store_Some by (rewrite length_insert; lia); simpl.
  rewrite !load_insert_ne by lia.
  rewrite Hwords by lia. rewrite Hl26; simpl.
  rewrite store_Some by (rewrite !length_insert; lia); simpl.
  assert (Hadd : c +i (2 +i INTS n) = c + 2 + INTS n).
  { unfold iadd. rewrite (wrap_id (2 + INTS n)).
    - rewrite Z.add_assoc. apply wrap_id.
      unfold is_int, int_min, int_max in *. lia.
    - unfold is_int, int_min, int_max in *. lia. }
  rewrite Hadd.
  eexists. split; [reflexivity|].
  split; [by rewrite !length_insert|].
  split.
  { intros Hmode. repeat apply Forall_insert; try done;
      unfold is_int, int_min, int_max in *; lia. }
  split.
  { rewrite !load_insert_ne by lia.
    apply load_insert_eq. lia. }
  split.
  { rewrite load_insert_ne by lia.
    apply load_insert_eq. rewrite length_insert. lia. }
  split.
  { apply load_insert_eq. rewrite !length_insert. lia. }
  split.
  { intros i Hi Hout. rewrite !load_insert_ne by lia. apply Hwords. lia. }
  replace (Z.to_nat n) with (length cs) by lia.
  rewrite <- Hread.
  apply load_chars_ext. intros b Hb.
  destruct (div_mod_4 b) as [Hd Hm]. unfold sizeof_int in *.
  rewrite !load_char_insert_ne; [done | | | | | | ]; unfold sizeof_int; lia.
Qed.

(** The vector stays well formed, with the counter advanced. *)
Lemma GEwrite_wf w' v' :
  is_int mode →
  strlen line <= int_max →
  GEwrite w v line mode = Some (w', v') →
  ∃ c', wf_icntr v' L s c' ∧ c <= c' ∧
        (∀ i, 0 <= i < I_BufStrt → load v' i = load v i) ∧
        load v' I_Debug = load v I_Debug.
Proof.
  intros Hmode Hlen Hrun.
  destruct wf_Debug as [dbg Hdbg].
  pose proof Hwf as [Hint Hact Hl0 Hl25 Hl26 Hfix Hsize Hbuf Hused Hins].
  destruct wf_ranges as (HL & Hs & Hc & HL0).
  destruct (Z.le_gt_cases (L - (s + c + 1)) 0) as [Hno|Hroom].
  - rewrite (GEwrite_no_room dbg) in Hrun by done.
    assert (v' = v) by congruence. subst v'.
    exists c. by repeat split.
  - destruct (GEwrite_room dbg Hdbg Hlen Hroom)
      as (v2 & Hv2 & Hlen2 & Hint2 & _ & _ & Hc2 & Hframe & _).
    rewrite Hv2 in Hrun.
    assert (v' = v2) by congruence. subst v'.
    pose proof (stored_length_range line _ Hroom) as (Hn & _ & _).
    pose proof (INTS_stored_length line _ Hroom) as Hle.
    assert (1 <= INTS (stored_length line (L - (s + c + 1)))).
    { rewrite INTS_max by (unfold int_max; lia). lia. }
    unfold I_Debug, I_BufLen, I_BufStrt, I_Length in *.
    eexists. split; [split|]; try eassumption; auto;
      unfold I_Debug, I_BufLen, I_BufStrt, I_Length in *.
    + congruence.
    + rewrite Hframe; [done | lia | lia].
    + rewrite Hframe; [done | lia | lia].
    + lia.
    + lia.
    + split; [lia|]. split.
      * intros i Hi. apply Hframe; lia.
      * apply Hframe; lia.
Qed.
End Packer.

(** ** Concrete vectors *)

(** Well-formedness of a closed vector, by evaluation. *)
Ltac closed_wf :=
  split;
  [ compute_done
  | reflexivity | reflexivity | reflexivity | reflexivity
  | vm_compute; reflexivity | vm_compute; congruence
  | vm_compute; reflexivity | vm_compute; congruence
  | vm_compute; congruence ].

Lemma sample_64_wf : wf_icntr (sample_icntr 64 30 0) 64 30 0.
Proof. closed_wf. Qed.

(** ** Claims on the message packer *)

(** C1 (as stated) fails on the empty line: the preconditions of the claim
    hold for a vector with [totalLength = 64], [bufferStart = 30],
    [bufferConsumed = 0], the header length is [0] as claimed, but the
    counter advances by [3] words and not by [2 + ceil (0 / 4) = 2]. *)
Lemma GEwrite_empty_line_advance :
  let v := sample_icntr 64 30 0 in
  wf_icntr v 64 30 0 ∧
  strlen "" <= 256 ∧
  ceil_div (strlen "") sizeof_int <= 64 - (30 + 0 + 2) ∧
  ∃ w' v', GEwrite quiet v "" TOLOG = Some (w', v') ∧
           load v' (30 + 0 - 1) = Some (strlen "") ∧
           load v' I_BufLen = Some (0 + 3) ∧
           load v' I_BufLen ≠ Some (0 + 2 + ceil_div (strlen "") sizeof_int).
Proof.
  split; [apply sample_64_wf|].
  split; [vm_compute; congruence|]. split; [vm_compute; congruence|].
  eexists _, _. split; [vm_compute; reflexivity|].
  split; [reflexivity|]. split; [reflexivity|]. vm_compute. congruence.
Qed.

(** C1 (amended): for every line of at most 256 bytes and every well-formed
    control vector with [ceil (length / wordSize) <= totalLength -
    (bufferStart + bufferConsumed + 2)], GEwrite stores a header whose
    length word is the length of the line, and advances the counter by
    [2 + max 1 (ceil (length / wordSize))] words: the empty line takes one
    payload word. *)
Theorem GEwrite_stores_line w v L s c line mode :
  wf_icntr v L s c →
  strlen line <= 256 →
  ceil_div (strlen line) sizeof_int <= L - (s + c + 2) →
  ∃ w' v', GEwrite w v line mode = Some (w', v') ∧
           load v' (s + c - 1) = Some (strlen line) ∧
           load v' I_BufLen
             = Some (c + 2 + Z.max 1 (ceil_div (strlen line) sizeof_int)).
Proof.
  intros Hwf Hlen Hcap.
  destruct (wf_Debug v L s c Hwf) as [dbg Hdbg].
  assert (H0 : 0 <= strlen line) by (unfold strlen; lia).
  assert (0 <= ceil_div (strlen line) sizeof_int).
  { pose proof (ceil_div_bounds _ H0). unfold sizeof_int in *. lia. }
  assert (Hroom : 0 < L - (s + c + 1)) by lia.
  destruct (GEwrite_room v L s c Hwf w line mode dbg Hdbg)
    as (v' & Hrun & _ & _ & Hhd & _ & Hcnt & _); [unfold int_max; lia | done |].
  assert (Hn : stored_length line (L - (s + c + 1)) = strlen line).
  { unfold stored_length. rewrite Z.min_l by done.
    destruct (Z.leb_spec (ceil_div (strlen line) sizeof_int) (L - (s + c + 1))); [done|lia]. }
  rewrite Hn in *. rewrite INTS_max in Hcnt by (unfold int_max; lia).
  eauto.
Qed.

(** The scenario of the spec: [totalLength = 64], [bufferStart = 30],
    [bufferConsumed = 0] and a line of 10 bytes. *)
Lemma GEwrite_stores_line_scenario :
  ∃ w' v', GEwrite quiet (sample_icntr 64 30 0) "0123456789" TOLOG = Some (w', v') ∧
           load v' 29 = Some 10 ∧ load v' I_BufLen = Some 5.
Proof.
  apply (GEwrite_stores_line quiet (sample_icntr 64 30 0) 64 30 0 "0123456789" TOLOG).
  - closed_wf.
  - vm_compute. congruence.
  - vm_compute. congruence.
Defined.

Lemma sample_64_32_wf : wf_icntr (sample_icntr 64 30 32) 64 30 32.
Proof. closed_wf. Qed.

(** C2 (as stated) fails where [totalLength - (bufferStart + bufferConsumed
    + 2)] is exactly [0]: one word is left behind the header, and GEwrite
    stores a record of four characters and advances the counter. *)
Lemma GEwrite_last_word_written :
  let v := sample_icntr 64 30 32 in
  wf_icntr v 64 30 32 ∧
  64 - (30 + 32 + 2) <= 0 ∧
  ∃ w' v', GEwrite quiet v "abcdefgh" TOSTAT = Some (w', v') ∧
           v' ≠ v ∧
           load v' (30 + 32 - 1) = Some 4 ∧
           load v' I_BufLen = Some 35.
Proof.
  split; [apply sample_64_32_wf|]. split; [lia|].
  eexists _, _. split; [vm_compute; reflexivity|].
  split; [|split; reflexivity].
  intros Heq. apply (f_equal (λ v, load v I_BufLen)) in Heq.
  vm_compute in Heq. congruence.
Qed.

(** C2 (amended): let the words of the vector be of type [int], let
    [totalLength] be its actual length, [bufferStart >= 1],
    [bufferConsumed >= 0], and let [bufferStart + bufferConsumed + 1] be
    representable as [int].  If [totalLength - (bufferStart +
    bufferConsumed + 1) <= 0], GEwrite returns normally and the vector is
    the one it was given: no header word, no payload word, and the same
    counter.  Only the debug sink, when the debug flag is set, has
    received the line. *)
Theorem GEwrite_full_buffer w v L s c dbg line mode :
  Forall is_int v →
  L = Z.of_nat (length v) →
  load v I_Length = Some L →
  load v I_BufStrt = Some s →
  load v I_BufLen = Some c →
  load v I_Debug = Some dbg →
  1 <= s →
  0 <= c →
  s + c + 1 <= int_max →
  L - (s + c + 1) <= 0 →
  ∃ w', GEwrite w v line mode = Some (w', v) ∧
        (dbg = 0 → w' = w).
Proof.
  intros Hint HL Hl0 Hl25 Hl26 Hl27 Hs Hc Hov Hfull.
  pose proof (load_is_int _ _ _ Hint Hl0) as HiL.
  exists (mirrored w dbg line mode). split.
  - apply (GEwrite_returns_early w v L s c); try done;
      unfold is_int, int_min, int_max in *; lia.
  - by intros ->.
Qed.

Lemma GEwrite_full_buffer_run :
  ∃ w', GEwrite quiet (sample_icntr 64 30 33) "abcdefgh" TOSTAT
          = Some (w', sample_icntr 64 30 33) ∧
        (0 = 0 → w' = quiet).
Proof.
  apply (GEwrite_full_buffer quiet (sample_icntr 64 30 33) 64 30 33 0
           "abcdefgh" TOSTAT).
  - compute_done.
  - reflexivity.
  - reflexivity.
  - reflexivity.
  - reflexivity.
  - reflexivity.
  - lia.
  - lia.
  - vm_compute. congruence.
  - lia.
Defined.

Lemma sample_64_31_wf : wf_icntr (sample_icntr 64 30 31) 64 30 31.
Proof. closed_wf. Qed.

(** C3 (as stated) fails for the remaining capacity of the spec,
    [totalLength - (bufferStart + bufferConsumed + 2)]: with
    [totalLength = 64], [bufferStart = 30], [bufferConsumed = 31] it is
    [1 > 0], the two words of an 8-byte line do not fit in it, and the
    claimed length is [1 * 4 = 4]; GEwrite finds two words behind the
    header and stores the length 8, more than [4]. *)
Lemma GEwrite_header_exceeds_spec_remaining :
  let v := sample_icntr 64 30 31 in
  let remainingWords := 64 - (30 + 31 + 2) in
  wf_icntr v 64 30 31 ∧
  0 < remainingWords ∧
  ¬ (ceil_div (Z.min (strlen "abcdefgh") 256) sizeof_int <= remainingWords) ∧
  ∃ w' v', GEwrite quiet v "abcdefgh" TOLOG = Some (w', v') ∧
           load v' (30 + 31 - 1) = Some 8 ∧
           load v' (30 + 31 - 1) ≠ Some (remainingWords * sizeof_int) ∧
           ¬ (8 <= remainingWords * sizeof_int).
Proof.
  split; [apply sample_64_31_wf|]. split; [lia|].
  split; [vm_compute; congruence|].
  eexists _, _. split; [vm_compute; reflexivity|].
  split; [reflexivity|]. split; vm_compute; congruence.
Qed.

(** C3 (amended): let [r = totalLength - (bufferStart + bufferConsumed + 1)]
    be the words remaining behind the header (the [ints2write] of the
    source), and [r > 0].  The length stored in the header is
    [min (strlen line) 256] when [ceil (min (strlen line) 256 / wordSize)
    <= r] and [r * wordSize] otherwise; a line longer than 256 bytes that
    fits is stored with length 256, and the stored length never exceeds
    [r * wordSize]. *)
Theorem GEwrite_header_length w v L s c line mode :
  wf_icntr v L s c →
  strlen line <= int_max →
  0 < L - (s + c + 1) →
  let r := L - (s + c + 1) in
  let m := Z.min (strlen line) 256 in
  ∃ w' v' n,
    GEwrite w v line mode = Some (w', v') ∧
    load v' (s + c - 1) = Some n ∧
    n = (if ceil_div m sizeof_int <=? r then m else r * sizeof_int) ∧
    (256 < strlen line → ceil_div 256 sizeof_int <= r → n = 256) ∧
    n <= r * sizeof_int.
Proof.
  intros Hwf Hlen Hroom r m.
  destruct (wf_Debug v L s c Hwf) as [dbg Hdbg].
  destruct (GEwrite_room v L s c Hwf w line mode dbg Hdbg Hlen Hroom)
    as (v' & Hrun & _ & _ & Hhd & _).
  pose proof (stored_length_range line _ Hroom) as (_ & _ & Hle).
  exists (mirrored w dbg line mode), v', (stored_length line r).
  split; [done|]. split; [done|]. split; [done|]. split; [|done].
  intros Hlong Hfit. unfold stored_length.
  rewrite Z.min_r by lia.
  destruct (Z.leb_spec (ceil_div 256 sizeof_int) r); [done|lia].
Qed.

Lemma sample_40_wf : wf_icntr (sample_icntr 40 30 0) 40 30 0.
Proof. closed_wf. Qed.

(** Nine words remain, the line has ten characters more than they hold. *)
Lemma GEwrite_header_length_run :
  ∃ w' v' n,
    GEwrite quiet (sample_icntr 40 30 0)
      "0123456789012345678901234567890123456789012345" TOLOG = Some (w', v') ∧
    load v' 29 = Some n ∧
    n = 36 ∧
    (256 < 46 → 64 <= 9 → n = 256) ∧
    n <= 36.
Proof.
  apply (GEwrite_header_length quiet (sample_icntr 40 30 0) 40 30 0
           "0123456789012345678901234567890123456789012345" TOLOG).
  - closed_wf.
  - vm_compute. congruence.
  - lia.
Defined.

(** C9 (as stated) fails when [bufferStart + bufferConsumed + 1] is not
    representable: with [bufferStart = bufferConsumed = 2^31 - 1] the
    claimed precondition holds for a vector of 64 words, the sum wraps to
    [-1], 65 words seem to remain, and the payload is copied to the word
    before the vector. *)
Lemma GEwrite_wrapped_start_faults :
  let v := sample_icntr 64 int_max int_max in
  Forall is_int v ∧
  load v I_Length = Some (Z.of_nat (length v)) ∧
  load v I_BufStrt = Some int_max ∧ 1 <= int_max ∧
  load v I_BufLen = Some int_max ∧ 0 <= int_max ∧
  int_max +i int_max +i 1 = -1 ∧
  memcpy v (-1) "x" 1 = None ∧
  GEwrite quiet v "x" TOLOG = None.
Proof.
  split; [compute_done|].
  repeat split; vm_compute; congruence.
Qed.

(** C9 (amended): let all words of the vector be of type [int], let
    [totalLength] be the actual length of the vector, [bufferStart >= 1],
    [bufferConsumed >= 0], and let [bufferStart + bufferConsumed + 1] and
    the length of the line be representable as [int].  Then no access of
    GEwrite leaves the vector: the call returns normally, and when words
    remain behind the header, the two header positions and the word of
    every payload byte lie in [0, totalLength - 1]. *)
Theorem GEwrite_in_bounds w v L s c dbg line mode :
  Forall is_int v →
  L = Z.of_nat (length v) →
  load v I_Length = Some L →
  load v I_BufStrt = Some s →
  load v I_BufLen = Some c →
  load v I_Debug = Some dbg →
  1 <= s →
  0 <= c →
  s + c + 1 <= int_max →
  strlen line <= int_max →
  is_Some (GEwrite w v line mode) ∧
  (0 < L - (s + c + 1) →
   0 <= s + c - 1 ∧ s + c <= L - 1 ∧
   ∀ k, 0 <= k < stored_length line (L - (s + c + 1)) →
        0 <= ((s + c + 1) * sizeof_int + k) / sizeof_int <= L - 1).
Proof.
  intros Hint HL Hl0 Hl25 Hl26 Hl27 Hs Hc Hov Hlen.
  pose proof (load_is_int _ _ _ Hint Hl0) as HiL.
  pose proof (load_Some_lt _ _ _ Hl27) as H27.
  unfold I_Debug, I_BufLen, I_BufStrt, I_Length in *.
  assert (Hstart : s +i c +i 1 = s + c + 1).
  { unfold iadd. rewrite (wrap_id (s + c)); [apply wrap_id|];
      unfold is_int, int_min, int_max in *; lia. }
  assert (Hrem : L -i (s + c + 1) = L - (s + c + 1)).
  { unfold isub. apply wrap_id. unfold is_int, int_min, int_max in *. lia. }
  split.
  - unfold GEwrite, I_Debug, I_BufLen, I_BufStrt, I_Length.
    rewrite Hl27; simpl. rewrite Hl25; simpl. rewrite Hl26; simpl.
    rewrite Hl0; simpl. rewrite Hstart, Hrem.
    destruct (Z.leb_spec (L - (s + c + 1)) 0) as [|Hroom]; [done|].
    rewrite nBytes_stored_length; [|done| |done].
    2:{ unfold is_int, int_min, int_max in *. lia. }
    pose proof (stored_length_range line _ Hroom) as (Hn & Hnl & Hnr).
    set (n := stored_length line (L - (s + c + 1))) in *.
    unfold memcpy.
    destruct (Z.leb_spec 0 n); [|lia]. destruct (Z.leb_spec n (strlen line)); [|lia].
    simpl.
    set (cs := take (Z.to_nat n) (c_chars line)).
    assert (Hcs : Z.of_nat (length cs) = n).
    { unfold cs. rewrite length_take. unfold strlen in *. lia. }
    destruct (store_chars_spec cs v ((s + c + 1) * sizeof_int))
      as (v1 & Hv1 & Hlen1 & _); [done | unfold sizeof_int in *; lia.. |].
    rewrite Hv1; simpl.
    unfold isub.
    rewrite !wrap_id by (unfold is_int, int_min, int_max in *; lia).
    rewrite store_Some by lia; simpl.
    rewrite store_Some by (rewrite length_insert; lia); simpl.
    destruct (load_is_Some (<[Z.to_nat (s + c + 1 - 1) := mode]>
                (<[Z.to_nat (s + c + 1 - 2) := n]> v1)) 26) as [u Hu].
    { rewrite !length_insert. lia. }
    rewrite Hu; simpl.
    rewrite store_Some by (rewrite !length_insert; lia). done.
  - intros Hroom.
    pose proof (stored_length_range line _ Hroom) as (Hn & Hnl & Hnr).
    split; [lia|]. split; [lia|]. intros k Hk. unfold sizeof_int in *.
    split.
    + apply Z.div_pos; lia.
    + apply Z.lt_succ_r. apply Z.div_lt_upper_bound; lia.
Qed.

Lemma GEwrite_in_bounds_run :
  is_Some (GEwrite quiet (sample_icntr 64 30 0) "0123456789" TOLOG) ∧
  (0 < 64 - (30 + 0 + 1) →
   0 <= 30 + 0 - 1 ∧ 30 + 0 <= 64 - 1 ∧
   ∀ k, 0 <= k < stored_length "0123456789" (64 - (30 + 0 + 1)) →
        0 <= ((30 + 0 + 1) * sizeof_int + k) / sizeof_int <= 64 - 1).
Proof.
  apply (GEwrite_in_bounds quiet (sample_icntr 64 30 0) 64 30 0 0 "0123456789" TOLOG).
  - compute_done.
  - reflexivity.
  - reflexivity.
  - reflexivity.
  - reflexivity.
  - reflexivity.
  - lia.
  - lia.
  - vm_compute. congruence.
  - vm_compute. congruence.
Defined.

(** ** Records of the buffer *)

Lemma records_from_done fuel v pos stop :
  stop <= pos → records_from fuel v pos stop = [].
Proof.
  intros Hle. destruct fuel; [done|]. cbn [records_from].
  destruct (Z.leb_spec stop pos); [done|lia].
Qed.

Lemma records_from_step fuel v pos stop n dest cs :
  (0 < fuel)%nat → pos < stop →
  load v pos = Some n → load v (pos + 1) = Some dest → 0 <= n →
  load_chars v ((pos + 2) * sizeof_int) (Z.to_nat n) = Some cs →
  records_from fuel v pos stop
    = (dest, string_of_list_ascii cs)
        :: records_from (pred fuel) v (pos + 2 + INTS n) stop.
Proof.
  intros Hfuel Hlt Hn Hdest Hn0 Hcs.
  destruct fuel as [|fuel]; [lia|]. cbn [records_from pred].
  destruct (Z.leb_spec stop pos); [lia|].
  rewrite Hn, Hdest. destruct (Z.ltb_spec n 0); [lia|]. by rewrite Hcs.
Qed.

Lemma load_chars_words v v' a n :
  (∀ i, a <= sizeof_int * i + 3 → sizeof_int * i < a + Z.of_nat n →
        load v' i = load v i) →
  load_chars v' a n = load_chars v a n.
Proof.
  intros Hw. apply load_chars_ext. intros b Hb.
  unfold load_char. rewrite Hw; [done|..];
    destruct (div_mod_4 b); unfold sizeof_int in *; lia.
Qed.

Section Appended.
Variables (v : list Z) (L s c : Z).
Hypothesis Hwf : wf_icntr v L s c.

Lemma first_free_wf : first_free v = s + c - 1.
Proof.
  destruct Hwf. unfold first_free, field.
  by rewrite wf_BufStrt0, wf_BufLen0.
Qed.

(** One call: the counter, and the records between the old and the new
    first free word. *)
Lemma GEwrite_written w line mode :
  is_int mode → strlen line <= int_max →
  ∃ w' v' c',
    GEwrite w v line mode = Some (w', v') ∧
    wf_icntr v' L s c' ∧
    c' = (if 0 <? L - (s + c + 1)
          then c + 2 + INTS (stored_length line (L - (s + c + 1))) else c) ∧
    (∀ i, i ≠ I_BufLen → i < s + c - 1 → load v' i = load v i) ∧
    (load v I_Debug = Some 0 → w' = w) ∧
    appended v v' = written line mode (L - (s + c + 1)).
Proof.
  intros Hmode Hlen.
  destruct (wf_Debug v L s c Hwf) as [dbg Hdbg].
  assert (Hsink : load v I_Debug = Some 0 → mirrored w dbg line mode = w).
  { rewrite Hdbg. by intros [= ->]. }
  unfold written.
  destruct (Z.ltb_spec 0 (L - (s + c + 1))) as [Hroom|Hfull].
  - destruct (GEwrite_room v L s c Hwf w line mode dbg Hdbg Hlen Hroom)
      as (v' & Hrun & Hlen' & Hint' & Hhd & Hdest & Hcnt & Hframe & Hread).
    destruct (GEwrite_wf v L s c Hwf w line mode _ _ Hmode Hlen Hrun)
      as (c' & Hwf' & _).
    pose proof (stored_length_range line _ Hroom) as (Hn & _ & _).
    set (n := stored_length line (L - (s + c + 1))) in *.
    assert (Hc' : c' = c + 2 + INTS n).
    { destruct Hwf'. congruence. }
    assert (1 <= INTS n).
    { rewrite INTS_max by (unfold int_max; lia). lia. }
    exists (mirrored w dbg line mode), v', c'.
    split; [done|]. split; [done|]. split; [done|].
    split; [intros i Hi Hlt; apply Hframe; [done|lia]|].
    split; [done|].
    unfold appended. rewrite first_free_wf.
    unfold first_free, field. destruct Hwf'.
    rewrite wf_BufStrt0, wf_BufLen0. simpl.
    rewrite (records_from_step _ _ _ _ n mode
               (take (Z.to_nat n) (c_chars line))); [| lia | lia | done | | lia |].
    + rewrite records_from_done; [done|lia].
    + by replace (s + c - 1 + 1) with (s + c) by lia.
    + by replace (s + c - 1 + 2) with (s + c + 1) by lia.
  - rewrite (GEwrite_no_room v L s c Hwf w line mode dbg Hdbg Hfull).
    exists (mirrored w dbg line mode), v, c.
    split; [done|]. split; [done|]. split; [done|]. split; [done|].
    split; [done|]. unfold appended. by rewrite records_from_done.
Qed.
End Appended.

(** Two calls in a row append what each of them writes. *)
Lemma GEwrite_twice_written v L s c w l1 m1 l2 m2 :
    wf_icntr v L s c →
    is_int m1 → is_int m2 → strlen l1 <= int_max → strlen l2 <= int_max →
    ∃ w1 v1 c1 w2 v2 c2,
      GEwrite w v l1 m1 = Some (w1, v1) ∧
      GEwrite w1 v1 l2 m2 = Some (w2, v2) ∧
      wf_icntr v1 L s c1 ∧ wf_icntr v2 L s c2 ∧
      (∀ i, i ≠ I_BufLen → i < s + c - 1 → load v2 i = load v i) ∧
      (load v I_Debug = Some 0 → w2 = w) ∧
      appended v v2 = written l1 m1 (L - (s + c + 1))
                        ++ written l2 m2 (L - (s + c1 + 1)).
  Proof.
    intros Hwf Hm1 Hm2 Hl1 Hl2.
    destruct (GEwrite_written v L s c Hwf w l1 m1 Hm1 Hl1)
      as (w1 & v1 & c1 & Hrun1 & Hwf1 & Hc1 & Hfr1 & Hw1 & Happ1).
    destruct (GEwrite_written v1 L s c1 Hwf1 w1 l2 m2 Hm2 Hl2)
      as (w2 & v2 & c2 & Hrun2 & Hwf2 & Hc2 & Hfr2 & Hw2 & Happ2).
    exists w1, v1, c1, w2, v2, c2.
    split; [done|]. split; [done|]. split; [done|]. split; [done|].
    assert (Hcc : c <= c1).
    { destruct (GEwrite_wf v L s c Hwf w l1 m1 _ _ Hm1 Hl1 Hrun1)
        as (c1' & Hwf1' & Hle & _).
      destruct Hwf1, Hwf1'. assert (c1' = c1) by congruence. lia. }
    assert (Hdbg1 : load v1 I_Debug = load v I_Debug).
    { destruct (GEwrite_wf v L s c Hwf w l1 m1 _ _ Hm1 Hl1 Hrun1)
        as (_ & _ & _ & _ & Hd). done. }
    split.
    { intros i Hi Hlt. rewrite Hfr2 by (done || lia). by apply Hfr1. }
    split.
    { intros Hd. rewrite Hw2 by congruence. auto. }
    unfold written at 1.
    destruct (Z.ltb_spec 0 (L - (s + c + 1))) as [Hroom1|Hfull1].
    - unfold written.
      destruct (Z.ltb_spec 0 (L - (s + c1 + 1))) as [Hroom2|Hfull2].
      + (* both records *)
        destruct (wf_Debug v L s c Hwf) as [dbg Hdbg].
        destruct (GEwrite_room v L s c Hwf w l1 m1 dbg Hdbg Hl1 Hroom1)
          as (v1' & Hrun1' & _ & _ & Hhd1 & Hdest1 & _ & _ & Hread1).
        assert (v1' = v1) by congruence. subst v1'.
        destruct (wf_Debug v1 L s c1 Hwf1) as [dbg1 Hdbg1'].
        destruct (GEwrite_room v1 L s c1 Hwf1 w1 l2 m2 dbg1 Hdbg1' Hl2 Hroom2)
          as (v2' & Hrun2' & _ & _ & Hhd2 & Hdest2 & _ & _ & Hread2).
        assert (v2' = v2) by congruence. subst v2'.
        pose proof (stored_length_range l1 _ Hroom1) as (Hn1 & _ & _).
        pose proof (stored_length_range l2 _ Hroom2) as (Hn2 & _ & _).
        set (n1 := stored_length l1 (L - (s + c + 1))) in *.
        set (n2 := stored_length l2 (L - (s + c1 + 1))) in *.
        assert (Hi1 : 1 <= INTS n1 ∧ n1 <= INTS n1 * sizeof_int).
        { rewrite INTS_max by (unfold int_max; lia).
          pose proof (ceil_div_bounds n1 ltac:(lia)). unfold sizeof_int in *. lia. }
        assert (Hi2 : 1 <= INTS n2).
        { rewrite INTS_max by (unfold int_max; lia). lia. }
        cbv iota in Hc1, Hc2.
        pose proof (wf_buffer _ _ _ _ Hwf) as Hbuf.
        pose proof (wf_used _ _ _ _ Hwf) as Hused.
        unfold appended. rewrite (first_free_wf v L s c Hwf).
        rewrite (first_free_wf v2 L s c2 Hwf2).
        unfold I_BufLen, I_Debug, sizeof_int in *.
        rewrite (records_from_step _ _ _ _ n1 m1
                   (take (Z.to_nat n1) (c_chars l1)));
          [| lia | lia | | | lia |].
        * rewrite (records_from_step _ _ _ _ n2 m2
                     (take (Z.to_nat n2) (c_chars l2)));
            [| lia | lia | | | lia |].
          -- rewrite records_from_done; [done|lia].
          -- by replace (s + c - 1 + 2 + INTS n1) with (s + c1 - 1) by lia.
          -- by replace (s + c - 1 + 2 + INTS n1 + 1) with (s + c1) by lia.
          -- by replace (s + c - 1 + 2 + INTS n1 + 2) with (s + c1 + 1) by lia.
        * rewrite Hfr2; [done | lia | lia].
        * rewrite Hfr2; [|lia|lia].
          by replace (s + c - 1 + 1) with (s + c) by lia.
        * replace (s + c - 1 + 2) with (s + c + 1) by lia.
          rewrite <- Hread1. apply load_chars_words.
          intros i Hlo Hhi. apply Hfr2; unfold sizeof_int in *; lia.
      + (* the second call finds no room *)
        assert (v2 = v1).
        { destruct (wf_Debug v1 L s c1 Hwf1) as [dbg1 Hdbg1'].
          rewrite (GEwrite_no_room v1 L s c1 Hwf1 w1 l2 m2 dbg1 Hdbg1' Hfull2) in Hrun2.
          congruence. }
        subst v2. rewrite Happ1. unfold written.
        destruct (Z.ltb_spec 0 (L - (s + c + 1))); [|lia]. by rewrite app_nil_r.
    - (* the first call finds no room *)
      assert (v1 = v).
      { destruct (wf_Debug v L s c Hwf) as [dbg Hdbg].
        rewrite (GEwrite_no_room v L s c Hwf w l1 m1 dbg Hdbg Hfull1) in Hrun1.
        congruence. }
      subst v1. done.
  Qed.

Lemma c_string_take_all line :
  string_of_list_ascii (take (Z.to_nat (strlen line)) (c_chars line))
  = c_string line.
Proof.
  unfold strlen, c_string. rewrite Nat2Z.id. by rewrite firstn_all.
Qed.

(** A line that fits is stored whole. *)
Lemma written_whole line mode r :
  strlen line <= 256 → ceil_div (strlen line) sizeof_int <= r → 0 < r →
  written line mode r = [(mode, c_string line)] ∧
  stored_length line r = strlen line.
Proof.
  intros Hlen Hfit Hr. unfold written, stored_text.
  assert (Hn : stored_length line r = strlen line).
  { unfold stored_length. rewrite Z.min_l by done.
    destruct (Z.leb_spec (ceil_div (strlen line) sizeof_int) r); [done|lia]. }
  destruct (Z.ltb_spec 0 r); [|lia].
  by rewrite Hn, c_string_take_all.
Qed.

(** A record holds the whole line only if the line fits. *)
Lemma written_whole_iff line mode r :
  strlen line <= 256 →
  written line mode r = [(mode, c_string line)]
  ↔ 0 < r ∧ ceil_div (strlen line) sizeof_int <= r.
Proof.
  intros Hlen. split; [|intros [Hr Hfit]; by apply written_whole].
  unfold written. destruct (Z.ltb_spec 0 r) as [Hr|]; [|done].
  intros [= Htxt]. split; [done|].
  unfold stored_text, c_string in Htxt.
  apply (f_equal list_ascii_of_string) in Htxt.
  rewrite !list_ascii_of_string_of_list_ascii in Htxt.
  apply (f_equal length) in Htxt. rewrite length_take in Htxt.
  unfold stored_length in Htxt. rewrite Z.min_l in Htxt by done.
  destruct (Z.leb_spec (ceil_div (strlen line) sizeof_int) r) as [|Hcut]; [done|].
  pose proof (ceil_div_bounds (strlen line) ltac:(unfold strlen; lia)) as Hb.
  unfold strlen, sizeof_int in *. lia.
Qed.

Lemma written_two l1 m1 r1 l2 m2 r2 (x y : Z * string) :
  written l1 m1 r1 ++ written l2 m2 r2 = [x; y]
  ↔ written l1 m1 r1 = [x] ∧ written l2 m2 r2 = [y].
Proof.
  unfold written. split.
  - destruct (0 <? r1), (0 <? r2); cbn [app]; intros Heq;
      try discriminate Heq. by injection Heq as -> ->.
  - by intros [-> ->].
Qed.

(** Two lines passed to the packer one after the other are both stored
    whole exactly when the words from the first free one to the end of
    the vector hold both records, header words included. *)
Lemma two_lines_whole l1 m1 l2 m2 L s c c1 :
  1 <= strlen l1 <= 256 → 1 <= strlen l2 <= 256 →
  c1 = (if 0 <? L - (s + c + 1)
        then c + 2 + INTS (stored_length l1 (L - (s + c + 1))) else c) →
  written l1 m1 (L - (s + c + 1)) ++ written l2 m2 (L - (s + c1 + 1))
    = [(m1, c_string l1); (m2, c_string l2)]
  ↔ 2 + INTS (strlen l1) + (2 + INTS (strlen l2)) <= L - (s + c - 1).
Proof.
  intros Hl1 Hl2 Hc1.
  rewrite written_two, !written_whole_iff by lia.
  rewrite (INTS_max (strlen l1)), (INTS_max (strlen l2)) by (unfold int_max; lia).
  pose proof (ceil_div_bounds (strlen l1) ltac:(lia)) as Hb1.
  pose proof (ceil_div_bounds (strlen l2) ltac:(lia)) as Hb2.
  unfold sizeof_int in *.
  split.
  - intros [[Hr1 Hf1] [Hr2 Hf2]].
    destruct (written_whole l1 m1 (L - (s + c + 1))) as [_ Hn]; [lia | done | done |].
    rewrite Hn in Hc1. destruct (Z.ltb_spec 0 (L - (s + c + 1))); [|lia].
    rewrite (INTS_max (strlen l1)) in Hc1 by (unfold int_max; lia).
    unfold sizeof_int in *. lia.
  - intros Hroom.
    destruct (written_whole l1 m1 (L - (s + c + 1))) as [_ Hn];
      [lia | unfold sizeof_int; lia | lia |].
    rewrite Hn in Hc1. destruct (Z.ltb_spec 0 (L - (s + c + 1))); [|lia].
    rewrite (INTS_max (strlen l1)) in Hc1 by (unfold int_max; lia).
    unfold sizeof_int in *. lia.
Qed.

(** ** String extractor *)

Lemma load_char_is_Some v a :
  0 <= a < sizeof_int * Z.of_nat (length v) → is_Some (load_char v a).
Proof.
  intros Ha. destruct (div_mod_4 a). unfold sizeof_int in *.
  destruct (load_is_Some v (a / 4)) as [x Hx]; [lia|].
  unfold load_char, sizeof_int. rewrite Hx. by eexists.
Qed.

Lemma fill_nul_spec n : ∀ (buf : list ascii) i,
  0 <= i → i + Z.of_nat n <= Z.of_nat (length buf) →
  ∃ buf', fill_nul buf i n = Some buf' ∧
          length buf' = length buf ∧
          ∀ j, j < i ∨ i + Z.of_nat n <= j → load buf' j = load buf j.
Proof.
  induction n as [|n IH]; intros buf i Hi Hfit.
  - by exists buf.
  - cbn [fill_nul]. rewrite store_Some by lia. simpl.
    destruct (IH (<[Z.to_nat i := NUL]> buf) (i + 1)) as (buf' & Hrun & Hlen & Hfr).
    { lia. } { rewrite length_insert. lia. }
    exists buf'. split; [done|]. split; [by rewrite Hlen, length_insert|].
    intros j Hj. rewrite Hfr by lia. apply load_insert_ne; lia.
Qed.

Lemma strncpy_at_spec v n : ∀ (buf : list ascii) i a,
  0 <= i → i + Z.of_nat n <= Z.of_nat (length buf) →
  0 <= a → a + Z.of_nat n <= sizeof_int * Z.of_nat (length v) →
  ∃ buf', strncpy_at buf i v a n = Some buf' ∧
          length buf' = length buf ∧
          ∀ j, j < i ∨ i + Z.of_nat n <= j → load buf' j = load buf j.
Proof.
  induction n as [|n IH]; intros buf i a Hi Hfit Ha Hsrc.
  - by exists buf.
  - cbn [strncpy_at].
    destruct (load_char_is_Some v a) as [ch Hch]; [lia|].
    rewrite Hch. simpl. rewrite store_Some by lia. simpl.
    destruct (Ascii.eqb ch NUL).
    + destruct (fill_nul_spec n (<[Z.to_nat i := ch]> buf) (i + 1))
        as (buf' & Hrun & Hlen & Hfr).
      { lia. } { rewrite length_insert. lia. }
      exists buf'. split; [done|]. split; [by rewrite Hlen, length_insert|].
      intros j Hj. rewrite Hfr by lia. apply load_insert_ne; lia.
    + destruct (IH (<[Z.to_nat i := ch]> buf) (i + 1) (a + 1))
        as (buf' & Hrun & Hlen & Hfr).
      { lia. } { rewrite length_insert. lia. } { lia. } { lia. }
      exists buf'. split; [done|]. split; [by rewrite Hlen, length_insert|].
      intros j Hj. rewrite Hfr by lia. apply load_insert_ne; lia.
Qed.

(** C5: let [C = icntr[11]] be the declared count and [B] the capacity.
    For [C < 0] GEname returns [-1].  For [C >= 0], when the output buffer
    has at least [B >= 0] characters and the [min C B] characters at the
    declared offset lie inside the vector, GEname returns [min C B]; it
    stores the terminating NUL at that index when [min C B < B], and
    otherwise leaves every position from that index on as it was: where
    the index did not hold NUL before, it holds NUL afterwards if and only
    if the returned count is less than [B]. *)
Theorem GEname_count icntr buf B C off :
  load icntr 11 = Some C →
  load icntr 10 = Some off →
  (C < 0 → GEname icntr buf B = Some (-1, buf)) ∧
  (0 <= C →
   0 <= B <= Z.of_nat (length buf) →
   1 <= off →
   (off - 1) * sizeof_int + Z.min C B <= sizeof_int * Z.of_nat (length icntr) →
   ∃ buf',
     GEname icntr buf B = Some (Z.min C B, buf') ∧
     length buf' = length buf ∧
     (Z.min C B < B → load buf' (Z.min C B) = Some NUL) ∧
     (B <= Z.min C B → ∀ j, Z.min C B <= j → load buf' j = load buf j) ∧
     (load buf (Z.min C B) ≠ Some NUL →
      (load buf' (Z.min C B) = Some NUL ↔ Z.min C B < B))).
Proof.
  intros HC Hoff. split.
  - intros Hneg. unfold GEname. rewrite HC. simpl.
    destruct (Z.ltb_spec C 0); [done|lia].
  - intros Hpos HB Hoff1 Hsrc. unfold GEname. rewrite HC. simpl.
    destruct (Z.ltb_spec C 0); [lia|].
    assert (Hmin : (if B <? C then B else C) = Z.min C B).
    { destruct (Z.ltb_spec B C); lia. }
    rewrite Hmin. set (n := Z.min C B) in *.
    rewrite Hoff. simpl. unfold strncpy.
    destruct (Z.leb_spec 0 n); [|lia].
    destruct (strncpy_at_spec icntr (Z.to_nat n) buf 0 ((off - 1) * sizeof_int))
      as (buf1 & Hrun & Hlen & Hfr); [lia | lia | unfold sizeof_int; lia | lia |].
    rewrite Hrun. simpl.
    destruct (Z.ltb_spec n B) as [Hlt|Hge].
    + rewrite store_Some by lia. simpl. eexists. split; [done|].
      split; [by rewrite length_insert|].
      assert (Hnul : load (<[Z.to_nat n := NUL]> buf1) n = Some NUL).
      { apply load_insert_eq. lia. }
      split; [done|]. split; [lia|]. intros _. by split.
    + exists buf1. split; [done|]. split; [done|]. split; [lia|].
      assert (Hkeep : ∀ j, n <= j → load buf1 j = load buf j).
      { intros j Hj. apply Hfr. lia. }
      split; [by intros _|]. intros Hnot. split; [|lia].
      rewrite Hkeep by lia. done.
Qed.

(** ** The example module *)

(** One step of the option monad, without unfolding integer tests. *)
Ltac bind_step := cbn [mbind option_bind negb].

Section DispatcherFacts.
Context `{Cmath double}.

Implicit Types (m : memory double) (x : list double).

Lemma log_written m line L s c :
  wf_icntr (m_icntr m) L s c → strlen line <= int_max →
  ∃ w' v' c',
    log m line = Some (with_icntr m w' v') ∧
    wf_icntr v' L s c' ∧
    c' = (if 0 <? L - (s + c + 1)
          then c + 2 + INTS (stored_length line (L - (s + c + 1))) else c) ∧
    (∀ i, i ≠ I_BufLen → i < s + c - 1 → load v' i = load (m_icntr m) i) ∧
    (load (m_icntr m) I_Debug = Some 0 → w' = m_sink m) ∧
    appended (m_icntr m) v' = written line TOLOG (L - (s + c + 1)).
Proof.
  intros Hwf Hlen.
  destruct (GEwrite_written _ L s c Hwf (m_sink m) line TOLOG)
    as (w' & v' & c' & Hrun & Hrest); [by vm_compute | done |].
  exists w', v', c'. split; [|done].
  unfold log, GElog. by rewrite Hrun.
Qed.

Lemma fixed_field v L s c i :
  wf_icntr v L s c → 0 <= i <= I_Debug → is_Some (load v i).
Proof.
  intros [] Hi. apply load_is_Some. unfold I_Debug in *. lia.
Qed.

(** C6 (amended): in Init mode on a well-formed control vector gefunc
    returns 0 if and only if the three counts of the host are 2, 4 and 4;
    otherwise it returns 2 and has passed exactly one line to the message
    packer, which appends exactly one record for the log when words
    remain behind the header and none when the buffer is full.  On a
    match the constant-derivative flag is 1 afterwards.  Neither output
    is touched. *)
Theorem gefunc_init m x L s c hneq hnvar hnz :
  wf_icntr (m_icntr m) L s c →
  load (m_icntr m) I_Mode = Some DOINIT →
  load (m_icntr m) I_Neq = Some hneq →
  load (m_icntr m) I_Nvar = Some hnvar →
  load (m_icntr m) I_Nz = Some hnz →
  ∃ rc m',
    gefunc m x = Some (rc, m') ∧
    (rc = 0 ↔ hneq = 2 ∧ hnvar = 4 ∧ hnz = 4) ∧
    (rc ≠ 0 →
     rc = 2 ∧
     ∃ line,
       line ∈ ["--- Number of equations do not match";
               "--- Number of variables do not match";
               "--- Number of differentibles do not match"]%string ∧
       appended (m_icntr m) (m_icntr m')
         = (if 0 <? L - (s + c + 1)
            then [(TOLOG, stored_text line (L - (s + c + 1)))] else [])) ∧
    (rc = 0 → load (m_icntr m') I_ConstDeriv = Some 1) ∧
    m_f m' = m_f m ∧ m_d m' = m_d m.
Proof.
  intros Hwf Hmode Hneq Hnvar Hnz.
  unfold gefunc. rewrite Hmode. bind_step.
  change (DOINIT =? DOINIT) with true. cbv iota. unfold do_init.
  rewrite Hneq. bind_step.
  destruct (Z.eqb_spec 2 hneq) as [<-|Hne1]; bind_step.
  2:{ destruct (log_written m "--- Number of equations do not match" L s c Hwf)
        as (w' & v' & c' & Hlog & _ & _ & _ & _ & Happ); [by vm_compute|].
      rewrite Hlog. bind_step. eexists _, _. split; [reflexivity|].
      split; [split; [done | lia]|]. split; [|done].
      intros _. split; [done|].
      exists "--- Number of equations do not match"%string. split; [|exact Happ].
      repeat constructor. }
  rewrite Hnvar. bind_step.
  destruct (Z.eqb_spec 4 hnvar) as [<-|Hne2]; bind_step.
  2:{ destruct (log_written m "--- Number of variables do not match" L s c Hwf)
        as (w' & v' & c' & Hlog & _ & _ & _ & _ & Happ); [by vm_compute|].
      rewrite Hlog. bind_step. eexists _, _. split; [reflexivity|].
      split; [split; [done | lia]|]. split; [|done].
      intros _. split; [done|].
      exists "--- Number of variables do not match"%string. split; [|exact Happ].
      repeat constructor. }
  rewrite Hnz. bind_step.
  destruct (Z.eqb_spec 4 hnz) as [<-|Hne3]; bind_step.
  2:{ destruct (log_written m "--- Number of differentibles do not match" L s c Hwf)
        as (w' & v' & c' & Hlog & _ & _ & _ & _ & Happ); [by vm_compute|].
      rewrite Hlog. bind_step. eexists _, _. split; [reflexivity|].
      split; [split; [done | lia]|]. split; [|done].
      intros _. split; [done|].
      exists "--- Number of differentibles do not match"%string. split; [|exact Happ].
      repeat constructor. }
  destruct (log_written m "--- Model has the correct size." L s c Hwf)
    as (w' & v' & c' & Hlog & Hwf' & _); [by vm_compute|].
  rewrite Hlog. bind_step.
  assert (Hin : 0 <= I_ConstDeriv < Z.of_nat (length v')).
  { destruct Hwf'. unfold I_ConstDeriv, I_Debug in *. lia. }
  rewrite store_Some by done. bind_step.
  eexists _, _. split; [reflexivity|]. split; [done|].
  split; [done|]. split; [|done].
  intros _. simpl. by apply load_insert_eq.
Qed.

(** The trace line of Evaluate mode, and the fields read after it. *)
Lemma eval_prelude m L s c i y :
  wf_icntr (m_icntr m) L s c →
  0 <= i < I_BufStrt →
  load (m_icntr m) i = Some y →
  ∀ w' v',
    (∀ j, j ≠ I_BufLen → j < s + c - 1 → load v' j = load (m_icntr m) j) →
    load (m_icntr (with_icntr m w' v')) i = Some y.
Proof.
  intros Hwf Hi Hy w' v' Hfr. simpl. rewrite Hfr; [done|..];
    destruct Hwf; unfold I_BufLen, I_BufStrt, I_Debug in *; lia.
Qed.

Lemma do_eval_bad_index m x L s c findex :
  wf_icntr (m_icntr m) L s c →
  load (m_icntr m) I_Eqno = Some findex →
  ¬ (1 <= findex <= 2) →
  ∃ m' c1,
    do_eval m x = Some (2, m') ∧
    m_f m' = m_f m ∧ m_d m' = m_d m ∧
    c1 = (if 0 <? L - (s + c + 1)
          then c + 2 + INTS (stored_length "--- Evaluation mode" (L - (s + c + 1)))
          else c) ∧
    appended (m_icntr m) (m_icntr m')
      = written "--- Evaluation mode" TOLOG (L - (s + c + 1))
          ++ written " ** fIndex has unexpected value." TOSTAT (L - (s + c1 + 1)).
Proof.
  intros Hwf Heq Hbad.
  destruct (GEwrite_twice_written (m_icntr m) L s c (m_sink m)
              "--- Evaluation mode" TOLOG
              " ** fIndex has unexpected value." TOSTAT Hwf)
    as (w1 & v1 & c1 & w2 & v2 & c2 & Hrun1 & Hrun2 & Hwf1 & Hwf2 & Hfr & _ & Happ);
    [by vm_compute..|].
  destruct (GEwrite_written (m_icntr m) L s c Hwf (m_sink m)
              "--- Evaluation mode" TOLOG)
    as (w1' & v1' & c1' & Hrun1' & Hwf1' & Hc1 & Hfr1 & _); [by vm_compute..|].
  assert (v1' = v1) by congruence. subst v1'.
  assert (c1' = c1) by (destruct Hwf1, Hwf1'; congruence). subst c1'.
  destruct (fixed_field _ L s c I_Dofunc Hwf) as [dofnc Hdofnc]; [by vm_compute|].
  destruct (fixed_field _ L s c I_Dodrv Hwf) as [dodrv Hdodrv]; [by vm_compute|].
  unfold do_eval, log, stat, GElog, GEstat.
  rewrite Hrun1. bind_step.
  rewrite (eval_prelude m L s c I_Eqno findex Hwf) by (done || by vm_compute).
  bind_step.
  rewrite (eval_prelude m L s c I_Dofunc dofnc Hwf) by (done || by vm_compute).
  bind_step.
  rewrite (eval_prelude m L s c I_Dodrv dodrv Hwf) by (done || by vm_compute).
  bind_step.
  assert (Hrange : (1 <=? findex) && (findex <=? 2) = false).
  { destruct (Z.leb_spec 1 findex), (Z.leb_spec findex 2); simpl; try done. lia. }
  rewrite Hrange. cbn [m_sink m_icntr with_icntr]. rewrite Hrun2. bind_step.
  eexists _, c1. split; [reflexivity|]. by repeat split.
Qed.

(** C4 (amended): in Evaluate mode with an equation index outside
    [[1, 2]] gefunc returns 2 and leaves both outputs alone.  It passes
    two lines to the message packer: the trace line of the mode, for the
    log, and then the diagnostic about the index, for the status
    destination only.  Each is appended as far as words remain; both
    records are whole exactly when at least 17 words are free, counted
    from the first free word to the end of the vector (7 for the trace
    record, 10 for the diagnostic).  The log receives no diagnostic about
    the index. *)
Theorem gefunc_eval_bad_index m x L s c findex :
  wf_icntr (m_icntr m) L s c →
  load (m_icntr m) I_Mode = Some DOEVAL →
  load (m_icntr m) I_Eqno = Some findex →
  ¬ (1 <= findex <= 2) →
  ∃ m' c1,
    gefunc m x = Some (2, m') ∧
    m_f m' = m_f m ∧ m_d m' = m_d m ∧
    c1 = (if 0 <? L - (s + c + 1)
          then c + 2 + INTS (stored_length "--- Evaluation mode" (L - (s + c + 1)))
          else c) ∧
    appended (m_icntr m) (m_icntr m')
      = written "--- Evaluation mode" TOLOG (L - (s + c + 1))
          ++ written " ** fIndex has unexpected value." TOSTAT (L - (s + c1 + 1)) ∧
    (appended (m_icntr m) (m_icntr m')
       = [(TOLOG, "--- Evaluation mode"%string);
          (TOSTAT, " ** fIndex has unexpected value."%string)]
     ↔ 17 <= L - first_free (m_icntr m)).
Proof.
  intros Hwf Hmode Heq Hbad.
  destruct (do_eval_bad_index m x L s c findex Hwf Heq Hbad)
    as (m' & c1 & Hrun & Hf & Hd & Hc1 & Happ).
  exists m', c1. unfold gefunc. rewrite Hmode. bind_step.
  change (DOEVAL =? DOINIT) with false. change (DOEVAL =? DOTERM) with false.
  change (DOEVAL =? DOEVAL) with true. cbv iota.
  split; [done|]. split; [done|]. split; [done|]. split; [done|].
  split; [done|].
  rewrite Happ, (first_free_wf (m_icntr m) L s c Hwf).
  pose proof (two_lines_whole "--- Evaluation mode" TOLOG
                " ** fIndex has unexpected value." TOSTAT L s c c1
                ltac:(by vm_compute) ltac:(by vm_compute) Hc1) as Hiff.
  assert (Hk : 2 + INTS (strlen "--- Evaluation mode")
               + (2 + INTS (strlen " ** fIndex has unexpected value.")) = 17)
    by (by vm_compute).
  rewrite Hk in Hiff. exact Hiff.
Qed.

(** C7: in Evaluate mode for equation 1 with "compute function" set and
    "compute derivatives" unset, gefunc returns 0, assigns
    [sin x[0] - x[2]] to the function value and leaves every entry of the
    derivative array as it was.  In the control vector only the buffer
    and its counter change, by the trace line of the mode. *)
Theorem gefunc_eval_function_only m x L s c dofnc (y0 y2 : double) :
  wf_icntr (m_icntr m) L s c →
  load (m_icntr m) I_Mode = Some DOEVAL →
  load (m_icntr m) I_Eqno = Some 1 →
  load (m_icntr m) I_Dofunc = Some dofnc →
  dofnc ≠ 0 →
  load (m_icntr m) I_Dodrv = Some 0 →
  load x 0 = Some y0 →
  load x 2 = Some y2 →
  ∃ m',
    gefunc m x = Some (0, m') ∧
    m_f m' = d_sub (d_sin y0) y2 ∧
    m_d m' = m_d m ∧
    (∀ i, i ≠ I_BufLen → i < s + c - 1 →
          load (m_icntr m') i = load (m_icntr m) i) ∧
    appended (m_icntr m) (m_icntr m')
      = written "--- Evaluation mode" TOLOG (L - (s + c + 1)).
Proof.
  intros Hwf Hmode Heq Hfn Hfn0 Hdrv Hx0 Hx2.
  destruct (log_written m "--- Evaluation mode" L s c Hwf)
    as (w' & v' & c' & Hlog & Hwf' & _ & Hfr & _ & Happ); [by vm_compute|].
  unfold gefunc. rewrite Hmode. bind_step.
  change (DOEVAL =? DOINIT) with false. change (DOEVAL =? DOTERM) with false.
  change (DOEVAL =? DOEVAL) with true. cbv iota.
  unfold do_eval. rewrite Hlog. bind_step.
  rewrite (eval_prelude m L s c I_Eqno 1 Hwf) by (done || by vm_compute).
  bind_step.
  rewrite (eval_prelude m L s c I_Dofunc dofnc Hwf) by (done || by vm_compute).
  bind_step.
  rewrite (eval_prelude m L s c I_Dodrv 0 Hwf) by (done || by vm_compute).
  bind_step.
  change ((1 <=? 1) && (1 <=? 2)) with true. cbv iota.
  destruct (Z.eqb_spec dofnc 0); [done|].
  unfold function_value. change (1 =? 1) with true. cbv iota.
  rewrite Hx0. bind_step. rewrite Hx2. bind_step.
  change (0 =? 0) with true. cbv iota. bind_step.
  eexists. split; [reflexivity|]. by repeat split.
Qed.

(** The outputs of an evaluation are a function of the equation index,
    the two flags, the variables and the incoming outputs. *)
Lemma do_eval_outputs m x L s c findex dofnc dodrv :
  wf_icntr (m_icntr m) L s c →
  load (m_icntr m) I_Eqno = Some findex →
  load (m_icntr m) I_Dofunc = Some dofnc →
  load (m_icntr m) I_Dodrv = Some dodrv →
  outputs <$> do_eval m x =
    if (1 <=? findex) && (findex <=? 2) then
      y ← (if dofnc =? 0 then Some (m_f m) else function_value x findex);
      d ← (if dodrv =? 0 then Some (m_d m) else derivatives (m_d m) x findex);
      Some (0, y, d)
    else Some (2, m_f m, m_d m).
Proof.
  intros Hwf Heq Hfn Hdrv.
  destruct ((1 <=? findex) && (findex <=? 2)) eqn:Hrange.
  - destruct (log_written m "--- Evaluation mode" L s c Hwf)
      as (w' & v' & c' & Hlog & Hwf' & _ & Hfr & _); [by vm_compute|].
    unfold do_eval. rewrite Hlog. bind_step.
    rewrite (eval_prelude m L s c I_Eqno findex Hwf) by (done || by vm_compute).
    bind_step.
    rewrite (eval_prelude m L s c I_Dofunc dofnc Hwf) by (done || by vm_compute).
    bind_step.
    rewrite (eval_prelude m L s c I_Dodrv dodrv Hwf) by (done || by vm_compute).
    bind_step. rewrite Hrange.
    destruct (dofnc =? 0); bind_step.
    + destruct (dodrv =? 0); bind_step; [done|].
      cbn [m_d with_icntr]. by destruct (derivatives _ _ _).
    + destruct (function_value x findex); bind_step; [|done].
      destruct (dodrv =? 0); bind_step; [done|].
      cbn [m_d with_icntr with_f]. by destruct (derivatives _ _ _).
  - destruct (do_eval_bad_index m x L s c findex Hwf Heq)
      as (m' & _ & Hrun & Hf & Hd & _).
    { intros [? ?]. destruct (Z.leb_spec 1 findex), (Z.leb_spec findex 2);
        simpl in Hrange; (done || lia). }
    rewrite Hrun. simpl. unfold outputs. simpl. by rewrite Hf, Hd.
Qed.

Lemma function_value_is_Some x findex :
  4 <= Z.of_nat (length x) → is_Some (function_value x findex).
Proof.
  intros Hx. unfold function_value.
  destruct (load_is_Some x 0) as [? H0]; [lia|].
  destruct (load_is_Some x 1) as [? H1]; [lia|].
  destruct (load_is_Some x 2) as [? H2]; [lia|].
  destruct (load_is_Some x 3) as [? H3]; [lia|].
  rewrite H0, H1, H2, H3. destruct (findex =? 1); by eexists.
Qed.

Lemma derivatives_is_Some (d : list double) x findex :
  4 <= Z.of_nat (length x) → 4 <= Z.of_nat (length d) →
  is_Some (derivatives d x findex).
Proof.
  intros Hx Hd. unfold derivatives.
  destruct (load_is_Some x 0) as [? H0]; [lia|].
  destruct (load_is_Some x 1) as [? H1]; [lia|].
  rewrite H0, H1.
  destruct (findex =? 1); bind_step;
    rewrite store_Some by lia; bind_step;
    apply store_is_Some; rewrite length_insert; lia.
Qed.

(** C8 (amended): two calls in Evaluate mode whose control vectors agree
    on the equation index and the two flags, with the same variable
    values and the same incoming function value and derivative array,
    return the same status, function value and derivative array (or
    fault alike), whatever the debug sink and the rest of the two control
    vectors hold; with four variables and four derivative entries the
    call does return. *)
Theorem gefunc_eval_deterministic m1 m2 x L1 s1 c1 L2 s2 c2 findex dofnc dodrv :
  wf_icntr (m_icntr m1) L1 s1 c1 →
  wf_icntr (m_icntr m2) L2 s2 c2 →
  load (m_icntr m1) I_Mode = Some DOEVAL →
  load (m_icntr m2) I_Mode = Some DOEVAL →
  load (m_icntr m1) I_Eqno = Some findex →
  load (m_icntr m2) I_Eqno = Some findex →
  load (m_icntr m1) I_Dofunc = Some dofnc →
  load (m_icntr m2) I_Dofunc = Some dofnc →
  load (m_icntr m1) I_Dodrv = Some dodrv →
  load (m_icntr m2) I_Dodrv = Some dodrv →
  m_f m1 = m_f m2 →
  m_d m1 = m_d m2 →
  outputs <$> gefunc m1 x = outputs <$> gefunc m2 x ∧
  (4 <= Z.of_nat (length x) → 4 <= Z.of_nat (length (m_d m1)) →
   is_Some (gefunc m1 x)).
Proof.
  intros Hwf1 Hwf2 Hmode1 Hmode2 Heq1 Heq2 Hfn1 Hfn2 Hdrv1 Hdrv2 Hf Hd.
  assert (Hrun : ∀ m, load (m_icntr m) I_Mode = Some DOEVAL →
                      gefunc m x = do_eval m x).
  { intros m Hmode. unfold gefunc. rewrite Hmode. done. }
  rewrite !Hrun by done. split.
  { rewrite (do_eval_outputs m1 x L1 s1 c1 findex dofnc dodrv) by done.
    rewrite (do_eval_outputs m2 x L2 s2 c2 findex dofnc dodrv) by done.
    by rewrite Hf, Hd. }
  intros Hx Hd4.
  assert (Hout : is_Some (outputs <$> do_eval m1 x)).
  { rewrite (do_eval_outputs m1 x L1 s1 c1 findex dofnc dodrv) by done.
    destruct (function_value_is_Some x findex Hx) as [y Hy].
    destruct (derivatives_is_Some (m_d m1) x findex Hx Hd4) as [d' Hd'].
    rewrite Hy, Hd'.
    destruct ((1 <=? findex) && (findex <=? 2)), (dofnc =? 0), (dodrv =? 0);
      by eexists. }
  destruct (do_eval m1 x); [by eexists | by destruct Hout].
Qed.

(** C10 (amended): in ConstantDerivative mode gefunc does not look at
    the range of the equation index: the outcome is that of the
    assignment of [-1.0] to [d[index + 1]], with status 0 and the
    function value untouched.  For a derivative array of four entries
    the assignment stays inside the array exactly for the indices from
    [-1] to [2], among them the valid indices 1 and 2, which set [d[2]]
    and [d[3]].  Evaluate mode answers every index outside [[1, 2]] with
    status 2. *)
Theorem gefunc_constderiv m x L s c findex :
  wf_icntr (m_icntr m) L s c →
  load (m_icntr m) I_Mode = Some DOCONSTDERIV →
  load (m_icntr m) I_Eqno = Some findex →
  outputs <$> gefunc m x
    = (λ d, (0, m_f m, d)) <$> store (m_d m) (findex +i 1) d_minus_one ∧
  (length (m_d m) = 4%nat →
   (is_Some (gefunc m x) ↔ -1 <= findex <= 2) ∧
   (1 <= findex <= 2 →
    outputs <$> gefunc m x
      = Some (0, m_f m, <[Z.to_nat (findex + 1) := d_minus_one]> (m_d m)))) ∧
  (¬ (1 <= findex <= 2) →
   ∀ m2 L2 s2 c2,
     wf_icntr (m_icntr m2) L2 s2 c2 →
     load (m_icntr m2) I_Mode = Some DOEVAL →
     load (m_icntr m2) I_Eqno = Some findex →
     fst <$> gefunc m2 x = Some 2).
Proof.
  intros Hwf Hmode Heq.
  destruct (log_written m "--- Constant derivative call" L s c Hwf)
    as (w' & v' & c' & Hlog & Hwf' & _ & Hfr & _); [by vm_compute|].
  assert (Hout : outputs <$> gefunc m x
            = (λ d, (0, m_f m, d)) <$> store (m_d m) (findex +i 1) d_minus_one).
  { unfold gefunc. rewrite Hmode. bind_step.
    change (DOCONSTDERIV =? DOINIT) with false.
    change (DOCONSTDERIV =? DOTERM) with false.
    change (DOCONSTDERIV =? DOEVAL) with false.
    change (DOCONSTDERIV =? DOCONSTDERIV) with true. cbv iota.
    unfold do_constderiv. rewrite Hlog. bind_step.
    rewrite (eval_prelude m L s c I_Eqno findex Hwf) by (done || by vm_compute).
    bind_step. cbn [m_d with_icntr].
    by destruct (store (m_d m) (findex +i 1) d_minus_one). }
  split; [done|]. split.
  - intros Hlen.
    pose proof (load_is_int _ _ _ (wf_words _ _ _ _ Hwf) Heq) as Hint.
    assert (Hwrap : findex < int_max → findex +i 1 = findex + 1).
    { intros Hlt. apply wrap_id. unfold is_int, int_min, int_max in *. lia. }
    assert (Hmax : findex = int_max → findex +i 1 = int_min)
      by (by intros ->).
    assert (Hsome : is_Some (gefunc m x)
                    ↔ is_Some (store (m_d m) (findex +i 1) d_minus_one)).
    { rewrite <- !fmap_is_Some with (f := outputs). rewrite Hout.
      by rewrite fmap_is_Some. }
    split.
    + rewrite Hsome, store_is_Some, Hlen.
      unfold is_int, int_min, int_max in *.
      destruct (decide (findex = 2 ^ 31 - 1)) as [Hm|Hm].
      * rewrite Hmax by done. lia.
      * rewrite Hwrap by lia. lia.
    + intros Hok. rewrite Hout, Hwrap by (unfold int_max; lia).
      rewrite store_Some by lia. done.
  - intros Hbad m2 L2 s2 c2 Hwf2 Hmode2 Heq2.
    destruct (do_eval_bad_index m2 x L2 s2 c2 findex Hwf2 Heq2 Hbad)
      as (m' & _ & Hrun & _).
    unfold gefunc. rewrite Hmode2. bind_step.
    change (DOEVAL =? DOINIT) with false. change (DOEVAL =? DOTERM) with false.
    change (DOEVAL =? DOEVAL) with true. cbv iota. by rewrite Hrun.
Qed.
End DispatcherFacts.

(** ** Runs on concrete inputs *)

(** The string extractor on a slot of five characters. *)
Example GEname_roomy :
  GEname name_icntr (replicate 8 "x"%char) 8
  = Some (5, list_ascii_of_string "hello" ++ [NUL; "x"%char; "x"%char]).
Proof. by vm_compute. Qed.

Example GEname_exact_fit :
  GEname name_icntr (replicate 5 "x"%char) 5
  = Some (5, list_ascii_of_string "hello").
Proof. by vm_compute. Qed.

Example GEname_short_buffer :
  GEname name_icntr (replicate 3 "x"%char) 3
  = Some (3, list_ascii_of_string "hel").
Proof. by vm_compute. Qed.

Lemma GEname_count_run :
  ∃ buf',
    GEname name_icntr (replicate 8 "x"%char) 8 = Some (Z.min 5 8, buf') ∧
    length buf' = length (replicate 8 "x"%char) ∧
    (Z.min 5 8 < 8 → load buf' (Z.min 5 8) = Some NUL) ∧
    (8 <= Z.min 5 8 →
     ∀ j, Z.min 5 8 <= j → load buf' j = load (replicate 8 "x"%char) j) ∧
    (load (replicate 8 "x"%char) (Z.min 5 8) ≠ Some NUL →
     (load buf' (Z.min 5 8) = Some NUL ↔ Z.min 5 8 < 8)).
Proof.
  apply (GEname_count name_icntr (replicate 8 "x"%char) 8 5 29).
  - reflexivity.
  - reflexivity.
  - lia.
  - vm_compute. split; congruence.
  - lia.
  - vm_compute. congruence.
Defined.

(** C4 (as stated) fails: for equation index 3 in Evaluate mode the call
    returns 2 and appends two records, the trace line for the log and the
    diagnostic for the status destination; no record for the log carries
    the diagnostic about the index. *)
Lemma gefunc_eval_diagnostic_not_logged :
  let v := eval_icntr 3 1 1 in
  wf_icntr v 64 30 0 ∧
  load v I_Mode = Some DOEVAL ∧ load v I_Eqno = Some 3 ∧
  ∃ m', gefunc (fresh v) point = Some (2, m') ∧
        appended v (m_icntr m')
          = [(TOLOG, "--- Evaluation mode"%string);
             (TOSTAT, " ** fIndex has unexpected value."%string)] ∧
        (TOLOG, " ** fIndex has unexpected value."%string)
          ∉ appended v (m_icntr m').
Proof.
  split; [closed_wf|]. split; [reflexivity|]. split; [reflexivity|].
  eexists. split; [vm_compute; reflexivity|].
  match goal with
  | |- ?a = ?b ∧ _ =>
      assert (Happ : a = b) by (by vm_compute); split; [exact Happ | rewrite Happ]
  end.
  intros Hin. apply elem_of_cons in Hin as [Heq|Hin]; [discriminate Heq|].
  apply elem_of_cons in Hin as [Heq|Hin]; [discriminate Heq|].
  by apply elem_of_nil in Hin.
Qed.

Lemma gefunc_eval_bad_index_run :
  ∃ m' c1,
    gefunc (fresh (eval_icntr 3 1 1)) point = Some (2, m') ∧
    m_f m' = m_f (fresh (eval_icntr 3 1 1)) ∧
    m_d m' = m_d (fresh (eval_icntr 3 1 1)) ∧
    c1 = (if 0 <? 64 - (30 + 0 + 1)
          then 0 + 2 + INTS (stored_length "--- Evaluation mode" (64 - (30 + 0 + 1)))
          else 0) ∧
    appended (m_icntr (fresh (eval_icntr 3 1 1))) (m_icntr m')
      = written "--- Evaluation mode" TOLOG (64 - (30 + 0 + 1))
          ++ written " ** fIndex has unexpected value." TOSTAT (64 - (30 + c1 + 1)) ∧
    (appended (m_icntr (fresh (eval_icntr 3 1 1))) (m_icntr m')
       = [(TOLOG, "--- Evaluation mode"%string);
          (TOSTAT, " ** fIndex has unexpected value."%string)]
     ↔ 17 <= 64 - first_free (m_icntr (fresh (eval_icntr 3 1 1)))).
Proof.
  apply (gefunc_eval_bad_index (fresh (eval_icntr 3 1 1)) point 64 30 0 3).
  - closed_wf.
  - reflexivity.
  - reflexivity.
  - lia.
Defined.

(** With exactly 16 free words (45 words, buffer start 30) the trace
    record is whole and the diagnostic is cut to 28 characters. *)
Example gefunc_eval_16_free_words_cut :
  let v := with_fields [(I_Mode, DOEVAL); (I_Eqno, 3)] (sample_icntr 45 30 0) in
  wf_icntr v 45 30 0 ∧
  45 - first_free v = 16 ∧
  ∃ m', gefunc (fresh v) point = Some (2, m') ∧
        appended v (m_icntr m')
          = [(TOLOG, "--- Evaluation mode"%string);
             (TOSTAT, " ** fIndex has unexpected va"%string)].
Proof.
  split; [closed_wf|]. split; [reflexivity|].
  eexists. split; [vm_compute; reflexivity|]. by vm_compute.
Qed.

(** C6 (as stated) fails on a full buffer: with 30 words and the buffer
    starting at word 29 no word remains behind a header; the equation
    count 3 does not match, the status is 2, and the vector is returned as
    it was, without any record. *)
Lemma gefunc_init_full_buffer_no_record :
  let v := init_icntr 30 29 3 4 4 in
  wf_icntr v 30 29 0 ∧
  load v I_Mode = Some DOINIT ∧ load v I_Neq = Some 3 ∧
  ∃ m', gefunc (fresh v) point = Some (2, m') ∧
        m_icntr m' = v ∧
        appended v (m_icntr m') = [].
Proof.
  split; [closed_wf|]. split; [reflexivity|]. split; [reflexivity|].
  eexists. split; [vm_compute; reflexivity|]. split; by vm_compute.
Qed.

Lemma gefunc_init_run :
  ∃ rc m',
    gefunc (fresh (init_icntr 64 30 2 5 4)) point = Some (rc, m') ∧
    (rc = 0 ↔ 2 = 2 ∧ 5 = 4 ∧ 4 = 4) ∧
    (rc ≠ 0 →
     rc = 2 ∧
     ∃ line,
       line ∈ ["--- Number of equations do not match";
               "--- Number of variables do not match";
               "--- Number of differentibles do not match"]%string ∧
       appended (m_icntr (fresh (init_icntr 64 30 2 5 4))) (m_icntr m')
         = (if 0 <? 64 - (30 + 0 + 1)
            then [(TOLOG, stored_text line (64 - (30 + 0 + 1)))] else [])) ∧
    (rc = 0 → load (m_icntr m') I_ConstDeriv = Some 1) ∧
    m_f m' = m_f (fresh (init_icntr 64 30 2 5 4)) ∧
    m_d m' = m_d (fresh (init_icntr 64 30 2 5 4)).
Proof.
  apply (gefunc_init (fresh (init_icntr 64 30 2 5 4)) point 64 30 0 2 5 4).
  - closed_wf.
  - reflexivity.
  - reflexivity.
  - reflexivity.
  - reflexivity.
Defined.

(** The scenario of the spec: two equations, four variables, matching
    counts. *)
Example gefunc_init_match :
  ∃ m', gefunc (fresh (init_icntr 64 30 2 4 4)) point = Some (0, m') ∧
        load (m_icntr m') I_ConstDeriv = Some 1 ∧
        appended (init_icntr 64 30 2 4 4) (m_icntr m')
          = [(TOLOG, "--- Model has the correct size."%string)].
Proof. eexists. split; [vm_compute; reflexivity|]. split; by vm_compute. Qed.

Lemma gefunc_eval_function_only_run :
  ∃ m',
    gefunc (fresh (eval_icntr 1 1 0)) point = Some (0, m') ∧
    m_f m' = d_sub (d_sin (Lit 10)) (Lit 12) ∧
    m_d m' = m_d (fresh (eval_icntr 1 1 0)) ∧
    (∀ i, i ≠ I_BufLen → i < 30 + 0 - 1 →
          load (m_icntr m') i = load (m_icntr (fresh (eval_icntr 1 1 0))) i) ∧
    appended (m_icntr (fresh (eval_icntr 1 1 0))) (m_icntr m')
      = written "--- Evaluation mode" TOLOG (64 - (30 + 0 + 1)).
Proof.
  apply (gefunc_eval_function_only (fresh (eval_icntr 1 1 0)) point 64 30 0 1
           (Lit 10) (Lit 12)).
  - closed_wf.
  - reflexivity.
  - reflexivity.
  - reflexivity.
  - lia.
  - reflexivity.
  - reflexivity.
  - reflexivity.
Defined.

(** C8 (as stated) fails: the derivative array after a call depends on
    what it held before.  Both evaluations of equation 1 below get the same
    control vector, sink, variables and function value; the second one
    follows an evaluation of equation 2 on the same derivative array, and
    the two arrays differ in the entries equation 1 does not assign. *)
Lemma gefunc_eval_outputs_depend_on_earlier_call :
  ∃ ma mb mc,
    gefunc (fresh (eval_icntr 2 1 1)) point = Some (0, ma) ∧
    gefunc (fresh (eval_icntr 1 1 1)) point = Some (0, mb) ∧
    gefunc (with_d (fresh (eval_icntr 1 1 1)) (m_d ma)) point = Some (0, mc) ∧
    m_f mb = m_f mc ∧
    m_d mb = [Cos (Lit 10); Lit 0; Lit (-1); Lit 0] ∧
    m_d mc = [Cos (Lit 10); Neg (Sin (Lit 11)); Lit (-1); Lit (-1)] ∧
    m_d mb ≠ m_d mc.
Proof.
  eexists _, _, _.
  split; [vm_compute; reflexivity|]. split; [vm_compute; reflexivity|].
  split; [vm_compute; reflexivity|].
  split; [reflexivity|]. split; [reflexivity|]. split; [reflexivity|].
  simpl. congruence.
Qed.

Lemma gefunc_eval_deterministic_run :
  outputs <$> gefunc (fresh (eval_icntr 1 1 1)) point
    = outputs <$> gefunc (Memory traced (busy_eval_icntr 1 1 1) (Lit 0)
                            (replicate 4 (Lit 0))) point ∧
  (4 <= Z.of_nat (length point) →
   4 <= Z.of_nat (length (m_d (fresh (eval_icntr 1 1 1)))) →
   is_Some (gefunc (fresh (eval_icntr 1 1 1)) point)).
Proof.
  apply (gefunc_eval_deterministic
           (fresh (eval_icntr 1 1 1))
           (Memory traced (busy_eval_icntr 1 1 1) (Lit 0) (replicate 4 (Lit 0)))
           point 64 30 0 48 33 5 1 1 1).
  - closed_wf.
  - closed_wf.
  - reflexivity.
  - reflexivity.
  - reflexivity.
  - reflexivity.
  - reflexivity.
  - reflexivity.
  - reflexivity.
  - reflexivity.
  - reflexivity.
  - reflexivity.
Defined.

(** C10 (as stated) fails in its "only": for the equation index 0, which
    is neither 1 nor 2, the call returns 0 and the write lands on [d[1]],
    inside the array of four entries. *)
Lemma gefunc_constderiv_index_0_inside :
  let v := constderiv_icntr 0 in
  wf_icntr v 64 30 0 ∧
  load v I_Mode = Some DOCONSTDERIV ∧ load v I_Eqno = Some 0 ∧
  ¬ (0 = 1 ∨ 0 = 2) ∧
  length (m_d (fresh v)) = 4%nat ∧
  ∃ m', gefunc (fresh v) point = Some (0, m') ∧
        m_d m' = [Lit 0; Lit (-1); Lit 0; Lit 0].
Proof.
  split; [closed_wf|]. split; [reflexivity|]. split; [reflexivity|].
  split; [lia|]. split; [reflexivity|].
  eexists. split; [vm_compute; reflexivity|]. reflexivity.
Qed.

Lemma gefunc_constderiv_run :
  outputs <$> gefunc (fresh (constderiv_icntr 2)) point
    = (λ d, (0, m_f (fresh (constderiv_icntr 2)), d))
        <$> store (m_d (fresh (constderiv_icntr 2))) (2 +i 1) d_minus_one ∧
  (length (m_d (fresh (constderiv_icntr 2))) = 4%nat →
   (is_Some (gefunc (fresh (constderiv_icntr 2)) point) ↔ -1 <= 2 <= 2) ∧
   (1 <= 2 <= 2 →
    outputs <$> gefunc (fresh (constderiv_icntr 2)) point
      = Some (0, m_f (fresh (constderiv_icntr 2)),
              <[Z.to_nat (2 + 1) := d_minus_one]>
                (m_d (fresh (constderiv_icntr 2)))))) ∧
  (¬ (1 <= 2 <= 2) →
   ∀ m2 L2 s2 c2,
     wf_icntr (m_icntr m2) L2 s2 c2 →
     load (m_icntr m2) I_Mode = Some DOEVAL →
     load (m_icntr m2) I_Eqno = Some 2 →
     fst <$> gefunc m2 point = Some 2).
Proof.
  apply (gefunc_constderiv (fresh (constderiv_icntr 2)) point 64 30 0 2).
  - closed_wf.
  - reflexivity.
  - reflexivity.
Defined.

(** An index beyond the array: the write of ConstantDerivative mode
    leaves [d[]], where Evaluate mode returns 2. *)
Example gefunc_constderiv_index_3_faults :
  gefunc (fresh (constderiv_icntr 3)) point = None ∧
  fst <$> gefunc (fresh (eval_icntr 3 1 1)) point = Some 2.
Proof. split; by vm_compute. Qed.

(** The scenario of the spec for the packer, by evaluation. *)
Example GEwrite_10_bytes :
  (snd <$> GEwrite quiet (sample_icntr 64 30 0) "0123456789" TOLOG) ≫=
     (λ v, load v I_BufLen) = Some 5.
Proof. by vm_compute. Qed.


(** * Further properties of the packer *)

(** X1: for a byte count [n] from 0 to [INT_MAX], [INTS n] words hold [n]
    bytes, at least one word is taken, and for [n >= 1] no smaller number
    of words holds them. *)
Theorem INTS_least n :
  0 <= n <= int_max →
  n <= INTS n * sizeof_int ∧
  1 <= INTS n ∧
  (1 <= n → ∀ k, n <= k * sizeof_int → INTS n <= k).
Proof.
  intros Hn. rewrite INTS_max by done.
  pose proof (ceil_div_bounds n ltac:(lia)) as Hb.
  unfold sizeof_int in *. split; [lia|]. split; [lia|].
  intros H1 k Hk. lia.
Qed.

Lemma INTS_least_run :
  10 <= INTS 10 * sizeof_int ∧
  1 <= INTS 10 ∧
  (1 <= 10 → ∀ k, 10 <= k * sizeof_int → INTS 10 <= k).
Proof.
  apply (INTS_least 10). vm_compute. split; congruence.
Defined.

(** X2: on a well-formed vector with room behind the header, GEwrite
    changes the counter and the words of the new record only: the length of
    the vector and every other word, the fixed part and the records stored
    before among them, are as they were. *)
Theorem GEwrite_frame w v L s c line mode :
  wf_icntr v L s c →
  strlen line <= int_max →
  0 < L - (s + c + 1) →
  ∃ w' v',
    GEwrite w v line mode = Some (w', v') ∧
    length v' = length v ∧
    ∀ i, i ≠ I_BufLen →
         i < s + c - 1 ∨
         s + c + 1 + INTS (stored_length line (L - (s + c + 1))) <= i →
         load v' i = load v i.
Proof.
  intros Hwf Hlen Hroom.
  destruct (wf_Debug v L s c Hwf) as [dbg Hdbg].
  destruct (GEwrite_room v L s c Hwf w line mode dbg Hdbg Hlen Hroom)
    as (v' & Hrun & Hlen' & _ & _ & _ & _ & Hframe & _).
  eauto.
Qed.

Lemma GEwrite_frame_run :
  ∃ w' v',
    GEwrite quiet (sample_icntr 64 30 0) "0123456789" TOLOG = Some (w', v') ∧
    length v' = length (sample_icntr 64 30 0) ∧
    ∀ i, i ≠ I_BufLen →
         i < 30 + 0 - 1 ∨
         30 + 0 + 1 + INTS (stored_length "0123456789" (64 - (30 + 0 + 1))) <= i →
         load v' i = load (sample_icntr 64 30 0) i.
Proof.
  apply (GEwrite_frame quiet (sample_icntr 64 30 0) 64 30 0 "0123456789" TOLOG).
  - closed_wf.
  - vm_compute. congruence.
  - lia.
Defined.

(** X3: on a well-formed vector GEwrite always returns; the vector stays
    well formed with the same length and buffer start, the fixed part
    before [I_BufStrt] is untouched, and the counter does not decrease,
    grows by at most [2 + 64] words and never passes the end of the
    vector. *)
Theorem GEwrite_keeps_wf w v L s c line mode :
  wf_icntr v L s c →
  is_int mode →
  strlen line <= int_max →
  ∃ w' v' c',
    GEwrite w v line mode = Some (w', v') ∧
    wf_icntr v' L s c' ∧
    c <= c' <= c + 66 ∧
    s + c' <= L + 1 ∧
    ∀ i, 0 <= i < I_BufStrt → load v' i = load v i.
Proof.
  intros Hwf Hmode Hlen.
  destruct (GEwrite_written v L s c Hwf w line mode Hmode Hlen)
    as (w' & v' & c' & Hrun & Hwf' & Hc' & Hfr & _).
  exists w', v', c'. split; [done|]. split; [done|].
  pose proof (wf_buffer _ _ _ _ Hwf) as Hbuf.
  pose proof (wf_used _ _ _ _ Hwf) as Hused.
  split; [|split; [by destruct Hwf'|]].
  - destruct (Z.ltb_spec 0 (L - (s + c + 1))) as [Hroom|]; [|lia].
    pose proof (stored_length_range line _ Hroom) as (Hn & _ & _).
    rewrite INTS_max in Hc' by (unfold int_max; lia).
    pose proof (ceil_div_bounds _ (proj1 Hn)). unfold sizeof_int in *. lia.
  - intros i Hi. apply Hfr; unfold I_BufLen, I_BufStrt, I_Debug in *; lia.
Qed.

Lemma GEwrite_keeps_wf_run :
  ∃ w' v' c',
    GEwrite quiet (sample_icntr 64 30 0) "0123456789" TOLOG = Some (w', v') ∧
    wf_icntr v' 64 30 c' ∧
    0 <= c' <= 0 + 66 ∧
    30 + c' <= 64 + 1 ∧
    ∀ i, 0 <= i < I_BufStrt → load v' i = load (sample_icntr 64 30 0) i.
Proof.
  apply (GEwrite_keeps_wf quiet (sample_icntr 64 30 0) 64 30 0 "0123456789" TOLOG).
  - closed_wf.
  - vm_compute. split; congruence.
  - vm_compute. congruence.
Defined.

(** ** Draining the buffer *)

Lemma record_words v pos n :
  Forall is_int v → load v pos = Some n → 0 <= n →
  1 <= INTS n ∧ n <= INTS n * sizeof_int.
Proof.
  intros Hint Hn H0. pose proof (load_is_int _ _ _ Hint Hn) as [_ Hmax].
  rewrite INTS_max by lia. pose proof (ceil_div_bounds n H0).
  unfold sizeof_int in *. lia.
Qed.

Lemma tiled_le v pos stop recs :
  Forall is_int v → tiled v pos stop recs →
  pos + 3 * Z.of_nat (length recs) <= stop.
Proof.
  intros Hint Ht. induction Ht as [pos|pos stop n dest cs recs Hn Hd H0 Hcs Ht IH].
  - simpl. lia.
  - destruct (record_words v pos n Hint Hn H0). cbn [length]. lia.
Qed.

Lemma tiled_records_from v pos stop recs :
  Forall is_int v → tiled v pos stop recs →
  ∀ fuel, (length recs <= fuel)%nat → records_from fuel v pos stop = recs.
Proof.
  intros Hint Ht. induction Ht as [pos|pos stop n dest cs recs Hn Hd H0 Hcs Ht IH];
    intros fuel Hfuel.
  - apply records_from_done. lia.
  - pose proof (tiled_le _ _ _ _ Hint Ht) as Hle.
    destruct (record_words v pos n Hint Hn H0).
    cbn [length] in Hfuel.
    rewrite (records_from_step fuel v pos stop n dest cs); [|lia|lia|done..].
    f_equal. apply IH. lia.
Qed.

Lemma tiled_frame v v' pos stop recs :
  Forall is_int v → tiled v pos stop recs →
  (∀ i, pos <= i < stop → load v' i = load v i) →
  tiled v' pos stop recs.
Proof.
  intros Hint Ht. induction Ht as [pos|pos stop n dest cs recs Hn Hd H0 Hcs Ht IH];
    intros Hsame.
  - constructor.
  - pose proof (tiled_le _ _ _ _ Hint Ht) as Hle.
    destruct (record_words v pos n Hint Hn H0).
    apply tiled_cons with (n := n).
    + rewrite Hsame by lia. done.
    + rewrite Hsame by lia. done.
    + done.
    + rewrite <- Hcs. apply load_chars_words.
      intros i Hlo Hhi. apply Hsame. unfold sizeof_int in *. lia.
    + apply IH. intros i Hi. apply Hsame. lia.
Qed.

Lemma tiled_app v pos mid stop r1 r2 :
  tiled v pos mid r1 → tiled v mid stop r2 → tiled v pos stop (r1 ++ r2).
Proof.
  intros Ht1 Ht2. induction Ht1; [done|].
  simpl. eapply tiled_cons; eauto.
Qed.

(** X4: when the words in use of a well-formed vector hold the records
    [recs], then after GEwrite they hold [recs] followed by what the call
    writes (one record, cut to the room there is, or nothing), and
    reading the buffer from its start to the first free word returns
    exactly this list. *)
Theorem GEwrite_appends_record w v L s c recs line mode :
  wf_icntr v L s c →
  tiled v (s - 1) (s + c - 1) recs →
  is_int mode →
  strlen line <= int_max →
  ∃ w' v' c',
    GEwrite w v line mode = Some (w', v') ∧
    wf_icntr v' L s c' ∧
    tiled v' (s - 1) (s + c' - 1) (recs ++ written line mode (L - (s + c + 1))) ∧
    records v' = recs ++ written line mode (L - (s + c + 1)).
Proof.
  intros Hwf Ht Hmode Hlen.
  destruct (wf_Debug v L s c Hwf) as [dbg Hdbg].
  pose proof (wf_buffer _ _ _ _ Hwf) as Hbuf.
  pose proof (wf_used _ _ _ _ Hwf) as Hused.
  pose proof (wf_words _ _ _ _ Hwf) as Hint.
  assert (Hgoal : ∃ w' v' c',
            GEwrite w v line mode = Some (w', v') ∧
            wf_icntr v' L s c' ∧
            tiled v' (s - 1) (s + c' - 1)
              (recs ++ written line mode (L - (s + c + 1)))).
  { unfold written.
    destruct (Z.ltb_spec 0 (L - (s + c + 1))) as [Hroom|Hfull].
    - destruct (GEwrite_room v L s c Hwf w line mode dbg Hdbg Hlen Hroom)
        as (v' & Hrun & _ & _ & Hhd & Hdest & Hcnt & Hframe & Hread).
      destruct (GEwrite_wf v L s c Hwf w line mode _ _ Hmode Hlen Hrun)
        as (c' & Hwf' & _).
      pose proof (stored_length_range line _ Hroom) as (Hn & _ & _).
      set (n := stored_length line (L - (s + c + 1))) in *.
      assert (Hc' : c' = c + 2 + INTS n) by (destruct Hwf'; congruence).
      exists (mirrored w dbg line mode), v', c'.
      split; [done|]. split; [done|].
      apply tiled_app with (mid := s + c - 1).
      + apply (tiled_frame v); [done..|].
        intros i Hi. apply Hframe; unfold I_BufLen, I_Debug in *; lia.
      + apply tiled_cons with (n := n); [done | | lia | |].
        * by replace (s + c - 1 + 1) with (s + c) by lia.
        * by replace (s + c - 1 + 2) with (s + c + 1) by lia.
        * replace (s + c - 1 + 2 + INTS n) with (s + c' - 1) by lia.
          constructor.
    - rewrite (GEwrite_no_room v L s c Hwf w line mode dbg Hdbg Hfull).
      exists (mirrored w dbg line mode), v, c.
      split; [done|]. split; [done|]. by rewrite app_nil_r. }
  destruct Hgoal as (w' & v' & c' & Hrun & Hwf' & Ht').
  exists w', v', c'. split; [done|]. split; [done|]. split; [done|].
  pose proof (tiled_le _ _ _ _ (wf_words _ _ _ _ Hwf') Ht') as Hle.
  unfold records, first_free, field.
  rewrite (wf_BufStrt _ _ _ _ Hwf'), (wf_BufLen _ _ _ _ Hwf'). simpl.
  apply (tiled_records_from v'); [by destruct Hwf' | done | lia].
Qed.

(** A second record behind the one the buffer holds. *)
Lemma GEwrite_appends_record_run :
  ∃ w' v' c',
    GEwrite quiet one_record_icntr "0123456789" TOLOG = Some (w', v') ∧
    wf_icntr v' 64 30 c' ∧
    tiled v' (30 - 1) (30 + c' - 1)
      ([(TOSTAT, "hello"%string)]
         ++ written "0123456789" TOLOG (64 - (30 + 4 + 1))) ∧
    records v' = [(TOSTAT, "hello"%string)]
                   ++ written "0123456789" TOLOG (64 - (30 + 4 + 1)).
Proof.
  apply (GEwrite_appends_record quiet one_record_icntr 64 30 4
           [(TOSTAT, "hello"%string)] "0123456789" TOLOG).
  - closed_wf.
  - apply (tiled_cons one_record_icntr 29 33 5 TOSTAT
             (list_ascii_of_string "hello") []).
    + reflexivity.
    + reflexivity.
    + lia.
    + vm_compute. reflexivity.
    + apply (tiled_nil one_record_icntr 33).
  - vm_compute. split; congruence.
  - vm_compute. congruence.
Defined.

Lemma c_chars_no_nul line :
  NUL ∉ list_ascii_of_string line → c_chars line = list_ascii_of_string line.
Proof.
  induction line as [|ch line IH]; [done|]. cbn [c_chars list_ascii_of_string].
  intros Hnot. apply not_elem_of_cons in Hnot as [Hne Hnot].
  destruct (Ascii.eqb_spec ch NUL) as [->|_]; [done|]. by rewrite IH.
Qed.

(** X5: a line without NUL of at most 256 bytes whose words fit behind
    the header comes back unchanged: the records GEwrite appended, read
    from the vector, are the one pair of the destination and the line. *)
Theorem GEwrite_roundtrip w v L s c line mode :
  wf_icntr v L s c →
  is_int mode →
  NUL ∉ list_ascii_of_string line →
  strlen line <= 256 →
  0 < L - (s + c + 1) →
  ceil_div (strlen line) sizeof_int <= L - (s + c + 1) →
  ∃ w' v', GEwrite w v line mode = Some (w', v') ∧
           appended v v' = [(mode, line)].
Proof.
  intros Hwf Hmode Hnul Hlen Hroom Hfit.
  destruct (GEwrite_written v L s c Hwf w line mode Hmode)
    as (w' & v' & c' & Hrun & _ & _ & _ & _ & Happ); [unfold int_max; lia|].
  exists w', v'. split; [done|]. rewrite Happ.
  destruct (written_whole line mode (L - (s + c + 1)) Hlen Hfit Hroom) as [-> _].
  unfold c_string. by rewrite c_chars_no_nul, string_of_list_ascii_of_string.
Qed.

Lemma GEwrite_roundtrip_run :
  ∃ w' v', GEwrite quiet (sample_icntr 64 30 0) "0123456789" TOSTAT = Some (w', v') ∧
           appended (sample_icntr 64 30 0) v' = [(TOSTAT, "0123456789"%string)].
Proof.
  apply (GEwrite_roundtrip quiet (sample_icntr 64 30 0) 64 30 0 "0123456789" TOSTAT).
  - closed_wf.
  - vm_compute. split; congruence.
  - vm_compute. intros Hin. repeat (apply elem_of_cons in Hin as [Heq|Hin]; [discriminate Heq|]).
    by apply elem_of_nil in Hin.
  - vm_compute. congruence.
  - lia.
  - vm_compute. congruence.
Defined.

(** ** Cut records *)

(** X6: when fewer words remain behind the header than the line (capped at
    256 bytes) needs, GEwrite stores the first [r * wordSize] characters,
    advances the counter by [2 + r], and the first free word is then the
    end of the vector: every later call leaves the vector as it is. *)
Theorem GEwrite_cut_to_room w v L s c line mode :
  wf_icntr v L s c →
  is_int mode →
  strlen line <= int_max →
  0 < L - (s + c + 1) →
  L - (s + c + 1) < ceil_div (Z.min (strlen line) 256) sizeof_int →
  ∃ w' v',
    GEwrite w v line mode = Some (w', v') ∧
    appended v v'
      = [(mode, string_of_list_ascii
                  (take (Z.to_nat ((L - (s + c + 1)) * sizeof_int)) (c_chars line)))] ∧
    load v' I_BufLen = Some (c + 2 + (L - (s + c + 1))) ∧
    first_free v' = L ∧
    ∀ w2 line2 mode2, ∃ w3, GEwrite w2 v' line2 mode2 = Some (w3, v').
Proof.
  intros Hwf Hmode Hlen Hroom Hshort.
  destruct (GEwrite_written v L s c Hwf w line mode Hmode Hlen)
    as (w' & v' & c' & Hrun & Hwf' & Hc' & _ & _ & Happ).
  assert (Hn : stored_length line (L - (s + c + 1)) = (L - (s + c + 1)) * sizeof_int).
  { unfold stored_length.
    destruct (Z.leb_spec (ceil_div (Z.min (strlen line) 256) sizeof_int)
                (L - (s + c + 1))); [lia|done]. }
  assert (Hw : INTS ((L - (s + c + 1)) * sizeof_int) = L - (s + c + 1)).
  { pose proof (INTS_stored_length line _ Hroom) as Hle. rewrite Hn in Hle.
    pose proof (stored_length_range line _ Hroom) as (Hr & _ & _). rewrite Hn in Hr.
    rewrite INTS_max in * by (unfold int_max, sizeof_int in *; lia).
    pose proof (ceil_div_bounds ((L - (s + c + 1)) * sizeof_int) ltac:(lia)).
    unfold sizeof_int in *. lia. }
  destruct (Z.ltb_spec 0 (L - (s + c + 1))); [|lia].
  rewrite Hn, Hw in Hc'.
  exists w', v'. split; [done|]. split.
  { rewrite Happ. unfold written, stored_text.
    destruct (Z.ltb_spec 0 (L - (s + c + 1))); [|lia]. by rewrite Hn. }
  split; [destruct Hwf'; congruence|]. split.
  { rewrite (first_free_wf v' L s c' Hwf'). lia. }
  intros w2 line2 mode2.
  destruct (wf_Debug v' L s c' Hwf') as [dbg' Hdbg'].
  exists (mirrored w2 dbg' line2 mode2).
  apply (GEwrite_no_room v' L s c' Hwf'); [done|lia].
Qed.

Lemma GEwrite_cut_to_room_run :
  ∃ w' v',
    GEwrite quiet (sample_icntr 34 30 0) "--- Evaluation mode" TOLOG = Some (w', v') ∧
    appended (sample_icntr 34 30 0) v'
      = [(TOLOG, string_of_list_ascii
                   (take (Z.to_nat ((34 - (30 + 0 + 1)) * sizeof_int))
                      (c_chars "--- Evaluation mode")))] ∧
    load v' I_BufLen = Some (0 + 2 + (34 - (30 + 0 + 1))) ∧
    first_free v' = 34 ∧
    ∀ w2 line2 mode2, ∃ w3, GEwrite w2 v' line2 mode2 = Some (w3, v').
Proof.
  apply (GEwrite_cut_to_room quiet (sample_icntr 34 30 0) 34 30 0
           "--- Evaluation mode" TOLOG).
  - closed_wf.
  - vm_compute. split; congruence.
  - vm_compute. congruence.
  - lia.
  - vm_compute. reflexivity.
Defined.

(** X7: a line longer than 256 bytes with at least 64 words behind the
    header is stored as its first 256 characters, in a record of
    [2 + 64] words. *)
Theorem GEwrite_caps_long_line w v L s c line mode :
  wf_icntr v L s c →
  is_int mode →
  256 < strlen line <= int_max →
  64 <= L - (s + c + 1) →
  ∃ w' v',
    GEwrite w v line mode = Some (w', v') ∧
    appended v v' = [(mode, string_of_list_ascii (take 256 (c_chars line)))] ∧
    load v' I_BufLen = Some (c + 66).
Proof.
  intros Hwf Hmode Hlen Hroom.
  destruct (GEwrite_written v L s c Hwf w line mode Hmode)
    as (w' & v' & c' & Hrun & Hwf' & Hc' & _ & _ & Happ); [lia|].
  assert (Hn : stored_length line (L - (s + c + 1)) = 256).
  { unfold stored_length. rewrite Z.min_r by lia.
    change (ceil_div 256 sizeof_int) with 64.
    destruct (Z.leb_spec 64 (L - (s + c + 1))); [done|lia]. }
  destruct (Z.ltb_spec 0 (L - (s + c + 1))); [|lia].
  rewrite Hn in Hc'. change (INTS 256) with 64 in Hc'.
  exists w', v'. split; [done|]. split.
  - rewrite Happ. unfold written, stored_text.
    destruct (Z.ltb_spec 0 (L - (s + c + 1))); [|lia]. by rewrite Hn.
  - destruct Hwf'. rewrite wf_BufLen0. f_equal. lia.
Qed.

(** ** The debug sink *)

Lemma GEwrite_vector_any_sink w1 w2 v line mode :
  snd <$> GEwrite w1 v line mode = snd <$> GEwrite w2 v line mode.
Proof.
  unfold GEwrite.
  destruct (load v I_Debug); [|done]. bind_step.
  destruct (load v I_BufStrt); [|done]. bind_step.
  destruct (load v I_BufLen); [|done]. bind_step.
  destruct (load v I_Length); [|done]. bind_step.
  destruct (_ <=? 0); [done|].
  destruct (memcpy _ _ _ _) as [v1|]; [|done]. bind_step.
  destruct (store v1 _ _) as [v2|]; [|done]. bind_step.
  destruct (store v2 _ _) as [v3|]; [|done]. bind_step.
  destruct (load v3 I_BufLen); [|done]. bind_step.
  by destruct (store v3 _ _).
Qed.

Lemma GEwrite_sink w v L s c dbg line mode :
  wf_icntr v L s c →
  load v I_Debug = Some dbg →
  strlen line <= int_max →
  ∃ v', GEwrite w v line mode = Some (mirrored w dbg line mode, v').
Proof.
  intros Hwf Hdbg Hlen.
  destruct (Z.le_gt_cases (L - (s + c + 1)) 0) as [Hfull|Hroom].
  - exists v. by apply (GEwrite_no_room v L s c).
  - destruct (GEwrite_room v L s c Hwf w line mode dbg Hdbg Hlen)
      as (v' & Hrun & _); [lia|]. by exists v'.
Qed.

(** X8: with the debug flag set and the debug file open or creatable,
    every call adds the whole line to the file, behind the prefix of its
    destination (nothing for a destination other than status and log),
    whether or not the buffer has room for the record; the file stays
    open and nothing goes to standard output. *)
Theorem GEwrite_debug_mirror w v L s c dbg line mode f :
  wf_icntr v L s c →
  load v I_Debug = Some dbg →
  dbg ≠ 0 →
  strlen line <= int_max →
  fpDebug w = Some f ∨ (fpDebug w = None ∧ can_create w = true ∧ f = []) →
  ∃ v', GEwrite w v line mode
          = Some (Sink (Some (f ++ debug_line line mode)) (can_create w) (stdout w), v').
Proof.
  intros Hwf Hdbg Hon Hlen Hfile.
  destruct (GEwrite_sink w v L s c dbg line mode Hwf Hdbg Hlen) as [v' Hrun].
  exists v'. rewrite Hrun. do 2 f_equal.
  unfold mirrored. destruct (Z.eqb_spec dbg 0); [done|].
  unfold debug_trace, debug_line.
  assert (Hfp : match fpDebug w with
                | Some f0 => Some f0
                | None => if can_create w then Some [] else None
                end = Some f).
  { destruct Hfile as [->|(-> & -> & ->)]; done. }
  rewrite Hfp.
  destruct (Z.eqb_spec mode TOSTAT) as [->|]; [by rewrite <- app_assoc|].
  destruct (mode =? TOLOG); [done|]. by rewrite app_nil_r.
Qed.

Lemma sample_debug_wf :
  wf_icntr (with_fields [(I_Debug, 1)] (sample_icntr 30 29 0)) 30 29 0.
Proof. closed_wf. Qed.

(** The buffer is full, the line reaches the debug file all the same. *)
Lemma GEwrite_debug_mirror_run :
  ∃ v', GEwrite traced (with_fields [(I_Debug, 1)] (sample_icntr 30 29 0))
          "--- Evaluation mode" TOLOG
          = Some (Sink (Some ([" Log: --- Terminating"%string]
                                ++ debug_line "--- Evaluation mode" TOLOG))
                    (can_create traced) (stdout traced), v').
Proof.
  apply (GEwrite_debug_mirror traced
           (with_fields [(I_Debug, 1)] (sample_icntr 30 29 0)) 30 29 0 1
           "--- Evaluation mode" TOLOG).
  - closed_wf.
  - reflexivity.
  - lia.
  - vm_compute. congruence.
  - left. reflexivity.
Defined.

(** ** The debug flag and the packing *)

Lemma store_insert_ne {A} (v : list A) j (y : A) i x :
  0 <= j → i ≠ j →
  store (<[Z.to_nat j := y]> v) i x
  = (λ v', <[Z.to_nat j := y]> v') <$> store v i x.
Proof.
  intros Hj Hne. unfold store. rewrite length_insert.
  destruct (Z.leb_spec 0 i); [|done].
  destruct (i <? Z.of_nat (length v)); [|done].
  cbn [andb fmap option_fmap option_map]. f_equal.
  apply list_insert_insert_ne. lia.
Qed.

Lemma store_char_insert_ne v j y a ch :
  0 <= j → a / sizeof_int ≠ j →
  store_char (<[Z.to_nat j := y]> v) a ch
  = (λ v', <[Z.to_nat j := y]> v') <$> store_char v a ch.
Proof.
  intros Hj Hne. unfold store_char.
  rewrite load_insert_ne by done.
  destruct (load v (a / sizeof_int)) as [w|]; [|done]. bind_step.
  by apply store_insert_ne.
Qed.

Lemma store_chars_insert_ne j y cs : ∀ v a,
  0 <= j → (j + 1) * sizeof_int <= a →
  store_chars (<[Z.to_nat j := y]> v) a cs
  = (λ v', <[Z.to_nat j := y]> v') <$> store_chars v a cs.
Proof.
  induction cs as [|ch cs IH]; intros v a Hj Ha; [done|].
  cbn [store_chars].
  rewrite store_char_insert_ne; [|done|].
  - destruct (store_char v a ch) as [v1|]; [|done].
    cbn [fmap option_fmap option_map mbind option_bind].
    apply IH; [done|lia].
  - assert (j + 1 <= a / sizeof_int); [|lia].
    apply Z.div_le_lower_bound; unfold sizeof_int in *; lia.
Qed.

(** The sink a call leaves is the mirror of the flag it reads. *)
Lemma GEwrite_sink_inv w v line mode dbg w' v' :
  load v I_Debug = Some dbg →
  GEwrite w v line mode = Some (w', v') →
  w' = mirrored w dbg line mode.
Proof.
  intros Hdbg. unfold GEwrite. rewrite Hdbg. bind_step.
  destruct (load v I_BufStrt); [|done]. bind_step.
  destruct (load v I_BufLen); [|done]. bind_step.
  destruct (load v I_Length); [|done]. bind_step.
  destruct (_ <=? 0); [by intros [= <- _]|].
  destruct (memcpy _ _ _ _) as [v1|]; [|done]. bind_step.
  destruct (store v1 _ _) as [v2|]; [|done]. bind_step.
  destruct (store v2 _ _) as [v3|]; [|done]. bind_step.
  destruct (load v3 I_BufLen); [|done]. bind_step.
  destruct (store v3 _ _); [|done]. bind_step. by intros [= <- _].
Qed.

(** The packing does not look at the debug flag: with another value in
    the flag word the call leaves the same vector, but for that word. *)
Lemma GEwrite_flag_word w1 w2 v L s c line mode d :
  wf_icntr v L s c →
  snd <$> GEwrite w1 (<[Z.to_nat I_Debug := d]> v) line mode
  = (λ v', <[Z.to_nat I_Debug := d]> v') <$> (snd <$> GEwrite w2 v line mode).
Proof.
  intros Hwf.
  destruct (wf_Debug v L s c Hwf) as (dbg & Hdbg).
  pose proof (startMsg_eq v L s c Hwf) as Hstart.
  pose proof (ints2write_eq v L s c Hwf) as Hints.
  destruct (wf_ranges v L s c Hwf) as (HiL & His & Hic & HL0).
  pose proof Hwf as [_ Hact HL Hs Hc Hfix Hsize Hbuf Hused Hins].
  assert (Hflag : 0 <= I_Debug) by (by vm_compute).
  assert (Hk2 : s + c + 1 -i 2 = s + c - 1).
  { unfold isub. replace (s + c + 1 - 2) with (s + c - 1) by lia.
    apply wrap_id. unfold is_int, int_min, int_max, I_Debug in *. lia. }
  assert (Hk1 : s + c + 1 -i 1 = s + c).
  { unfold isub. replace (s + c + 1 - 1) with (s + c) by lia.
    apply wrap_id. unfold is_int, int_min, int_max, I_Debug in *. lia. }
  unfold GEwrite.
  rewrite load_insert_eq by (unfold I_Debug in *; lia).
  rewrite !load_insert_ne by (by vm_compute).
  rewrite Hdbg, Hs, Hc, HL. bind_step. rewrite Hstart, Hints, Hk1, Hk2.
  destruct (L - (s + c + 1) <=? 0); [done|].
  set (n := if L - (s + c + 1) <? INTS _ then _ else _).
  unfold memcpy. destruct ((0 <=? n) && (n <=? strlen line)); [|done].
  rewrite store_chars_insert_ne
    by (unfold I_Debug, sizeof_int in *; lia).
  destruct (store_chars v _ _) as [v1|]; [|done].
  cbn [fmap option_fmap option_map mbind option_bind].
  rewrite store_insert_ne by (unfold I_Debug in *; lia).
  destruct (store v1 (s + c - 1) n) as [v2|]; [|done].
  cbn [fmap option_fmap option_map mbind option_bind].
  rewrite store_insert_ne by (unfold I_Debug in *; lia).
  destruct (store v2 (s + c) mode) as [v3|]; [|done].
  cbn [fmap option_fmap option_map mbind option_bind].
  rewrite load_insert_ne by (by vm_compute).
  destruct (load v3 I_BufLen) as [used|]; [|done].
  cbn [fmap option_fmap option_map mbind option_bind].
  rewrite store_insert_ne by (by vm_compute).
  by destruct (store v3 I_BufLen _).
Qed.

(** X9: with the debug flag set, the file closed and not creatable, a call
    reports [Can't create debugext.txt] on standard output, leaves the
    file closed, and packs the record exactly as a call without debugging
    does: the call on the same vector with the flag cleared leaves its
    sink alone, and the two vectors that result are the same but for the
    flag word. *)
Theorem GEwrite_debug_unavailable w v L s c dbg line mode :
  wf_icntr v L s c →
  load v I_Debug = Some dbg →
  dbg ≠ 0 →
  strlen line <= int_max →
  fpDebug w = None →
  can_create w = false →
  ∃ v' v0,
    GEwrite w v line mode
      = Some (Sink None false (stdout w ++ ["Can't create debugext.txt"%string]), v') ∧
    GEwrite w (<[Z.to_nat I_Debug := 0]> v) line mode = Some (w, v0) ∧
    v' = <[Z.to_nat I_Debug := dbg]> v0 ∧
    ∀ i, i ≠ I_Debug → load v' i = load v0 i.
Proof.
  intros Hwf Hdbg Hon Hlen Hfile Hcreate.
  destruct (GEwrite_sink w v L s c dbg line mode Hwf Hdbg Hlen) as [v' Hrun].
  pose proof Hwf as [_ Hact _ _ _ Hfix _ _ _ _].
  assert (Hin : 0 <= I_Debug < Z.of_nat (length v))
    by (unfold I_Debug in *; lia).
  assert (Hsame : <[Z.to_nat I_Debug := dbg]> v = v).
  { apply list_insert_id. unfold load in Hdbg. by destruct (0 <=? I_Debug). }
  (* the flag word is not written *)
  pose proof (GEwrite_flag_word w w v L s c line mode dbg Hwf) as Hkeep.
  rewrite Hsame, Hrun in Hkeep.
  cbn [fmap option_fmap option_map snd] in Hkeep. injection Hkeep as Hkeep.
  (* the call with the flag cleared *)
  pose proof (GEwrite_flag_word w w v L s c line mode 0 Hwf) as Hflag.
  rewrite Hrun in Hflag. cbn [fmap option_fmap option_map snd] in Hflag.
  destruct (GEwrite w (<[Z.to_nat I_Debug := 0]> v) line mode)
    as [[w0 v0]|] eqn:Hrun0; [|done].
  cbn [fmap option_fmap option_map snd] in Hflag. injection Hflag as ->.
  assert (Hoff : load (<[Z.to_nat I_Debug := 0]> v) I_Debug = Some 0)
    by (by apply load_insert_eq).
  pose proof (GEwrite_sink_inv w _ line mode 0 w0 _ Hoff Hrun0) as Hw0.
  change (mirrored w 0 line mode) with w in Hw0. subst w0.
  exists v', (<[Z.to_nat I_Debug := 0]> v').
  split.
  { rewrite Hrun. do 2 f_equal.
    unfold mirrored. destruct (Z.eqb_spec dbg 0); [done|].
    unfold debug_trace. by rewrite Hfile, Hcreate. }
  split; [done|]. split.
  - by rewrite list_insert_insert_eq.
  - intros i Hi. symmetry. apply load_insert_ne; [by vm_compute | done].
Qed.

Lemma GEwrite_debug_unavailable_run :
  ∃ v' v0,
    GEwrite (Sink None false [])
      (with_fields [(I_Debug, 1)] (sample_icntr 64 30 0)) "0123456789" TOSTAT
      = Some (Sink None false ([] ++ ["Can't create debugext.txt"%string]), v') ∧
    GEwrite (Sink None false [])
      (<[Z.to_nat I_Debug := 0]> (with_fields [(I_Debug, 1)] (sample_icntr 64 30 0)))
      "0123456789" TOSTAT
      = Some (Sink None false [], v0) ∧
    v' = <[Z.to_nat I_Debug := 1]> v0 ∧
    ∀ i, i ≠ I_Debug → load v' i = load v0 i.
Proof.
  apply (GEwrite_debug_unavailable (Sink None false [])
           (with_fields [(I_Debug, 1)] (sample_icntr 64 30 0)) 64 30 0 1
           "0123456789" TOSTAT).
  - closed_wf.
  - reflexivity.
  - lia.
  - vm_compute. congruence.
  - reflexivity.
  - reflexivity.
Defined.

Lemma GEwrite_caps_long_line_run :
  ∃ w' v',
    GEwrite quiet (sample_icntr 128 30 0)
      (string_of_list_ascii (replicate 300 "a"%char)) TOLOG = Some (w', v') ∧
    appended (sample_icntr 128 30 0) v'
      = [(TOLOG, string_of_list_ascii
                   (take 256 (c_chars (string_of_list_ascii (replicate 300 "a"%char)))))] ∧
    load v' I_BufLen = Some (0 + 66).
Proof.
  apply (GEwrite_caps_long_line quiet (sample_icntr 128 30 0) 128 30 0
           (string_of_list_ascii (replicate 300 "a"%char)) TOLOG).
  - closed_wf.
  - vm_compute. split; congruence.
  - vm_compute. split; congruence.
  - lia.
Defined.

(** * Further properties of the example module *)

Lemma store_is_Some_inv {A} (v : list A) i y v' :
  store v i y = Some v' → v' = <[Z.to_nat i := y]> v.
Proof.
  unfold store. destruct (_ && _); [|done]. by intros [= <-].
Qed.

Lemma records_from_ext fuel : ∀ v v' lo pos stop,
  Forall is_int v →
  (∀ i, lo <= i → load v' i = load v i) →
  lo <= pos →
  records_from fuel v' pos stop = records_from fuel v pos stop.
Proof.
  induction fuel as [|fuel IH]; intros v v' lo pos stop Hint Hsame Hlo; [done|].
  cbn [records_from]. destruct (stop <=? pos); [done|].
  rewrite !Hsame by lia.
  destruct (load v pos) as [n|] eqn:Hn; [|done].
  destruct (load v (pos + 1)) as [dest|]; [|done].
  destruct (Z.ltb_spec n 0); [done|].
  rewrite (load_chars_words v v').
  2:{ intros i Hi _. apply Hsame. unfold sizeof_int in *. lia. }
  destruct (load_chars v _ _); [|done].
  f_equal. apply (IH v v' lo); [done..|].
  destruct (record_words v pos n Hint Hn); lia.
Qed.

(** Setting the constant-derivative flag keeps the vector well formed and
    the buffer as it reads. *)
Lemma flag_set_wf v L s c :
  wf_icntr v L s c →
  wf_icntr (<[Z.to_nat I_ConstDeriv := 1]> v) L s c ∧
  (∀ i, i ≠ I_ConstDeriv → load (<[Z.to_nat I_ConstDeriv := 1]> v) i = load v i) ∧
  load (<[Z.to_nat I_ConstDeriv := 1]> v) I_ConstDeriv = Some 1 ∧
  ∀ v0 L0 s0 c0,
    wf_icntr v0 L0 s0 c0 →
    appended v0 (<[Z.to_nat I_ConstDeriv := 1]> v) = appended v0 v.
Proof.
  intros Hwf. pose proof Hwf as [Hint Hact Hl0 Hl25 Hl26 Hfix Hsize Hbuf Hused Hins].
  assert (Hne : ∀ i, i ≠ I_ConstDeriv →
                load (<[Z.to_nat I_ConstDeriv := 1]> v) i = load v i).
  { intros i Hi. apply load_insert_ne; [by vm_compute | done]. }
  split; [|split; [done|split]].
  - split; try done.
    + apply Forall_insert; [done | by vm_compute].
    + by rewrite length_insert.
    + by rewrite Hne.
    + by rewrite Hne.
    + by rewrite Hne.
  - apply load_insert_eq. unfold I_ConstDeriv, I_Debug in *. lia.
  - intros v0 L0 s0 c0 Hwf0. unfold appended.
    rewrite (first_free_wf v0 L0 s0 c0 Hwf0).
    unfold first_free, field. rewrite !Hne by done.
    apply (records_from_ext _ v _ (s0 + c0 - 1)); [done| |lia].
    intros i Hi. apply Hne.
    pose proof (wf_buffer _ _ _ _ Hwf0). pose proof (wf_used _ _ _ _ Hwf0).
    unfold I_ConstDeriv, I_Debug in *. lia.
Qed.

Lemma counter_after_le line r c :
  c <= (if 0 <? r then c + 2 + INTS (stored_length line r) else c).
Proof.
  destruct (Z.ltb_spec 0 r) as [Hr|]; [|lia].
  pose proof (stored_length_range line r Hr) as (Hn & _ & _).
  rewrite INTS_max by (unfold int_max; lia). lia.
Qed.

Section DispatcherMore.
Context `{Cmath double}.
Implicit Types (m : memory double) (x : list double).

Lemma gefunc_mode m x mode :
  load (m_icntr m) I_Mode = Some mode →
  gefunc m x =
    if mode =? DOINIT then do_init m
    else if mode =? DOTERM then m ← log m "--- Terminating"; Some (0, m)
    else if mode =? DOEVAL then do_eval m x
    else if mode =? DOCONSTDERIV then do_constderiv m
    else m ← log m " ** Mode not defined.";
         m ← stat m " ** Mode not defined."; Some (2, m).
Proof. intros Hmode. unfold gefunc. by rewrite Hmode. Qed.

(** X10: in Terminate mode on a well-formed vector gefunc returns 0,
    leaves the function value, the derivative array and the fixed part of
    the vector alone, and passes the one line [--- Terminating] to the
    packer, for the log. *)
Theorem gefunc_terminate m x L s c :
  wf_icntr (m_icntr m) L s c →
  load (m_icntr m) I_Mode = Some DOTERM →
  ∃ m',
    gefunc m x = Some (0, m') ∧
    m_f m' = m_f m ∧ m_d m' = m_d m ∧
    (∀ i, 0 <= i < I_BufStrt → load (m_icntr m') i = load (m_icntr m) i) ∧
    appended (m_icntr m) (m_icntr m')
      = written "--- Terminating" TOLOG (L - (s + c + 1)).
Proof.
  intros Hwf Hmode.
  destruct (log_written m "--- Terminating" L s c Hwf)
    as (w' & v' & c' & Hlog & _ & _ & Hfr & _ & Happ); [by vm_compute|].
  rewrite (gefunc_mode m x DOTERM Hmode).
  change (DOTERM =? DOINIT) with false. change (DOTERM =? DOTERM) with true.
  cbv iota. rewrite Hlog. bind_step.
  eexists. split; [reflexivity|]. split; [done|]. split; [done|].
  split; [|done]. intros i Hi. simpl. apply Hfr;
    destruct Hwf; unfold I_BufLen, I_BufStrt, I_Debug in *; lia.
Qed.

(** X11: a mode other than Init, Terminate, Evaluate and
    ConstantDerivative (the Hessian-vector mode 5 among them) is answered
    with status 2; the outputs are left alone, and the line
    [ ** Mode not defined.] goes to the packer twice, first for the log,
    then for the status destination; both records are whole exactly when
    at least 16 words are free, counted from the first free word to the
    end of the vector (8 for each record). *)
Theorem gefunc_unknown_mode m x L s c mode :
  wf_icntr (m_icntr m) L s c →
  load (m_icntr m) I_Mode = Some mode →
  mode ≠ DOINIT → mode ≠ DOTERM → mode ≠ DOEVAL → mode ≠ DOCONSTDERIV →
  ∃ m' c1,
    gefunc m x = Some (2, m') ∧
    m_f m' = m_f m ∧ m_d m' = m_d m ∧
    c1 = (if 0 <? L - (s + c + 1)
          then c + 2 + INTS (stored_length " ** Mode not defined." (L - (s + c + 1)))
          else c) ∧
    appended (m_icntr m) (m_icntr m')
      = written " ** Mode not defined." TOLOG (L - (s + c + 1))
          ++ written " ** Mode not defined." TOSTAT (L - (s + c1 + 1)) ∧
    (appended (m_icntr m) (m_icntr m')
       = [(TOLOG, " ** Mode not defined."%string);
          (TOSTAT, " ** Mode not defined."%string)]
     ↔ 16 <= L - first_free (m_icntr m)).
Proof.
  intros Hwf Hmode H1 H2 H3 H4.
  destruct (GEwrite_twice_written (m_icntr m) L s c (m_sink m)
              " ** Mode not defined." TOLOG " ** Mode not defined." TOSTAT Hwf)
    as (w1 & v1 & c1 & w2 & v2 & c2 & Hrun1 & Hrun2 & Hwf1 & _ & _ & _ & Happ);
    [by vm_compute..|].
  destruct (GEwrite_written (m_icntr m) L s c Hwf (m_sink m)
              " ** Mode not defined." TOLOG)
    as (w1' & v1' & c1' & Hrun1' & Hwf1' & Hc1 & _); [by vm_compute..|].
  assert (v1' = v1) by congruence. subst v1'.
  assert (Hcc : c1' = c1) by (destruct Hwf1, Hwf1'; congruence).
  rewrite Hcc in Hc1.
  rewrite (gefunc_mode m x mode Hmode).
  destruct (Z.eqb_spec mode DOINIT); [done|]. destruct (Z.eqb_spec mode DOTERM); [done|].
  destruct (Z.eqb_spec mode DOEVAL); [done|].
  destruct (Z.eqb_spec mode DOCONSTDERIV); [done|].
  unfold log, stat, GElog, GEstat. rewrite Hrun1. bind_step.
  cbn [m_sink m_icntr with_icntr]. rewrite Hrun2. bind_step.
  eexists _, c1. split; [reflexivity|]. cbn [m_icntr m_f m_d with_icntr].
  split; [done|]. split; [done|]. split; [done|]. split; [done|].
  rewrite Happ, (first_free_wf (m_icntr m) L s c Hwf).
  pose proof (two_lines_whole " ** Mode not defined." TOLOG
                " ** Mode not defined." TOSTAT L s c c1
                ltac:(by vm_compute) ltac:(by vm_compute) Hc1) as Hiff.
  assert (Hk : 2 + INTS (strlen " ** Mode not defined.")
               + (2 + INTS (strlen " ** Mode not defined.")) = 16)
    by (by vm_compute).
  rewrite Hk in Hiff. exact Hiff.
Qed.

Lemma outputs_Some m x (r : Z * double * list double) (run : option (Z * memory double)) :
  outputs <$> run = Some r →
  ∃ m', run = Some (r.1.1, m') ∧ m_f m' = r.1.2 ∧ m_d m' = r.2.
Proof.
  destruct run as [[rc m']|]; [|done]. intros [= <-]. by exists m'.
Qed.

(** X12: Evaluate mode for equation 1 or 2 on a well-formed vector, with
    four variables and at least four derivative entries, returns 0.  With
    "compute function" set the function value becomes [sin x[0] - x[2]]
    for equation 1 and [cos x[1] - x[3]] for equation 2, otherwise it is
    kept.  With "compute derivatives" set exactly two entries of the array
    are assigned, [d[0] = cos x[0]], [d[2] = -1.0] for equation 1 and
    [d[1] = - sin x[1]], [d[3] = -1.0] for equation 2; otherwise the array
    is kept. *)
Theorem gefunc_eval_values m x L s c findex dofnc dodrv (y0 y1 y2 y3 : double) :
  wf_icntr (m_icntr m) L s c →
  load (m_icntr m) I_Mode = Some DOEVAL →
  load (m_icntr m) I_Eqno = Some findex →
  load (m_icntr m) I_Dofunc = Some dofnc →
  load (m_icntr m) I_Dodrv = Some dodrv →
  1 <= findex <= 2 →
  x = [y0; y1; y2; y3] →
  4 <= Z.of_nat (length (m_d m)) →
  ∃ m',
    gefunc m x = Some (0, m') ∧
    m_f m' = (if dofnc =? 0 then m_f m
              else if findex =? 1 then d_sub (d_sin y0) y2
                   else d_sub (d_cos y1) y3) ∧
    m_d m' = (if dodrv =? 0 then m_d m
              else if findex =? 1
                   then <[2%nat := d_minus_one]> (<[0%nat := d_cos y0]> (m_d m))
                   else <[3%nat := d_minus_one]> (<[1%nat := d_neg (d_sin y1)]> (m_d m))).
Proof.
  intros Hwf Hmode Heq Hfn Hdrv Hrange -> Hd.
  rewrite (gefunc_mode m _ DOEVAL Hmode).
  change (DOEVAL =? DOINIT) with false. change (DOEVAL =? DOTERM) with false.
  change (DOEVAL =? DOEVAL) with true. cbv iota.
  pose proof (do_eval_outputs m [y0; y1; y2; y3] L s c findex dofnc dodrv
                Hwf Heq Hfn Hdrv) as Hout.
  assert (Hin : (1 <=? findex) && (findex <=? 2) = true).
  { destruct (Z.leb_spec 1 findex), (Z.leb_spec findex 2); (done || lia). }
  rewrite Hin in Hout.
  assert (Hf : function_value [y0; y1; y2; y3] findex
               = Some (if findex =? 1 then d_sub (d_sin y0) y2
                       else d_sub (d_cos y1) y3)).
  { unfold function_value. by destruct (findex =? 1). }
  assert (Hdv : derivatives (m_d m) [y0; y1; y2; y3] findex
                = Some (if findex =? 1
                        then <[2%nat := d_minus_one]> (<[0%nat := d_cos y0]> (m_d m))
                        else <[3%nat := d_minus_one]>
                               (<[1%nat := d_neg (d_sin y1)]> (m_d m)))).
  { unfold derivatives.
    change (load [y0; y1; y2; y3] 0) with (Some y0).
    change (load [y0; y1; y2; y3] 1) with (Some y1).
    destruct (findex =? 1); bind_step; rewrite store_Some by lia; bind_step;
      rewrite store_Some by (rewrite length_insert; lia); done. }
  rewrite Hf, Hdv in Hout.
  destruct (dofnc =? 0), (dodrv =? 0); cbn [mbind option_bind] in Hout;
    apply (outputs_Some m [y0; y1; y2; y3]) in Hout as (m' & Hrun & Hf' & Hd');
    exists m'; done.
Qed.

Lemma do_constderiv_outputs m L s c findex :
  wf_icntr (m_icntr m) L s c →
  load (m_icntr m) I_Eqno = Some findex →
  outputs <$> do_constderiv m
    = (λ d, (0, m_f m, d)) <$> store (m_d m) (findex +i 1) d_minus_one.
Proof.
  intros Hwf Heq.
  destruct (log_written m "--- Constant derivative call" L s c Hwf)
    as (w' & v' & c' & Hlog & Hwf' & _ & Hfr & _); [by vm_compute|].
  unfold do_constderiv. rewrite Hlog. bind_step.
  rewrite (eval_prelude m L s c I_Eqno findex Hwf) by (done || by vm_compute).
  bind_step. cbn [m_d with_icntr].
  by destruct (store (m_d m) (findex +i 1) d_minus_one).
Qed.

(** X13: for a valid equation the two modes agree on the constant
    derivative: ConstantDerivative mode assigns [-1.0] to [d[index + 1]]
    and to no other entry, and Evaluate mode with "compute derivatives"
    set assigns the same value to the same entry. *)
Theorem gefunc_constderiv_agrees_with_eval
    me mc x Le se ce Lc sc cc findex dofnc dodrv (y0 y1 y2 y3 : double) :
  wf_icntr (m_icntr me) Le se ce →
  wf_icntr (m_icntr mc) Lc sc cc →
  load (m_icntr me) I_Mode = Some DOEVAL →
  load (m_icntr mc) I_Mode = Some DOCONSTDERIV →
  load (m_icntr me) I_Eqno = Some findex →
  load (m_icntr mc) I_Eqno = Some findex →
  load (m_icntr me) I_Dofunc = Some dofnc →
  load (m_icntr me) I_Dodrv = Some dodrv →
  dodrv ≠ 0 →
  1 <= findex <= 2 →
  x = [y0; y1; y2; y3] →
  4 <= Z.of_nat (length (m_d me)) →
  4 <= Z.of_nat (length (m_d mc)) →
  ∃ me' mc',
    gefunc me x = Some (0, me') ∧
    gefunc mc x = Some (0, mc') ∧
    load (m_d mc') (findex + 1) = Some d_minus_one ∧
    load (m_d me') (findex + 1) = Some d_minus_one ∧
    m_f mc' = m_f mc ∧
    ∀ i, i ≠ findex + 1 → load (m_d mc') i = load (m_d mc) i.
Proof.
  intros Hwfe Hwfc Hme Hmc Heqe Heqc Hfn Hdrv Hon Hrange -> Hde Hdc.
  (* Evaluate *)
  pose proof (do_eval_outputs me [y0; y1; y2; y3] Le se ce findex dofnc dodrv
                Hwfe Heqe Hfn Hdrv) as Houte.
  assert (Hin : (1 <=? findex) && (findex <=? 2) = true).
  { destruct (Z.leb_spec 1 findex), (Z.leb_spec findex 2); (done || lia). }
  rewrite Hin in Houte.
  destruct (function_value_is_Some [y0; y1; y2; y3] findex) as [fv Hfv];
    [simpl; lia|].
  assert (Hdv : derivatives (m_d me) [y0; y1; y2; y3] findex
                = Some (if findex =? 1
                        then <[2%nat := d_minus_one]> (<[0%nat := d_cos y0]> (m_d me))
                        else <[3%nat := d_minus_one]>
                               (<[1%nat := d_neg (d_sin y1)]> (m_d me)))).
  { unfold derivatives.
    change (load [y0; y1; y2; y3] 0) with (Some y0).
    change (load [y0; y1; y2; y3] 1) with (Some y1).
    destruct (findex =? 1); bind_step; rewrite store_Some by lia; bind_step;
      rewrite store_Some by (rewrite length_insert; lia); done. }
  rewrite Hfv, Hdv in Houte.
  destruct (Z.eqb_spec dodrv 0); [done|].
  assert (Houte' : ∃ me', do_eval me [y0; y1; y2; y3] = Some (0, me') ∧
             m_d me' = (if findex =? 1
                        then <[2%nat := d_minus_one]> (<[0%nat := d_cos y0]> (m_d me))
                        else <[3%nat := d_minus_one]>
                               (<[1%nat := d_neg (d_sin y1)]> (m_d me)))).
  { destruct (dofnc =? 0); cbn [mbind option_bind] in Houte;
      apply (outputs_Some me [y0; y1; y2; y3]) in Houte as (me' & Hrun & _ & Hd');
      by exists me'. }
  destruct Houte' as (me' & Hrune & Hde').
  (* ConstantDerivative *)
  pose proof (do_constderiv_outputs mc Lc sc cc findex Hwfc Heqc) as Houtc.
  assert (Hidx : findex +i 1 = findex + 1).
  { apply wrap_id. unfold is_int, int_min, int_max. lia. }
  rewrite Hidx, store_Some in Houtc by lia. simpl in Houtc.
  apply (outputs_Some mc [y0; y1; y2; y3]) in Houtc as (mc' & Hrunc & Hfc' & Hdc').
  simpl in Hfc', Hdc'.
  exists me', mc'.
  rewrite (gefunc_mode me _ DOEVAL Hme), (gefunc_mode mc _ DOCONSTDERIV Hmc).
  split; [done|]. split; [done|].
  split; [rewrite Hdc'; apply load_insert_eq; lia|].
  split.
  { rewrite Hde'. destruct (Z.eqb_spec findex 1) as [->|].
    - apply (load_insert_eq _ 2). rewrite length_insert. lia.
    - assert (findex = 2) as -> by lia.
      apply (load_insert_eq _ 3). rewrite length_insert. lia. }
  split; [done|].
  intros i Hi. rewrite Hdc'. apply load_insert_ne; lia.
Qed.

(** One line handed to the packer: what every mode relies on. *)
Lemma packer_step (v : list Z) L s c w line md :
  wf_icntr v L s c → is_int md → strlen line <= int_max →
  ∃ w' v' c',
    GEwrite w v line md = Some (w', v') ∧
    wf_icntr v' L s c' ∧ c <= c' ∧
    ∀ i, 0 <= i < I_BufStrt → load v' i = load v i.
Proof.
  intros Hwf Hmd Hlen.
  destruct (GEwrite_written v L s c Hwf w line md Hmd Hlen)
    as (w' & v' & c' & Hrun & Hwf' & Hc' & Hfr & _).
  exists w', v', c'. split; [done|]. split; [done|]. split.
  - rewrite Hc'. apply counter_after_le.
  - intros i Hi. apply Hfr;
      destruct Hwf; unfold I_BufLen, I_BufStrt, I_Debug in *; lia.
Qed.

(** An Evaluate call returns and keeps the vector well formed and its
    fixed part as it was. *)
Lemma do_eval_progress m x L s c :
  wf_icntr (m_icntr m) L s c →
  4 <= Z.of_nat (length x) →
  4 <= Z.of_nat (length (m_d m)) →
  ∃ rc m' c',
    do_eval m x = Some (rc, m') ∧
    (rc = 0 ∨ rc = 2) ∧
    wf_icntr (m_icntr m') L s c' ∧
    c <= c' ∧
    length (m_d m') = length (m_d m) ∧
    ∀ i, 0 <= i < I_BufStrt → load (m_icntr m') i = load (m_icntr m) i.
Proof.
  intros Hwf Hx Hd.
  destruct (packer_step (m_icntr m) L s c (m_sink m) "--- Evaluation mode" TOLOG Hwf)
    as (w1 & v1 & c1 & Hrun1 & Hwf1 & Hle1 & Hfr1); [by vm_compute..|].
  unfold do_eval, log at 1, GElog. rewrite Hrun1. bind_step.
  cbn [m_icntr with_icntr].
  destruct (fixed_field _ L s c I_Eqno Hwf) as [findex Heq]; [by vm_compute|].
  destruct (fixed_field _ L s c I_Dofunc Hwf) as [dofnc Hfn]; [by vm_compute|].
  destruct (fixed_field _ L s c I_Dodrv Hwf) as [dodrv Hdrv]; [by vm_compute|].
  rewrite !Hfr1 by (by vm_compute). rewrite Heq, Hfn, Hdrv. bind_step.
  destruct ((1 <=? findex) && (findex <=? 2)).
  - destruct (function_value_is_Some x findex Hx) as [fv Hfv].
    destruct (derivatives_is_Some (m_d m) x findex Hx Hd) as [dv Hdv].
    assert (Hlen : length dv = length (m_d m)).
    { unfold derivatives in Hdv.
      destruct (findex =? 1);
        (destruct (load x _); [|done]); cbn [mbind option_bind] in Hdv;
        (destruct (store (m_d m) _ _) as [d1|] eqn:Hs1; [|done]);
        cbn [mbind option_bind] in Hdv;
        apply store_is_Some_inv in Hs1 as ->;
        apply store_is_Some_inv in Hdv as ->;
        by rewrite !length_insert. }
    rewrite Hfv.
    destruct (dofnc =? 0), (dodrv =? 0); bind_step;
      cbn [m_d with_icntr with_f]; rewrite ?Hdv; bind_step;
      eexists 0, _, c1; (split; [reflexivity|]);
      cbn [m_icntr m_d with_icntr with_f with_d];
      (split; [by left|]); (split; [done|]); (split; [done|]);
      (split; [done|]); intros i Hi; by apply Hfr1.
  - destruct (packer_step v1 L s c1 w1 " ** fIndex has unexpected value." TOSTAT Hwf1)
      as (w2 & v2 & c2 & Hrun2 & Hwf2 & Hle2 & Hfr2); [by vm_compute..|].
    unfold stat, GEstat. cbn [m_icntr m_sink with_icntr]. rewrite Hrun2. bind_step.
    eexists 2, _, c2. split; [reflexivity|].
    cbn [m_icntr m_d with_icntr].
    split; [by right|]. split; [done|]. split; [lia|]. split; [done|].
    intros i Hi. rewrite Hfr2 by done. by apply Hfr1.
Qed.

(** X14: in every mode but ConstantDerivative, on a well-formed vector
    with at least four variables and four derivative entries, gefunc
    returns, with status 0 or 2.  The vector is well formed afterwards
    with the same length and buffer start, the counter has not decreased,
    the derivative array has its length, and the fixed part before
    [I_BufStrt] is unchanged but for the constant-derivative flag, which
    only a successful Init writes. *)
Theorem gefunc_returns m x L s c mode :
  wf_icntr (m_icntr m) L s c →
  load (m_icntr m) I_Mode = Some mode →
  mode ≠ DOCONSTDERIV →
  4 <= Z.of_nat (length x) →
  4 <= Z.of_nat (length (m_d m)) →
  ∃ rc m' c',
    gefunc m x = Some (rc, m') ∧
    (rc = 0 ∨ rc = 2) ∧
    wf_icntr (m_icntr m') L s c' ∧
    c <= c' ∧
    length (m_d m') = length (m_d m) ∧
    (∀ i, 0 <= i < I_BufStrt → i ≠ I_ConstDeriv →
          load (m_icntr m') i = load (m_icntr m) i) ∧
    (mode ≠ DOINIT ∨ rc ≠ 0 →
     load (m_icntr m') I_ConstDeriv = load (m_icntr m) I_ConstDeriv).
Proof.
  intros Hwf Hmode Hnc Hx Hd.
  assert (Hstep : ∀ line md, is_int md → strlen line <= int_max →
            ∃ w' v' c',
              GEwrite (m_sink m) (m_icntr m) line md = Some (w', v') ∧
              wf_icntr v' L s c' ∧ c <= c' ∧
              ∀ i, 0 <= i < I_BufStrt → load v' i = load (m_icntr m) i).
  { intros line md. apply packer_step. done. }
  assert (Hflag : 0 <= I_ConstDeriv < I_BufStrt) by (by vm_compute).
  (* a mode that ends after one line *)
  assert (Hone : ∀ line rc, strlen line <= int_max → rc = 0 ∨ rc = 2 →
            ∃ rc' m' c',
              (m1 ← log m line; Some (rc, m1)) = Some (rc', m') ∧
              (rc' = 0 ∨ rc' = 2) ∧ wf_icntr (m_icntr m') L s c' ∧ c <= c' ∧
              length (m_d m') = length (m_d m) ∧
              (∀ i, 0 <= i < I_BufStrt → i ≠ I_ConstDeriv →
                    load (m_icntr m') i = load (m_icntr m) i) ∧
              (mode ≠ DOINIT ∨ rc' ≠ 0 →
               load (m_icntr m') I_ConstDeriv = load (m_icntr m) I_ConstDeriv)).
  { intros line rc Hlen Hrc.
    destruct (Hstep line TOLOG) as (w' & v' & c' & Hrun & Hwf' & Hle & Hfr);
      [by vm_compute | done |].
    unfold log, GElog. rewrite Hrun. bind_step.
    exists rc, (with_icntr m w' v'), c'. cbn [m_icntr m_d with_icntr].
    split; [done|]. split; [done|]. split; [done|]. split; [done|].
    split; [done|]. split; [intros i Hi _; by apply Hfr|].
    intros _. by apply Hfr. }
  rewrite (gefunc_mode m x mode Hmode).
  destruct (Z.eqb_spec mode DOINIT) as [->|Hni].
  { (* Init *)
    unfold do_init.
    destruct (fixed_field _ L s c I_Neq Hwf) as [hneq ->]; [by vm_compute|].
    destruct (fixed_field _ L s c I_Nvar Hwf) as [hnvar ->]; [by vm_compute|].
    destruct (fixed_field _ L s c I_Nz Hwf) as [hnz ->]; [by vm_compute|].
    bind_step.
    destruct (2 =? hneq); bind_step;
      [|apply Hone; [by vm_compute | by right]].
    destruct (4 =? hnvar); bind_step;
      [|apply Hone; [by vm_compute | by right]].
    destruct (4 =? hnz); bind_step;
      [|apply Hone; [by vm_compute | by right]].
    destruct (Hstep "--- Model has the correct size."%string TOLOG)
      as (w' & v' & c' & Hrun & Hwf' & Hle & Hfr); [by vm_compute..|].
    unfold log, GElog. rewrite Hrun. bind_step. cbn [m_icntr m_sink with_icntr].
    destruct (flag_set_wf v' L s c' Hwf') as (Hwf2 & Hne & _ & _).
    rewrite store_Some by (destruct Hwf'; unfold I_ConstDeriv, I_Debug in *; lia).
    bind_step. eexists 0, _, c'. split; [reflexivity|].
    cbn [m_icntr m_d with_icntr].
    split; [by left|]. split; [done|]. split; [done|]. split; [done|].
    split; [intros i Hi Hn; rewrite Hne by done; by apply Hfr|].
    intros [?|?]; done. }
  destruct (Z.eqb_spec mode DOTERM) as [->|Hnt].
  { apply Hone; [by vm_compute | by left]. }
  destruct (Z.eqb_spec mode DOEVAL) as [->|Hne].
  { (* Evaluate *)
    destruct (do_eval_progress m x L s c Hwf Hx Hd)
      as (rc & m' & c' & Hrun & Hrc & Hwf' & Hle & Hlen & Hfr).
    exists rc, m', c'. split; [done|]. split; [done|]. split; [done|].
    split; [done|]. split; [done|]. split; [intros i Hi _; by apply Hfr|].
    intros _. by apply Hfr. }
  destruct (Z.eqb_spec mode DOCONSTDERIV); [done|].
  (* a mode that is not defined *)
  destruct (Hstep " ** Mode not defined."%string TOLOG)
    as (w1 & v1 & c1 & Hrun1 & Hwf1 & Hle1 & Hfr1); [by vm_compute..|].
  destruct (packer_step v1 L s c1 w1 " ** Mode not defined." TOSTAT Hwf1)
    as (w2 & v2 & c2 & Hrun2 & Hwf2 & Hle2 & Hfr2); [by vm_compute..|].
  unfold log, stat, GElog, GEstat. rewrite Hrun1. bind_step.
  cbn [m_icntr m_sink with_icntr]. rewrite Hrun2. bind_step.
  eexists 2, _, c2. split; [reflexivity|].
  cbn [m_icntr m_d with_icntr].
  split; [by right|]. split; [done|]. split; [lia|]. split; [done|].
  split; [intros i Hi _; rewrite Hfr2 by done; by apply Hfr1|].
  intros _. rewrite Hfr2 by done. by apply Hfr1.
Qed.

(** X15: Init reports the first mismatch only, in the order equations,
    variables, derivatives: the one line it passes to the packer, for the
    log, is the message of the first count that differs, or
    [--- Model has the correct size.] when none does.  On a mismatch the
    fixed part of the vector, the constant-derivative flag included, is
    left as it was. *)
Theorem gefunc_init_first_mismatch m x L s c hneq hnvar hnz :
  wf_icntr (m_icntr m) L s c →
  load (m_icntr m) I_Mode = Some DOINIT →
  load (m_icntr m) I_Neq = Some hneq →
  load (m_icntr m) I_Nvar = Some hnvar →
  load (m_icntr m) I_Nz = Some hnz →
  ∃ rc m',
    gefunc m x = Some (rc, m') ∧
    appended (m_icntr m) (m_icntr m')
      = written (if negb (hneq =? 2) then "--- Number of equations do not match"
                 else if negb (hnvar =? 4) then "--- Number of variables do not match"
                 else if negb (hnz =? 4) then "--- Number of differentibles do not match"
                 else "--- Model has the correct size.")
          TOLOG (L - (s + c + 1)) ∧
    (rc ≠ 0 →
     ∀ i, 0 <= i < I_BufStrt → load (m_icntr m') i = load (m_icntr m) i).
Proof.
  intros Hwf Hmode Hneq Hnvar Hnz.
  assert (Hone : ∀ line, strlen line <= int_max →
            ∃ rc m',
              (m1 ← log m line; Some (2, m1)) = Some (rc, m') ∧
              appended (m_icntr m) (m_icntr m') = written line TOLOG (L - (s + c + 1)) ∧
              (rc ≠ 0 →
               ∀ i, 0 <= i < I_BufStrt → load (m_icntr m') i = load (m_icntr m) i)).
  { intros line Hlen.
    destruct (log_written m line L s c Hwf Hlen)
      as (w' & v' & c' & Hlog & _ & _ & Hfr & _ & Happ).
    rewrite Hlog. bind_step. eexists 2, _. split; [reflexivity|].
    cbn [m_icntr with_icntr]. split; [done|].
    intros _ i Hi. apply Hfr;
      destruct Hwf; unfold I_BufLen, I_BufStrt, I_Debug in *; lia. }
  rewrite (gefunc_mode m x DOINIT Hmode).
  change (DOINIT =? DOINIT) with true. cbv iota. unfold do_init.
  rewrite Hneq. bind_step. rewrite (Z.eqb_sym 2 hneq).
  destruct (hneq =? 2); bind_step; [|apply Hone; by vm_compute].
  rewrite Hnvar. bind_step. rewrite (Z.eqb_sym 4 hnvar).
  destruct (hnvar =? 4); bind_step; [|apply Hone; by vm_compute].
  rewrite Hnz. bind_step. rewrite (Z.eqb_sym 4 hnz).
  destruct (hnz =? 4); bind_step; [|apply Hone; by vm_compute].
  destruct (log_written m "--- Model has the correct size." L s c Hwf)
    as (w' & v' & c' & Hlog & Hwf' & _ & _ & _ & Happ); [by vm_compute|].
  rewrite Hlog. bind_step. cbn [m_icntr m_sink with_icntr].
  destruct (flag_set_wf v' L s c' Hwf') as (_ & _ & _ & Hsame).
  rewrite store_Some by (destruct Hwf'; unfold I_ConstDeriv, I_Debug in *; lia).
  bind_step. eexists 0, _. split; [reflexivity|].
  cbn [m_icntr with_icntr]. split; [|done].
  by rewrite (Hsame _ L s c Hwf).
Qed.
End DispatcherMore.

(** * Further properties of the string extractor *)

Lemma store_middle {A} (pre post : list A) o y :
  store (pre ++ o :: post) (Z.of_nat (length pre)) y = Some (pre ++ y :: post).
Proof.
  rewrite store_Some by (rewrite length_app; cbn [length]; lia).
  rewrite Nat2Z.id. f_equal.
  replace (length pre) with (length pre + 0)%nat at 1 by lia.
  by rewrite insert_app_r.
Qed.

Lemma fill_nul_shape old : ∀ pre post,
  fill_nul (pre ++ old ++ post) (Z.of_nat (length pre)) (length old)
  = Some (pre ++ replicate (length old) NUL ++ post).
Proof.
  induction old as [|o old IH]; intros pre post; [done|].
  cbn [length fill_nul app]. rewrite store_middle. bind_step.
  specialize (IH (pre ++ [NUL]) post).
  rewrite length_app, Nat2Z.inj_add in IH. cbn [length] in IH.
  rewrite <- !app_assoc in IH. cbn [app] in IH.
  replace (Z.of_nat (length pre) + 1) with (Z.of_nat (length pre) + Z.of_nat 1) by lia.
  by rewrite IH.
Qed.

Lemma strncpy_image_cons c cs :
  strncpy_image (c :: cs)
  = if Ascii.eqb c NUL then NUL :: replicate (length cs) NUL
    else c :: strncpy_image cs.
Proof.
  unfold strncpy_image. cbn [until_nul length].
  destruct (Ascii.eqb c NUL); [done|]. cbn [length app]. done.
Qed.

Lemma load_chars_length v n : ∀ a cs,
  load_chars v a n = Some cs → length cs = n.
Proof.
  induction n as [|n IH]; intros a cs Hcs.
  - by injection Hcs as <-.
  - cbn [load_chars] in Hcs. destruct (load_char v a); [|discriminate Hcs].
    cbn [mbind option_bind] in Hcs.
    destruct (load_chars v (a + 1) n) eqn:Hr; [|discriminate Hcs].
    injection Hcs as <-. cbn [length]. f_equal. by eapply IH.
Qed.

Lemma strncpy_at_shape v old : ∀ pre post a cs,
  load_chars v a (length old) = Some cs →
  strncpy_at (pre ++ old ++ post) (Z.of_nat (length pre)) v a (length old)
  = Some (pre ++ strncpy_image cs ++ post).
Proof.
  induction old as [|o old IH]; intros pre post a cs Hcs.
  - injection Hcs as <-. done.
  - cbn [length load_chars] in Hcs.
    destruct (load_char v a) as [ch|] eqn:Hch; [|done]. cbn [mbind option_bind] in Hcs.
    destruct (load_chars v (a + 1) (length old)) as [cs'|] eqn:Hcs'; [|done].
    injection Hcs as <-.
    pose proof (load_chars_length _ _ _ _ Hcs') as Hlen.
    cbn [length strncpy_at app]. rewrite Hch. bind_step.
    rewrite store_middle. bind_step. rewrite strncpy_image_cons.
    replace (Z.of_nat (length pre) + 1) with (Z.of_nat (length (pre ++ [ch])))
      by (rewrite length_app; cbn [length]; lia).
    replace (pre ++ ch :: old ++ post) with ((pre ++ [ch]) ++ old ++ post)
      by (by rewrite <- app_assoc).
    destruct (Ascii.eqb_spec ch NUL) as [->|Hne].
    + rewrite fill_nul_shape, Hlen. by rewrite <- app_assoc.
    + rewrite (IH _ _ _ cs') by done. by rewrite <- app_assoc.
Qed.

Lemma until_nul_id cs : NUL ∉ cs → until_nul cs = cs.
Proof.
  induction cs as [|c cs IH]; [done|]. intros Hnot.
  apply not_elem_of_cons in Hnot as [Hne Hnot]. cbn [until_nul].
  destruct (Ascii.eqb_spec c NUL) as [->|_]; [done|]. by rewrite IH.
Qed.

Lemma strncpy_image_id cs : NUL ∉ cs → strncpy_image cs = cs.
Proof.
  intros Hnot. unfold strncpy_image. rewrite until_nul_id by done.
  rewrite Nat.sub_diag. apply app_nil_r.
Qed.

(** The whole effect of the extractor on the output buffer. *)
Lemma GEname_shape icntr buf B C off cs :
  load icntr 11 = Some C →
  load icntr 10 = Some off →
  0 <= C →
  0 <= B <= Z.of_nat (length buf) →
  load_chars icntr ((off - 1) * sizeof_int) (Z.to_nat (Z.min C B)) = Some cs →
  GEname icntr buf B
  = Some (Z.min C B,
          strncpy_image cs
            ++ (if Z.min C B <? B then NUL :: drop (S (Z.to_nat (Z.min C B))) buf
                else drop (Z.to_nat (Z.min C B)) buf)).
Proof.
  intros HC Hoff Hpos HB Hcs. unfold GEname. rewrite HC. bind_step.
  destruct (Z.ltb_spec C 0); [lia|].
  assert (Hmin : (if B <? C then B else C) = Z.min C B).
  { destruct (Z.ltb_spec B C); lia. }
  rewrite Hmin. set (n := Z.min C B) in *. rewrite Hoff. bind_step.
  unfold strncpy. destruct (Z.leb_spec 0 n); [|lia].
  pose proof (load_chars_length _ _ _ _ Hcs) as Hlen.
  assert (Htake : length (take (Z.to_nat n) buf) = Z.to_nat n)
    by (rewrite length_take; lia).
  assert (Hcopy : strncpy_at buf 0 icntr ((off - 1) * sizeof_int) (Z.to_nat n)
                  = Some (strncpy_image cs ++ drop (Z.to_nat n) buf)).
  { rewrite <- Htake in Hcs.
    pose proof (strncpy_at_shape icntr (take (Z.to_nat n) buf) []
                  (drop (Z.to_nat n) buf) _ cs Hcs) as Hshape.
    cbn [app length] in Hshape. rewrite take_drop, Htake in Hshape.
    exact Hshape. }
  rewrite Hcopy.
  bind_step. cbn [app].
  assert (Himg : length (strncpy_image cs) = Z.to_nat n).
  { unfold strncpy_image. rewrite length_app, length_replicate.
    assert (length (until_nul cs) <= length cs)%nat.
    { clear. induction cs as [|c cs IH]; [done|]. cbn [until_nul].
      destruct (Ascii.eqb c NUL); cbn [length]; lia. }
    lia. }
  destruct (Z.ltb_spec n B) as [Hlt|Hge]; [|done].
  destruct (drop (Z.to_nat n) buf) as [|o rest] eqn:Hdrop.
  { apply (f_equal length) in Hdrop. rewrite length_drop in Hdrop.
    cbn [length] in Hdrop. lia. }
  replace n with (Z.of_nat (length (strncpy_image cs))) at 1 by lia.
  rewrite store_middle. bind_step. do 3 f_equal.
  replace (S (Z.to_nat n)) with (Z.to_nat n + 1)%nat by lia.
  rewrite <- drop_drop, Hdrop. done.
Qed.

(** X16: for a count [C >= 0] and a capacity [B] inside the output buffer,
    when the [min C B] characters of the slot are [cs], GEname returns
    [min C B] and the buffer starts with the characters of [cs] before its
    first NUL, padded with NUL to [min C B] characters ([cs] itself when it
    has no NUL); a terminating NUL follows if [min C B < B], and the rest
    of the buffer is left as it was. *)
Theorem GEname_copies icntr buf B C off cs :
  load icntr 11 = Some C →
  load icntr 10 = Some off →
  0 <= C →
  0 <= B <= Z.of_nat (length buf) →
  load_chars icntr ((off - 1) * sizeof_int) (Z.to_nat (Z.min C B)) = Some cs →
  ∃ buf',
    GEname icntr buf B = Some (Z.min C B, buf') ∧
    buf' = strncpy_image cs
             ++ (if Z.min C B <? B then NUL :: drop (S (Z.to_nat (Z.min C B))) buf
                 else drop (Z.to_nat (Z.min C B)) buf) ∧
    (NUL ∉ cs → take (Z.to_nat (Z.min C B)) buf' = cs).
Proof.
  intros HC Hoff Hpos HB Hcs.
  eexists. split; [by apply (GEname_shape icntr buf B C off cs)|].
  split; [done|]. intros Hnul.
  rewrite strncpy_image_id by done.
  apply take_app_length'. symmetry. by eapply load_chars_length.
Qed.

Lemma GEname_copies_run :
  ∃ buf',
    GEname name_icntr (replicate 8 "x"%char) 3 = Some (Z.min 5 3, buf') ∧
    buf' = strncpy_image (list_ascii_of_string "hel")
             ++ (if Z.min 5 3 <? 3
                 then NUL :: drop (S (Z.to_nat (Z.min 5 3))) (replicate 8 "x"%char)
                 else drop (Z.to_nat (Z.min 5 3)) (replicate 8 "x"%char)) ∧
    (NUL ∉ list_ascii_of_string "hel" →
     take (Z.to_nat (Z.min 5 3)) buf' = list_ascii_of_string "hel").
Proof.
  apply (GEname_copies name_icntr (replicate 8 "x"%char) 3 5 29
           (list_ascii_of_string "hel")).
  - reflexivity.
  - reflexivity.
  - lia.
  - vm_compute. split; congruence.
  - vm_compute. reflexivity.
Defined.

Lemma c_chars_nul_free line : NUL ∉ c_chars line.
Proof.
  induction line as [|ch line IH]; cbn [c_chars]; [apply not_elem_of_nil|].
  destruct (Ascii.eqb_spec ch NUL) as [->|Hne]; [apply not_elem_of_nil|].
  apply not_elem_of_cons. split; [congruence|done].
Qed.

Lemma load_chars_prefix v : ∀ n m a cs,
  load_chars v a n = Some cs → (m <= n)%nat →
  load_chars v a m = Some (take m cs).
Proof.
  induction n as [|n IH]; intros m a cs Hcs Hm.
  - injection Hcs as <-. by replace m with 0%nat by lia.
  - cbn [load_chars] in Hcs.
    destruct (load_char v a) as [ch|] eqn:Hch; [|discriminate Hcs].
    cbn [mbind option_bind] in Hcs.
    destruct (load_chars v (a + 1) n) as [cs'|] eqn:Hcs'; [|discriminate Hcs].
    injection Hcs as <-. destruct m as [|m]; [done|].
    cbn [load_chars take]. rewrite Hch. bind_step.
    by rewrite (IH m (a + 1) cs') by (done || lia).
Qed.

(** X17: the packer and the extractor agree on the layout of characters
    in words.  When the string slot of a well-formed vector points at the
    text of the record the next call of GEwrite stores, and announces
    [k] characters of it, GEname on the vector GEwrite leaves returns
    [min k B] and the output buffer starts with that many characters of
    the line. *)
Theorem GEwrite_then_GEname w v L s c line mode buf B k :
  wf_icntr v L s c →
  strlen line <= int_max →
  0 < L - (s + c + 1) →
  load v 10 = Some (s + c + 2) →
  load v 11 = Some k →
  0 <= k <= stored_length line (L - (s + c + 1)) →
  0 <= B <= Z.of_nat (length buf) →
  ∃ w' v' buf',
    GEwrite w v line mode = Some (w', v') ∧
    GEname v' buf B = Some (Z.min k B, buf') ∧
    take (Z.to_nat (Z.min k B)) buf'
    = take (Z.to_nat (Z.min k B)) (c_chars line).
Proof.
  intros Hwf Hlen Hroom Hoff Hcount Hk HB.
  destruct (wf_Debug v L s c Hwf) as (dbg & Hdbg).
  destruct (GEwrite_room v L s c Hwf w line mode dbg Hdbg Hlen Hroom)
    as (v' & Hrun & _ & _ & _ & _ & _ & Hframe & Htext).
  pose proof Hwf as [_ _ _ _ _ _ _ Hbuf Hused _].
  unfold I_Debug in Hbuf.
  set (n := stored_length line (L - (s + c + 1))) in *.
  set (m := Z.min k B).
  assert (Hm : (Z.to_nat m <= Z.to_nat n)%nat) by lia.
  pose proof (load_chars_prefix v' _ _ _ _ Htext Hm) as Hpre.
  rewrite take_take in Hpre.
  replace (Z.to_nat m `min` Z.to_nat n)%nat with (Z.to_nat m) in Hpre by lia.
  assert (H10 : load v' 10 = Some (s + c + 2)).
  { rewrite Hframe; [done|unfold I_BufLen; lia|lia]. }
  assert (H11 : load v' 11 = Some k).
  { rewrite Hframe; [done|unfold I_BufLen; lia|lia]. }
  replace ((s + c + 1) * sizeof_int) with ((s + c + 2 - 1) * sizeof_int) in Hpre
    by (f_equal; lia).
  pose proof (GEname_shape v' buf B k (s + c + 2) _ H11 H10 ltac:(lia) HB Hpre)
    as Hname.
  eexists (mirrored w dbg line mode), v', _. split; [done|]. split; [exact Hname|].
  rewrite strncpy_image_id.
  - apply take_app_length'. rewrite length_take.
    pose proof (load_chars_length _ _ _ _ Hpre) as Hl.
    rewrite length_take in Hl. fold m. lia.
  - intros Hin. apply (c_chars_nul_free line).
    apply elem_of_take in Hin as (i & Hi & _).
    by eapply list_elem_of_lookup_2.
Qed.

Lemma GEwrite_then_GEname_run :
  ∃ w' v' buf',
    GEwrite quiet (with_fields [(10, 32); (11, 7)] (sample_icntr 64 30 0))
      "0123456789" TOLOG = Some (w', v') ∧
    GEname v' (replicate 5 "x"%char) 5 = Some (Z.min 7 5, buf') ∧
    take (Z.to_nat (Z.min 7 5)) buf'
    = take (Z.to_nat (Z.min 7 5)) (c_chars "0123456789").
Proof.
  apply (GEwrite_then_GEname quiet
           (with_fields [(10, 32); (11, 7)] (sample_icntr 64 30 0)) 64 30 0
           "0123456789" TOLOG (replicate 5 "x"%char) 5 7).
  - closed_wf.
  - vm_compute. congruence.
  - lia.
  - reflexivity.
  - reflexivity.
  - vm_compute. split; congruence.
  - vm_compute. split; congruence.
Defined.

(** ** Runs of the dispatcher on the term model *)

Lemma gefunc_terminate_run :
  ∃ m',
    gefunc (fresh (with_fields [(I_Mode, DOTERM)] (sample_icntr 64 30 0))) point
      = Some (0, m') ∧
    m_f m' = m_f (fresh (with_fields [(I_Mode, DOTERM)] (sample_icntr 64 30 0))) ∧
    m_d m' = m_d (fresh (with_fields [(I_Mode, DOTERM)] (sample_icntr 64 30 0))) ∧
    (∀ i, 0 <= i < I_BufStrt →
          load (m_icntr m') i
          = load (m_icntr (fresh (with_fields [(I_Mode, DOTERM)]
                                    (sample_icntr 64 30 0)))) i) ∧
    appended (m_icntr (fresh (with_fields [(I_Mode, DOTERM)] (sample_icntr 64 30 0))))
      (m_icntr m')
      = written "--- Terminating" TOLOG (64 - (30 + 0 + 1)).
Proof.
  apply (gefunc_terminate
           (fresh (with_fields [(I_Mode, DOTERM)] (sample_icntr 64 30 0)))
           point 64 30 0).
  - closed_wf.
  - reflexivity.
Defined.

Lemma gefunc_unknown_mode_run :
  ∃ m' c1,
    gefunc (fresh (with_fields [(I_Mode, DOHVPROD)] (sample_icntr 64 30 0))) point
      = Some (2, m') ∧
    m_f m' = m_f (fresh (with_fields [(I_Mode, DOHVPROD)] (sample_icntr 64 30 0))) ∧
    m_d m' = m_d (fresh (with_fields [(I_Mode, DOHVPROD)] (sample_icntr 64 30 0))) ∧
    c1 = (if 0 <? 64 - (30 + 0 + 1)
          then 0 + 2 + INTS (stored_length " ** Mode not defined." (64 - (30 + 0 + 1)))
          else 0) ∧
    appended (m_icntr (fresh (with_fields [(I_Mode, DOHVPROD)] (sample_icntr 64 30 0))))
      (m_icntr m')
      = written " ** Mode not defined." TOLOG (64 - (30 + 0 + 1))
          ++ written " ** Mode not defined." TOSTAT (64 - (30 + c1 + 1)) ∧
    (appended (m_icntr (fresh (with_fields [(I_Mode, DOHVPROD)] (sample_icntr 64 30 0))))
       (m_icntr m')
       = [(TOLOG, " ** Mode not defined."%string);
          (TOSTAT, " ** Mode not defined."%string)]
     ↔ 16 <= 64 - first_free
                    (m_icntr (fresh (with_fields [(I_Mode, DOHVPROD)]
                                       (sample_icntr 64 30 0))))).
Proof.
  apply (gefunc_unknown_mode
           (fresh (with_fields [(I_Mode, DOHVPROD)] (sample_icntr 64 30 0)))
           point 64 30 0 DOHVPROD).
  - closed_wf.
  - reflexivity.
  - vm_compute. congruence.
  - vm_compute. congruence.
  - vm_compute. congruence.
  - vm_compute. congruence.
Defined.

(** With exactly 15 free words (44 words, buffer start 30) the second
    record is cut to 20 characters. *)
Example gefunc_mode_15_free_words_cut :
  let v := with_fields [(I_Mode, DOHVPROD)] (sample_icntr 44 30 0) in
  wf_icntr v 44 30 0 ∧
  44 - first_free v = 15 ∧
  ∃ m', gefunc (fresh v) point = Some (2, m') ∧
        appended v (m_icntr m')
          = [(TOLOG, " ** Mode not defined."%string);
             (TOSTAT, " ** Mode not defined"%string)].
Proof.
  split; [closed_wf|]. split; [reflexivity|].
  eexists. split; [vm_compute; reflexivity|]. by vm_compute.
Qed.

Lemma gefunc_eval_values_run :
  ∃ m',
    gefunc (fresh (eval_icntr 2 1 1)) point = Some (0, m') ∧
    m_f m' = (if 1 =? 0 then m_f (fresh (eval_icntr 2 1 1))
              else if 2 =? 1 then d_sub (d_sin (Lit 10)) (Lit 12)
                   else d_sub (d_cos (Lit 11)) (Lit 13)) ∧
    m_d m' = (if 1 =? 0 then m_d (fresh (eval_icntr 2 1 1))
              else if 2 =? 1
                   then <[2%nat := d_minus_one]>
                          (<[0%nat := d_cos (Lit 10)]> (m_d (fresh (eval_icntr 2 1 1))))
                   else <[3%nat := d_minus_one]>
                          (<[1%nat := d_neg (d_sin (Lit 11))]>
                             (m_d (fresh (eval_icntr 2 1 1))))).
Proof.
  apply (gefunc_eval_values (fresh (eval_icntr 2 1 1)) point 64 30 0 2 1 1
           (Lit 10) (Lit 11) (Lit 12) (Lit 13)).
  - closed_wf.
  - reflexivity.
  - reflexivity.
  - reflexivity.
  - reflexivity.
  - lia.
  - reflexivity.
  - vm_compute. congruence.
Defined.

Lemma gefunc_constderiv_agrees_with_eval_run :
  ∃ me' mc',
    gefunc (fresh (eval_icntr 1 0 1)) point = Some (0, me') ∧
    gefunc (fresh (constderiv_icntr 1)) point = Some (0, mc') ∧
    load (m_d mc') (1 + 1) = Some d_minus_one ∧
    load (m_d me') (1 + 1) = Some d_minus_one ∧
    m_f mc' = m_f (fresh (constderiv_icntr 1)) ∧
    ∀ i, i ≠ 1 + 1 →
         load (m_d mc') i = load (m_d (fresh (constderiv_icntr 1))) i.
Proof.
  apply (gefunc_constderiv_agrees_with_eval
           (fresh (eval_icntr 1 0 1)) (fresh (constderiv_icntr 1)) point
           64 30 0 64 30 0 1 0 1 (Lit 10) (Lit 11) (Lit 12) (Lit 13)).
  - closed_wf.
  - closed_wf.
  - reflexivity.
  - reflexivity.
  - reflexivity.
  - reflexivity.
  - reflexivity.
  - reflexivity.
  - lia.
  - lia.
  - reflexivity.
  - vm_compute. congruence.
  - vm_compute. congruence.
Defined.

Lemma gefunc_returns_run :
  ∃ rc m' c',
    gefunc (fresh (init_icntr 64 30 2 4 4)) point = Some (rc, m') ∧
    (rc = 0 ∨ rc = 2) ∧
    wf_icntr (m_icntr m') 64 30 c' ∧
    0 <= c' ∧
    length (m_d m') = length (m_d (fresh (init_icntr 64 30 2 4 4))) ∧
    (∀ i, 0 <= i < I_BufStrt → i ≠ I_ConstDeriv →
          load (m_icntr m') i = load (m_icntr (fresh (init_icntr 64 30 2 4 4))) i) ∧
    (DOINIT ≠ DOINIT ∨ rc ≠ 0 →
     load (m_icntr m') I_ConstDeriv
     = load (m_icntr (fresh (init_icntr 64 30 2 4 4))) I_ConstDeriv).
Proof.
  apply (gefunc_returns (fresh (init_icntr 64 30 2 4 4)) point 64 30 0 DOINIT).
  - closed_wf.
  - reflexivity.
  - vm_compute. congruence.
  - vm_compute. congruence.
  - vm_compute. congruence.
Defined.

Lemma gefunc_init_first_mismatch_run :
  ∃ rc m',
    gefunc (fresh (init_icntr 64 30 2 5 3)) point = Some (rc, m') ∧
    appended (m_icntr (fresh (init_icntr 64 30 2 5 3))) (m_icntr m')
      = written (if negb (2 =? 2) then "--- Number of equations do not match"
                 else if negb (5 =? 4) then "--- Number of variables do not match"
                 else if negb (3 =? 4) then "--- Number of differentibles do not match"
                 else "--- Model has the correct size.")
          TOLOG (64 - (30 + 0 + 1)) ∧
    (rc ≠ 0 →
     ∀ i, 0 <= i < I_BufStrt →
          load (m_icntr m') i = load (m_icntr (fresh (init_icntr 64 30 2 5 3))) i).
Proof.
  apply (gefunc_init_first_mismatch (fresh (init_icntr 64 30 2 5 3)) point
           64 30 0 2 5 3).
  - closed_wf.
  - reflexivity.
  - reflexivity.
  - reflexivity.
  - reflexivity.
Defined.

(** * Repeated calls and the debug trace of the dispatcher *)

Lemma mirrored_open w dbg line mode f :
  dbg ≠ 0 → fpDebug w = Some f →
  mirrored w dbg line mode
  = Sink (Some (f ++ debug_line line mode)) (can_create w) (stdout w).
Proof.
  intros Hon Hf. unfold mirrored. destruct (Z.eqb_spec dbg 0); [done|].
  unfold debug_trace, debug_line. rewrite Hf.
  destruct (Z.eqb_spec mode TOSTAT) as [->|]; [by rewrite <- app_assoc|].
  destruct (mode =? TOLOG); [done|]. by rewrite app_nil_r.
Qed.

(** One call of the packer on a well-formed vector: the sink it leaves,
    and the part of the vector before the buffer. *)
Lemma packer_trace (v : list Z) L s c w dbg line md :
  wf_icntr v L s c → is_int md → strlen line <= int_max →
  load v I_Debug = Some dbg →
  ∃ v' c',
    GEwrite w v line md = Some (mirrored w dbg line md, v') ∧
    wf_icntr v' L s c' ∧
    load v' I_Debug = Some dbg ∧
    ∀ i, 0 <= i < I_BufStrt → load v' i = load v i.
Proof.
  intros Hwf Hmd Hlen Hdbg.
  destruct (GEwrite_sink w v L s c dbg line md Hwf Hdbg Hlen) as [v' Hrun].
  destruct (GEwrite_written v L s c Hwf w line md Hmd Hlen)
    as (w1 & v1 & c' & Hrun1 & Hwf' & _ & Hfr & _ & _).
  assert (v1 = v') by congruence. subst v1.
  pose proof Hwf as [_ _ _ _ _ _ _ Hbuf Hused _].
  unfold I_Debug in Hbuf.
  exists v', c'. split; [done|]. split; [done|]. split.
  - rewrite Hfr; [done|unfold I_Debug, I_BufLen; lia|unfold I_Debug; lia].
  - intros i Hi. apply Hfr; unfold I_BufStrt, I_BufLen in *; lia.
Qed.

Section DispatcherAgain.
Context `{Cmath double}.

Lemma derivatives_again (d d1 x : list double) findex :
  derivatives d x findex = Some d1 → derivatives d1 x findex = Some d1.
Proof.
  unfold derivatives. intros Hd.
  destruct (findex =? 1).
  - destruct (load x 0) as [y|]; [|done]. cbn [mbind option_bind] in *.
    destruct (store d 0 (d_cos y)) as [d0|] eqn:H0; [|done].
    cbn [mbind option_bind] in Hd.
    pose proof (proj1 (store_is_Some d 0 (d_cos y)) ltac:(by eexists)) as Hl0.
    pose proof (proj1 (store_is_Some d0 2 d_minus_one) ltac:(by eexists)) as Hl2.
    apply store_is_Some_inv in H0 as ->. apply store_is_Some_inv in Hd as ->.
    rewrite length_insert in Hl2.
    rewrite store_Some by (rewrite !length_insert; lia). bind_step.
    rewrite store_Some by (rewrite !length_insert; lia). f_equal.
    change (Z.to_nat 0) with 0%nat. change (Z.to_nat 2) with 2%nat.
    rewrite (list_insert_insert_ne _ 0 2) by lia.
    by rewrite !list_insert_insert_eq.
  - destruct (load x 1) as [y|]; [|done]. cbn [mbind option_bind] in *.
    destruct (store d 1 (d_neg (d_sin y))) as [d0|] eqn:H0; [|done].
    cbn [mbind option_bind] in Hd.
    pose proof (proj1 (store_is_Some d 1 (d_neg (d_sin y))) ltac:(by eexists)) as Hl0.
    pose proof (proj1 (store_is_Some d0 3 d_minus_one) ltac:(by eexists)) as Hl2.
    apply store_is_Some_inv in H0 as ->. apply store_is_Some_inv in Hd as ->.
    rewrite length_insert in Hl2.
    rewrite store_Some by (rewrite !length_insert; lia). bind_step.
    rewrite store_Some by (rewrite !length_insert; lia). f_equal.
    change (Z.to_nat 1) with 1%nat. change (Z.to_nat 3) with 3%nat.
    rewrite (list_insert_insert_ne _ 1 3) by lia.
    by rewrite !list_insert_insert_eq.
Qed.

(** X18: evaluating again at the same point changes no output.  After an
    Evaluate call on a well-formed vector (four variables, at least four
    derivative entries), a second call with the vector, the function value
    and the derivative array the first one left returns the same status
    and leaves the function value and the whole derivative array as the
    first call left them. *)
Theorem gefunc_eval_again m x L s c :
  wf_icntr (m_icntr m) L s c →
  load (m_icntr m) I_Mode = Some DOEVAL →
  4 <= Z.of_nat (length x) →
  4 <= Z.of_nat (length (m_d m)) →
  ∃ rc m1 m2,
    gefunc m x = Some (rc, m1) ∧
    gefunc m1 x = Some (rc, m2) ∧
    m_f m2 = m_f m1 ∧
    m_d m2 = m_d m1.
Proof.
  intros Hwf Hmode Hx Hd.
  destruct (do_eval_progress m x L s c Hwf Hx Hd)
    as (rc & m1 & c1 & Hrun1 & _ & Hwf1 & _ & Hlen1 & Hfix1).
  assert (Hmode1 : load (m_icntr m1) I_Mode = Some DOEVAL).
  { rewrite Hfix1; [done|by vm_compute]. }
  assert (Hd1 : 4 <= Z.of_nat (length (m_d m1))) by (rewrite Hlen1; lia).
  destruct (do_eval_progress m1 x L s c1 Hwf1 Hx Hd1)
    as (rc2 & m2 & c2 & Hrun2 & _).
  assert (Hcall : ∀ m0, load (m_icntr m0) I_Mode = Some DOEVAL →
                        gefunc m0 x = do_eval m0 x).
  { intros m0 Hm0. by rewrite (gefunc_mode m0 x DOEVAL Hm0). }
  destruct (fixed_field (m_icntr m) L s c I_Eqno Hwf ltac:(by vm_compute))
    as [findex Heq].
  destruct (fixed_field (m_icntr m) L s c I_Dofunc Hwf ltac:(by vm_compute))
    as [dofnc Hfn].
  destruct (fixed_field (m_icntr m) L s c I_Dodrv Hwf ltac:(by vm_compute))
    as [dodrv Hdrv].
  assert (Heq1 : load (m_icntr m1) I_Eqno = Some findex).
  { rewrite Hfix1; [done|by vm_compute]. }
  assert (Hfn1 : load (m_icntr m1) I_Dofunc = Some dofnc).
  { rewrite Hfix1; [done|by vm_compute]. }
  assert (Hdrv1 : load (m_icntr m1) I_Dodrv = Some dodrv).
  { rewrite Hfix1; [done|by vm_compute]. }
  pose proof (do_eval_outputs m x L s c findex dofnc dodrv Hwf Heq Hfn Hdrv) as Ho.
  pose proof (do_eval_outputs m1 x L s c1 findex dofnc dodrv Hwf1 Heq1 Hfn1 Hdrv1)
    as Ho1.
  pose proof Hrun1 as Hcall1. pose proof Hrun2 as Hcall2.
  rewrite Hrun1 in Ho. rewrite Hrun2 in Ho1.
  cbn [fmap option_fmap option_map] in Ho, Ho1.
  unfold outputs in Ho, Ho1. cbn [fst snd] in Ho, Ho1.
  assert (Hsame : (rc2, m_f m2, m_d m2) = (rc, m_f m1, m_d m1)).
  { destruct ((1 <=? findex) && (findex <=? 2)).
    - destruct (function_value_is_Some x findex Hx) as [fv Hfv].
      destruct (derivatives_is_Some (m_d m) x findex Hx Hd) as [dv Hdv].
      assert (Hf1 : m_f m1 = if dofnc =? 0 then m_f m else fv).
      { destruct (dofnc =? 0), (dodrv =? 0);
          rewrite ?Hfv, ?Hdv in Ho; cbn [mbind option_bind] in Ho; congruence. }
      assert (Hdd1 : m_d m1 = if dodrv =? 0 then m_d m else dv).
      { destruct (dofnc =? 0), (dodrv =? 0);
          rewrite ?Hfv, ?Hdv in Ho; cbn [mbind option_bind] in Ho; congruence. }
      assert (Hrc : rc = 0).
      { destruct (dofnc =? 0), (dodrv =? 0);
          rewrite ?Hfv, ?Hdv in Ho; cbn [mbind option_bind] in Ho; congruence. }
      assert (Hagain : (if dodrv =? 0 then Some (m_d m1)
                        else derivatives (m_d m1) x findex) = Some (m_d m1)).
      { destruct (dodrv =? 0); [done|].
        rewrite <- Hdd1 in Hdv.
        by apply (derivatives_again (m_d m)). }
      rewrite Hagain in Ho1.
      destruct (dofnc =? 0); rewrite ?Hfv in Ho1;
        cbn [mbind option_bind] in Ho1; congruence.
    - congruence. }
  injection Hsame as Hrc Hf Hdd. rewrite Hrc in Hcall2.
  exists rc, m1, m2. by rewrite (Hcall m Hmode), (Hcall m1 Hmode1).
Qed.

(** X19: with the debug flag set and the debug file open, an Evaluate
    call on a well-formed vector appends to the debug file the line
    [ Log: --- Evaluation mode] and, exactly when the equation index is
    not 1 or 2, the line [Stat:  ** fIndex has unexpected value.] after
    it, whatever room the buffer has left. *)
Theorem gefunc_eval_trace m x L s c dbg findex f :
  wf_icntr (m_icntr m) L s c →
  load (m_icntr m) I_Mode = Some DOEVAL →
  load (m_icntr m) I_Eqno = Some findex →
  load (m_icntr m) I_Debug = Some dbg →
  dbg ≠ 0 →
  fpDebug (m_sink m) = Some f →
  4 <= Z.of_nat (length x) →
  4 <= Z.of_nat (length (m_d m)) →
  ∃ rc m',
    gefunc m x = Some (rc, m') ∧
    fpDebug (m_sink m')
    = Some (f ++ " Log: --- Evaluation mode"%string
              :: (if (1 <=? findex) && (findex <=? 2) then []
                  else ["Stat:  ** fIndex has unexpected value."%string])).
Proof.
  intros Hwf Hmode Heq Hdbg Hon Hf Hx Hd.
  rewrite (gefunc_mode m x DOEVAL Hmode).
  change (DOEVAL =? DOINIT) with false. change (DOEVAL =? DOTERM) with false.
  change (DOEVAL =? DOEVAL) with true. cbv iota.
  destruct (packer_trace (m_icntr m) L s c (m_sink m) dbg "--- Evaluation mode"
              TOLOG Hwf ltac:(by vm_compute) ltac:(by vm_compute) Hdbg)
    as (v1 & c1 & Hrun1 & Hwf1 & Hdbg1 & Hfix1).
  destruct (fixed_field (m_icntr m) L s c I_Dofunc Hwf ltac:(by vm_compute))
    as [dofnc Hfn].
  destruct (fixed_field (m_icntr m) L s c I_Dodrv Hwf ltac:(by vm_compute))
    as [dodrv Hdrv].
  unfold do_eval, log, GElog. rewrite Hrun1. bind_step.
  cbn [m_icntr m_sink m_f m_d with_icntr].
  rewrite !Hfix1 by (by vm_compute). rewrite Heq, Hfn, Hdrv. bind_step.
  rewrite (mirrored_open _ dbg _ _ f Hon Hf).
  change (debug_line "--- Evaluation mode" TOLOG)
    with [" Log: --- Evaluation mode"%string].
  destruct ((1 <=? findex) && (findex <=? 2)).
  - destruct (function_value_is_Some x findex Hx) as [fv Hfv].
    destruct (derivatives_is_Some (m_d m) x findex Hx Hd) as [dv Hdv].
    rewrite Hfv. bind_step.
    destruct (dofnc =? 0), (dodrv =? 0); bind_step;
      cbn [m_icntr m_sink m_f m_d with_icntr with_f with_d];
      rewrite ?Hdv; bind_step; eexists _, _; (split; [reflexivity|]);
      cbn [m_sink with_d with_f fpDebug]; by rewrite app_nil_r || done.
  - unfold stat, GEstat. cbn [m_icntr m_sink m_f m_d with_icntr].
    destruct (packer_trace v1 L s c1
                (Sink (Some (f ++ [" Log: --- Evaluation mode"%string]))
                   (can_create (m_sink m)) (stdout (m_sink m)))
                dbg " ** fIndex has unexpected value."
                TOSTAT Hwf1 ltac:(by vm_compute) ltac:(by vm_compute) Hdbg1)
      as (v2 & c2 & Hrun2 & _).
    rewrite Hrun2. bind_step. eexists _, _. split; [reflexivity|].
    cbn [m_sink with_icntr].
    rewrite (mirrored_open _ dbg _ _ (f ++ [" Log: --- Evaluation mode"%string]) Hon)
      by done.
    cbn [fpDebug]. by rewrite <- app_assoc.
Qed.

End DispatcherAgain.

(** * The two destinations *)

Lemma lookup_insert_congr {A} (l1 l2 : list A) j y i :
  length l1 = length l2 → l1 !! i = l2 !! i →
  <[j:=y]> l1 !! i = <[j:=y]> l2 !! i.
Proof.
  intros Hlen Hi. destruct (decide (i = j)) as [->|Hne].
  - destruct (decide (j < length l1)%nat).
    + by rewrite !list_lookup_insert_eq by lia.
    + by rewrite !list_insert_ge by lia.
  - by rewrite !list_lookup_insert_ne by done.
Qed.

(** The vector GEwrite leaves depends on the destination in the
    destination word of the new record only. *)
Lemma GEwrite_mode_word w v L s c line md1 md2 w1 v1 w2 v2 :
  wf_icntr v L s c →
  GEwrite w v line md1 = Some (w1, v1) →
  GEwrite w v line md2 = Some (w2, v2) →
  length v1 = length v2 ∧
  (∀ i, i ≠ s + c → load v1 i = load v2 i) ∧
  (0 < L - (s + c + 1) → load v1 (s + c) = Some md1 ∧ load v2 (s + c) = Some md2).
Proof.
  intros Hwf Hrun1 Hrun2.
  destruct (wf_Debug v L s c Hwf) as (dbg & Hdbg).
  pose proof (startMsg_eq v L s c Hwf) as Hstart.
  pose proof (ints2write_eq v L s c Hwf) as Hints.
  pose proof Hwf as [_ _ HL Hs Hc _ _ Hbuf Hused _].
  unfold I_Debug in Hbuf.
  unfold GEwrite in Hrun1, Hrun2.
  rewrite Hdbg, Hs, Hc, HL in Hrun1, Hrun2.
  cbn [mbind option_bind] in Hrun1, Hrun2.
  rewrite Hstart, Hints in Hrun1, Hrun2.
  destruct (Z.leb_spec (L - (s + c + 1)) 0) as [Hno|Hroom].
  { injection Hrun1 as _ <-. injection Hrun2 as _ <-.
    split; [done|]. split; [done|]. lia. }
  set (n := if L - (s + c + 1) <? INTS _ then _ else _) in Hrun1, Hrun2.
  destruct (memcpy v (s + c + 1) line n) as [v3|]; [|done].
  cbn [mbind option_bind] in Hrun1, Hrun2.
  destruct (store v3 (s + c + 1 -i 2) n) as [v4|]; [|done].
  cbn [mbind option_bind] in Hrun1, Hrun2.
  assert (Hk : s + c + 1 -i 1 = s + c).
  { unfold isub. replace (s + c + 1 - 1) with (s + c) by lia.
    destruct (wf_ranges v L s c Hwf) as (HiL & _ & _ & _). destruct Hwf.
    apply wrap_id. unfold is_int, int_min, int_max, I_Debug in *. lia. }
  rewrite Hk in Hrun1, Hrun2.
  destruct (store v4 (s + c) md1) as [v5|] eqn:H51; [|done].
  destruct (store v4 (s + c) md2) as [v6|] eqn:H52; [|done].
  cbn [mbind option_bind] in Hrun1, Hrun2.
  pose proof (proj1 (store_is_Some v4 (s + c) md1) ltac:(by eexists)) as Hin.
  apply store_is_Some_inv in H51 as ->. apply store_is_Some_inv in H52 as ->.
  rewrite load_insert_ne in Hrun1, Hrun2 by (unfold I_BufLen; lia).
  destruct (load v4 I_BufLen) as [used|]; [|done].
  cbn [mbind option_bind] in Hrun1, Hrun2.
  destruct (store (<[Z.to_nat (s + c):=md1]> v4) I_BufLen _) as [v7|] eqn:H71; [|done].
  destruct (store (<[Z.to_nat (s + c):=md2]> v4) I_BufLen _) as [v8|] eqn:H72; [|done].
  apply store_is_Some_inv in H71 as ->. apply store_is_Some_inv in H72 as ->.
  injection Hrun1 as _ <-. injection Hrun2 as _ <-.
  split; [by rewrite !length_insert|]. split.
  - intros i Hi. unfold load. destruct (Z.leb_spec 0 i); [|done].
    apply lookup_insert_congr; [by rewrite !length_insert|].
    by rewrite !list_lookup_insert_ne by lia.
  - intros _.
    split; (rewrite load_insert_ne by (unfold I_BufLen; lia));
      by rewrite load_insert_eq by done.
Qed.

(** X20: GEstat and GElog pack a line in the same way.  From the same
    well-formed vector both return, and the vectors they leave have the
    same length and agree in every word but the destination word of the
    new record, which holds 1 after GEstat and 2 after GElog when the
    record is written. *)
Theorem GEstat_GElog_same_record w v L s c line :
  wf_icntr v L s c →
  strlen line <= int_max →
  ∃ ws vs wl vl,
    GEstat w v line = Some (ws, vs) ∧
    GElog w v line = Some (wl, vl) ∧
    length vs = length vl ∧
    (∀ i, i ≠ s + c → load vs i = load vl i) ∧
    (0 < L - (s + c + 1) →
     load vs (s + c) = Some 1 ∧ load vl (s + c) = Some 2).
Proof.
  intros Hwf Hlen.
  destruct (wf_Debug v L s c Hwf) as (dbg & Hdbg).
  destruct (GEwrite_sink w v L s c dbg line TOSTAT Hwf Hdbg Hlen) as [vs Hs].
  destruct (GEwrite_sink w v L s c dbg line TOLOG Hwf Hdbg Hlen) as [vl Hl].
  exists (mirrored w dbg line TOSTAT), vs, (mirrored w dbg line TOLOG), vl.
  split; [done|]. split; [done|].
  exact (GEwrite_mode_word w v L s c line TOSTAT TOLOG _ _ _ _ Hwf Hs Hl).
Qed.

Lemma GEstat_GElog_same_record_run :
  ∃ ws vs wl vl,
    GEstat quiet (sample_icntr 64 30 0) "0123456789" = Some (ws, vs) ∧
    GElog quiet (sample_icntr 64 30 0) "0123456789" = Some (wl, vl) ∧
    length vs = length vl ∧
    (∀ i, i ≠ 30 + 0 → load vs i = load vl i) ∧
    (0 < 64 - (30 + 0 + 1) →
     load vs (30 + 0) = Some 1 ∧ load vl (30 + 0) = Some 2).
Proof.
  apply (GEstat_GElog_same_record quiet (sample_icntr 64 30 0) 64 30 0 "0123456789").
  - closed_wf.
  - vm_compute. congruence.
Defined.

Lemma gefunc_eval_again_run :
  ∃ rc m1 m2,
    gefunc (fresh (eval_icntr 1 1 1)) point = Some (rc, m1) ∧
    gefunc m1 point = Some (rc, m2) ∧
    m_f m2 = m_f m1 ∧
    m_d m2 = m_d m1.
Proof.
  apply (gefunc_eval_again (fresh (eval_icntr 1 1 1)) point 64 30 0).
  - closed_wf.
  - reflexivity.
  - vm_compute. congruence.
  - vm_compute. congruence.
Defined.

Lemma gefunc_eval_trace_run :
  ∃ rc m',
    gefunc (Memory traced (busy_eval_icntr 3 1 1) (Lit 0) (replicate 4 (Lit 0))) point
      = Some (rc, m') ∧
    fpDebug (m_sink m')
    = Some ([" Log: --- Terminating"%string]
              ++ " Log: --- Evaluation mode"%string
              :: (if (1 <=? 3) && (3 <=? 2) then []
                  else ["Stat:  ** fIndex has unexpected value."%string])).
Proof.
  apply (gefunc_eval_trace
           (Memory traced (busy_eval_icntr 3 1 1) (Lit 0) (replicate 4 (Lit 0)))
           point 48 33 5 1 3 [" Log: --- Terminating"%string]).
  - closed_wf.
  - reflexivity.
  - reflexivity.
  - reflexivity.
  - lia.
  - reflexivity.
  - vm_compute. congruence.
  - vm_compute. congruence.
Defined.
